(** * The camera / view subsystem of the scene viewer (ViewManager.cpp)

    A shallow embedding of [Source/ViewManager.cpp]: the file-scope
    variables of the anonymous namespace become one [State] record, the
    two GLFW callbacks and the per-frame update become state
    transformers, and the writes of uniforms to the shader manager
    become a list of [Upload]s returned by [PrepareSceneView].

    The program is written once, over an interface [FloatOps] of the
    arithmetic it uses, and read at two instances:
    - [binary32_ops]: IEEE 754 single precision (the C++ [float]), from
      the executable specification [SpecFloat] of the standard library;
    - [exact_ops]: the real numbers, the arithmetic the program
      approximates; only the angles the constructor derives are read
      there, everything about movement, the clamps and the modes is
      proved of [binary32_ops]. *)

From Stdlib Require Import ZArith Bool List String Lia.
From Stdlib Require Import QArith Qreals Reals Lra.
From Stdlib Require Import Floats.SpecFloat.
From Stdlib Require Import DecimalString.
Import ListNotations.

Set Implicit Arguments.
Close Scope Q_scope.

(** ** Arithmetic interface *)

(** [F] is the type of C++ [float] values, [D] the type of the [double]
    values GLFW hands to the callbacks. *)
Class FloatOps (F D : Type) : Type := {
  f_add : F -> F -> F;
  f_sub : F -> F -> F;
  f_mul : F -> F -> F;
  f_div : F -> F -> F;
  f_opp : F -> F;
  f_lt : F -> F -> bool;
  (* a decimal literal with suffix f, or an int converted to float *)
  f_lit : Q -> F;
  (* static_cast<float>(double) *)
  f_cast : D -> F;
  (* <cmath>, float overloads *)
  f_sqrt : F -> F;
  f_cos : F -> F;
  f_sin : F -> F;
  f_asin : F -> F;
  f_atan2 : F -> F -> F;
  (* glm::radians, glm::degrees *)
  f_radians : F -> F;
  f_degrees : F -> F
}.

Declare Scope F_scope.
Delimit Scope F_scope with fl.
Notation "x + y" := (f_add x y) : F_scope.
Notation "x - y" := (f_sub x y) : F_scope.
Notation "x * y" := (f_mul x y) : F_scope.
Notation "x / y" := (f_div x y) : F_scope.
Notation "- x" := (f_opp x) : F_scope.
Notation "x < y" := (f_lt x y) : F_scope.
Notation "x > y" := (f_lt y x) : F_scope.

(** ** glm::vec3 *)

Record vec3 (F : Type) : Type := mkvec3 { vx : F; vy : F; vz : F }.
Arguments mkvec3 {F} _ _ _.
Arguments vx {F} _.
Arguments vy {F} _.
Arguments vz {F} _.

(** The four members of [Camera] (camera.h) that ViewManager.cpp reads
    or writes. *)
Record Camera (F : Type) : Type := mkCamera {
  Position : vec3 F;
  Front : vec3 F;
  Up : vec3 F;
  Zoom : F
}.
Arguments mkCamera {F} _ _ _ _.
Arguments Position {F} _.
Arguments Front {F} _.
Arguments Up {F} _.
Arguments Zoom {F} _.

(** The matrix-valued functions the per-frame update calls: three of
    glm and [Camera::GetViewMatrix] of camera.h.  [M] is glm::mat4. *)
Class GfxOps (F M : Type) : Type := {
  lookAt : vec3 F -> vec3 F -> vec3 F -> M;
  perspective : F -> F -> F -> F -> M;
  ortho : F -> F -> F -> F -> F -> F -> M;
  GetViewMatrix : Camera F -> M
}.

(** A pointer, as far as the program inspects one: null or not. *)
Inductive ptr : Type :=
| NULL
| Addr (a : positive).

Definition is_null (p : ptr) : bool :=
  match p with NULL => true | Addr _ => false end.

(** The keys [ProcessKeyboardEvents] asks glfwGetKey about; [true] is
    GLFW_PRESS. *)
Record Keys : Type := mkKeys {
  KEY_ESCAPE : bool;
  KEY_O : bool;
  KEY_P : bool;
  KEY_W : bool;
  KEY_S : bool;
  KEY_A : bool;
  KEY_D : bool;
  KEY_Q : bool;
  KEY_E : bool
}.

(** The variables of the anonymous namespace that are assigned after
    their initialisation, the members of ViewManager, and the close
    flag of the window. *)
Record State (F : Type) : Type := mkState {
  m_pShaderManager : ptr;
  windowShouldClose : bool;
  g_pCamera : Camera F;
  gLastX : F;
  gLastY : F;
  gFirstMouse : bool;
  gDeltaTime : F;
  gLastFrame : F;
  bOrthographicProjection : bool;
  gSpeedScale : F;
  gYaw : F;
  gPitch : F;
  gToggleKeyDown_O : bool;
  gToggleKeyDown_P : bool
}.
Arguments mkState {F} _ _ _ _ _ _ _ _ _ _ _ _ _ _.
Arguments m_pShaderManager {F} _.
Arguments windowShouldClose {F} _.
Arguments g_pCamera {F} _.
Arguments gLastX {F} _.
Arguments gLastY {F} _.
Arguments gFirstMouse {F} _.
Arguments gDeltaTime {F} _.
Arguments gLastFrame {F} _.
Arguments bOrthographicProjection {F} _.
Arguments gSpeedScale {F} _.
Arguments gYaw {F} _.
Arguments gPitch {F} _.
Arguments gToggleKeyDown_O {F} _.
Arguments gToggleKeyDown_P {F} _.

(** One call of the shader manager. *)
Inductive Upload (F M : Type) : Type :=
| setMat4Value (name : string) (m : M)
| setVec3Value (name : string) (v : vec3 F).
Arguments setMat4Value {F M} _ _.
Arguments setVec3Value {F M} _ _.

(** What the event loop delivers. *)
Inductive Event (D : Type) : Type :=
| CursorPos (xMousePos yMousePos : D)
| Scroll (xOffset yOffset : D)
| Frame (glfwGetTime : D) (keys : Keys).
Arguments CursorPos {D} _ _.
Arguments Scroll {D} _ _.
Arguments Frame {D} _ _.

Section Program.
Context {F D M : Type} {FO : FloatOps F D} {GO : GfxOps F M}.
Local Open Scope F_scope.

(** *** glm *)

Definition v_add (a b : vec3 F) : vec3 F :=
  mkvec3 (vx a + vx b) (vy a + vy b) (vz a + vz b).

Definition v_sub (a b : vec3 F) : vec3 F :=
  mkvec3 (vx a - vx b) (vy a - vy b) (vz a - vz b).

Definition v_scale (a : vec3 F) (k : F) : vec3 F :=
  mkvec3 (vx a * k) (vy a * k) (vz a * k).

Definition dot (a b : vec3 F) : F :=
  vx a * vx b + vy a * vy b + vz a * vz b.

Definition cross (x y : vec3 F) : vec3 F :=
  mkvec3 (vy x * vz y - vy y * vz x)
         (vz x * vx y - vz y * vx x)
         (vx x * vy y - vx y * vy x).

Definition inversesqrt (x : F) : F := f_lit 1 / f_sqrt x.

Definition normalize (v : vec3 F) : vec3 F := v_scale v (inversesqrt (dot v v)).

(** *** Constants of the anonymous namespace *)

Definition WINDOW_WIDTH : F := f_lit 1000.
Definition WINDOW_HEIGHT : F := f_lit 800.
Definition g_ViewName : string := "view".
Definition g_ProjectionName : string := "projection".
Definition gBaseMoveSpeed : F := f_lit 6.0.
Definition gMouseSensitivity : F := f_lit 0.10.
Definition gOrthoTarget : vec3 F := mkvec3 (- f_lit 2.0) (f_lit 0.95) (- f_lit 1.0).
Definition gOrthoCamPos : vec3 F := mkvec3 (- f_lit 2.0) (f_lit 0.95) (f_lit 8.0).

(** *** Field updates *)

Definition set_Position (p : vec3 F) (s : State F) : State F :=
  mkState (m_pShaderManager s) (windowShouldClose s)
    (mkCamera p (Front (g_pCamera s)) (Up (g_pCamera s)) (Zoom (g_pCamera s)))
    (gLastX s) (gLastY s) (gFirstMouse s) (gDeltaTime s) (gLastFrame s)
    (bOrthographicProjection s) (gSpeedScale s) (gYaw s) (gPitch s)
    (gToggleKeyDown_O s) (gToggleKeyDown_P s).

Definition set_Front (v : vec3 F) (s : State F) : State F :=
  mkState (m_pShaderManager s) (windowShouldClose s)
    (mkCamera (Position (g_pCamera s)) v (Up (g_pCamera s)) (Zoom (g_pCamera s)))
    (gLastX s) (gLastY s) (gFirstMouse s) (gDeltaTime s) (gLastFrame s)
    (bOrthographicProjection s) (gSpeedScale s) (gYaw s) (gPitch s)
    (gToggleKeyDown_O s) (gToggleKeyDown_P s).

Definition set_windowShouldClose (b : bool) (s : State F) : State F :=
  mkState (m_pShaderManager s) b (g_pCamera s)
    (gLastX s) (gLastY s) (gFirstMouse s) (gDeltaTime s) (gLastFrame s)
    (bOrthographicProjection s) (gSpeedScale s) (gYaw s) (gPitch s)
    (gToggleKeyDown_O s) (gToggleKeyDown_P s).

Definition set_gLast (x y : F) (s : State F) : State F :=
  mkState (m_pShaderManager s) (windowShouldClose s) (g_pCamera s)
    x y (gFirstMouse s) (gDeltaTime s) (gLastFrame s)
    (bOrthographicProjection s) (gSpeedScale s) (gYaw s) (gPitch s)
    (gToggleKeyDown_O s) (gToggleKeyDown_P s).

Definition set_gFirstMouse (b : bool) (s : State F) : State F :=
  mkState (m_pShaderManager s) (windowShouldClose s) (g_pCamera s)
    (gLastX s) (gLastY s) b (gDeltaTime s) (gLastFrame s)
    (bOrthographicProjection s) (gSpeedScale s) (gYaw s) (gPitch s)
    (gToggleKeyDown_O s) (gToggleKeyDown_P s).

Definition set_gDeltaTime (t : F) (s : State F) : State F :=
  mkState (m_pShaderManager s) (windowShouldClose s) (g_pCamera s)
    (gLastX s) (gLastY s) (gFirstMouse s) t (gLastFrame s)
    (bOrthographicProjection s) (gSpeedScale s) (gYaw s) (gPitch s)
    (gToggleKeyDown_O s) (gToggleKeyDown_P s).

Definition set_gLastFrame (t : F) (s : State F) : State F :=
  mkState (m_pShaderManager s) (windowShouldClose s) (g_pCamera s)
    (gLastX s) (gLastY s) (gFirstMouse s) (gDeltaTime s) t
    (bOrthographicProjection s) (gSpeedScale s) (gYaw s) (gPitch s)
    (gToggleKeyDown_O s) (gToggleKeyDown_P s).

Definition set_bOrthographicProjection (b : bool) (s : State F) : State F :=
  mkState (m_pShaderManager s) (windowShouldClose s) (g_pCamera s)
    (gLastX s) (gLastY s) (gFirstMouse s) (gDeltaTime s) (gLastFrame s)
    b (gSpeedScale s) (gYaw s) (gPitch s)
    (gToggleKeyDown_O s) (gToggleKeyDown_P s).

Definition set_gSpeedScale (v : F) (s : State F) : State F :=
  mkState (m_pShaderManager s) (windowShouldClose s) (g_pCamera s)
    (gLastX s) (gLastY s) (gFirstMouse s) (gDeltaTime s) (gLastFrame s)
    (bOrthographicProjection s) v (gYaw s) (gPitch s)
    (gToggleKeyDown_O s) (gToggleKeyDown_P s).

Definition set_gYaw (v : F) (s : State F) : State F :=
  mkState (m_pShaderManager s) (windowShouldClose s) (g_pCamera s)
    (gLastX s) (gLastY s) (gFirstMouse s) (gDeltaTime s) (gLastFrame s)
    (bOrthographicProjection s) (gSpeedScale s) v (gPitch s)
    (gToggleKeyDown_O s) (gToggleKeyDown_P s).

Definition set_gPitch (v : F) (s : State F) : State F :=
  mkState (m_pShaderManager s) (windowShouldClose s) (g_pCamera s)
    (gLastX s) (gLastY s) (gFirstMouse s) (gDeltaTime s) (gLastFrame s)
    (bOrthographicProjection s) (gSpeedScale s) (gYaw s) v
    (gToggleKeyDown_O s) (gToggleKeyDown_P s).

Definition set_gToggleKeyDown_O (b : bool) (s : State F) : State F :=
  mkState (m_pShaderManager s) (windowShouldClose s) (g_pCamera s)
    (gLastX s) (gLastY s) (gFirstMouse s) (gDeltaTime s) (gLastFrame s)
    (bOrthographicProjection s) (gSpeedScale s) (gYaw s) (gPitch s)
    b (gToggleKeyDown_P s).

Definition set_gToggleKeyDown_P (b : bool) (s : State F) : State F :=
  mkState (m_pShaderManager s) (windowShouldClose s) (g_pCamera s)
    (gLastX s) (gLastY s) (gFirstMouse s) (gDeltaTime s) (gLastFrame s)
    (bOrthographicProjection s) (gSpeedScale s) (gYaw s) (gPitch s)
    (gToggleKeyDown_O s) b.

(** *** ViewManager::ViewManager

    The state once the constructor has run: the initialisers of the
    anonymous namespace, then the constructor body (lines 67-87). *)
Definition ViewManager_new (pShaderManager : ptr) : State F :=
  let camera :=
    mkCamera (mkvec3 (f_lit 0.0) (f_lit 5.0) (f_lit 12.0))
             (mkvec3 (f_lit 0.0) (- f_lit 0.5) (- f_lit 2.0))
             (mkvec3 (f_lit 0.0) (f_lit 1.0) (f_lit 0.0))
             (f_lit 80.0) in
  let front := normalize (Front camera) in
  mkState pShaderManager false camera
    (WINDOW_WIDTH / f_lit 2.0) (WINDOW_HEIGHT / f_lit 2.0) true
    (f_lit 0.0) (f_lit 0.0)
    false (f_lit 1.0)
    (f_degrees (f_atan2 (vz front) (vx front)) - f_lit 90.0)
    (f_degrees (f_asin (vy front)))
    false false.

(** *** ViewManager::Mouse_Position_Callback (lines 148-187) *)

(** Lines 181-185. *)
Definition front_of_angles (yaw pitch : F) : vec3 F :=
  normalize
    (mkvec3 (f_cos (f_radians yaw) * f_cos (f_radians pitch))
            (f_sin (f_radians pitch))
            (f_sin (f_radians yaw) * f_cos (f_radians pitch))).

Definition Mouse_Position_Callback (xMousePos yMousePos : D) (s : State F) : State F :=
  let x := f_cast xMousePos in
  let y := f_cast yMousePos in
  let s := if gFirstMouse s
           then set_gFirstMouse false (set_gLast x y s)
           else s in
  let xoffset := x - gLastX s in
  let yoffset := gLastY s - y in
  let s := set_gLast x y s in
  let xoffset := xoffset * gMouseSensitivity in
  let yoffset := yoffset * gMouseSensitivity in
  if negb (bOrthographicProjection s) then
    let s := set_gYaw (gYaw s + xoffset) s in
    let s := set_gPitch (gPitch s + yoffset) s in
    let s := if gPitch s > f_lit 89.0 then set_gPitch (f_lit 89.0) s else s in
    let s := if gPitch s < - f_lit 89.0 then set_gPitch (- f_lit 89.0) s else s in
    set_Front (front_of_angles (gYaw s) (gPitch s)) s
  else s.

(** *** ViewManager::Mouse_Scroll_Callback (lines 194-202) *)

Definition Mouse_Scroll_Callback (xOffset yOffset : D) (s : State F) : State F :=
  let s := set_gSpeedScale (gSpeedScale s + f_cast yOffset * f_lit 0.10) s in
  let s := if gSpeedScale s < f_lit 0.10 then set_gSpeedScale (f_lit 0.10) s else s in
  let s := if gSpeedScale s > f_lit 5.00 then set_gSpeedScale (f_lit 5.00) s else s in
  s.

(** *** ViewManager::ProcessKeyboardEvents (lines 207-267) *)

(** Lines 209-213. *)
Definition poll_escape (k : Keys) (s : State F) : State F :=
  if KEY_ESCAPE k then set_windowShouldClose true s else s.

(** Lines 215-227. *)
Definition poll_O (k : Keys) (s : State F) : State F :=
  if KEY_O k then
    if negb (gToggleKeyDown_O s)
    then set_gToggleKeyDown_O true (set_bOrthographicProjection true s)
    else s
  else set_gToggleKeyDown_O false s.

(** Lines 229-241. *)
Definition poll_P (k : Keys) (s : State F) : State F :=
  if KEY_P k then
    if negb (gToggleKeyDown_P s)
    then set_gToggleKeyDown_P true (set_bOrthographicProjection false s)
    else s
  else set_gToggleKeyDown_P false s.

(** Lines 243-266. *)
Definition poll_movement (k : Keys) (s : State F) : State F :=
  if negb (bOrthographicProjection s) then
    let velocity := gBaseMoveSpeed * gSpeedScale s * gDeltaTime s in
    let s := if KEY_W k
             then set_Position (v_add (Position (g_pCamera s))
                                      (v_scale (Front (g_pCamera s)) velocity)) s
             else s in
    let s := if KEY_S k
             then set_Position (v_sub (Position (g_pCamera s))
                                      (v_scale (Front (g_pCamera s)) velocity)) s
             else s in
    let right := normalize (cross (Front (g_pCamera s)) (Up (g_pCamera s))) in
    let s := if KEY_A k
             then set_Position (v_sub (Position (g_pCamera s)) (v_scale right velocity)) s
             else s in
    let s := if KEY_D k
             then set_Position (v_add (Position (g_pCamera s)) (v_scale right velocity)) s
             else s in
    let s := if KEY_Q k
             then set_Position (v_add (Position (g_pCamera s))
                                      (v_scale (Up (g_pCamera s)) velocity)) s
             else s in
    let s := if KEY_E k
             then set_Position (v_sub (Position (g_pCamera s))
                                      (v_scale (Up (g_pCamera s)) velocity)) s
             else s in
    s
  else s.

Definition ProcessKeyboardEvents (k : Keys) (s : State F) : State F :=
  poll_movement k (poll_P k (poll_O k (poll_escape k s))).

(** *** ViewManager::PrepareSceneView (lines 272-332) *)

(** Lines 285-311: the view and the projection of the active mode. *)
Definition scene_matrices (s : State F) : M * M :=
  if bOrthographicProjection s then
    let view := lookAt gOrthoCamPos gOrthoTarget
                       (mkvec3 (f_lit 0.0) (f_lit 1.0) (f_lit 0.0)) in
    let aspect := WINDOW_WIDTH / WINDOW_HEIGHT in
    let orthoSize := f_lit 0.85 in
    (view,
     ortho (- orthoSize * aspect) (orthoSize * aspect)
           (- orthoSize) orthoSize
           (f_lit 0.1) (f_lit 100.0))
  else
    (GetViewMatrix (g_pCamera s),
     perspective (f_radians (Zoom (g_pCamera s)))
                 (WINDOW_WIDTH / WINDOW_HEIGHT)
                 (f_lit 0.1) (f_lit 100.0)).

(** Lines 313-331: the calls made on the shader manager. *)
Definition shader_uploads (view projection : M) (s : State F) : list (Upload F M) :=
  if negb (is_null (m_pShaderManager s)) then
    [ setMat4Value g_ViewName view;
      setMat4Value g_ProjectionName projection;
      if bOrthographicProjection s
      then setVec3Value "viewPosition" gOrthoCamPos
      else setVec3Value "viewPosition" (Position (g_pCamera s)) ]
  else [].

Definition PrepareSceneView (glfwGetTime : D) (k : Keys) (s : State F)
  : State F * list (Upload F M) :=
  let currentFrame := f_cast glfwGetTime in
  let s := set_gDeltaTime (currentFrame - gLastFrame s) s in
  let s := set_gLastFrame currentFrame s in
  let s := ProcessKeyboardEvents k s in
  let '(view, projection) := scene_matrices s in
  (s, shader_uploads view projection s).

(** *** The event loop *)

Definition step (s : State F) (e : Event D) : State F :=
  match e with
  | CursorPos x y => Mouse_Position_Callback x y s
  | Scroll xo yo => Mouse_Scroll_Callback xo yo s
  | Frame t k => fst (PrepareSceneView t k s)
  end.

Definition run (es : list (Event D)) (s : State F) : State F :=
  fold_left step es s.

End Program.

(** ** First instance: IEEE 754 binary32 *)

(** A C++ [float] is a binary32 number and a [double] a binary64 one;
    both are values of [spec_float], the operations differ by the
    precision and the exponent range they round to. *)
Definition float : Type := spec_float.
Definition double : Type := spec_float.

Definition prec32 : Z := 24.
Definition emax32 : Z := 128.
Definition prec64 : Z := 53.
Definition emax64 : Z := 1024.

(** The number nearest to a rational (ties to even): how the compiler
    reads a decimal literal.  [SFdiv] rounds the exact quotient of two
    integers once. *)
Definition round_Q (prec emax : Z) (q : Q) : spec_float :=
  match Qnum q with
  | Z0 => S754_zero false
  | Zpos n => SFdiv prec emax (S754_finite false n 0) (S754_finite false (Qden q) 0)
  | Zneg n => SFdiv prec emax (S754_finite true n 0) (S754_finite false (Qden q) 0)
  end.

Definition float_of_Q : Q -> float := round_Q prec32 emax32.
Definition double_of_Q : Q -> double := round_Q prec64 emax64.

(** static_cast<float> of a double: rounding to nearest, a magnitude
    past the largest float becomes an infinity. *)
Definition float_of_double (d : double) : float :=
  match d with
  | S754_finite s m e => binary_round prec32 emax32 s m e
  | _ => d
  end.

(** The <cmath> functions the program calls, which [SpecFloat] does
    not specify: the program is verified for every choice of them. *)
Class Libm : Type := mkLibm {
  cosf : float -> float;
  sinf : float -> float;
  asinf : float -> float;
  atan2f : float -> float -> float
}.

(** glm::radians and glm::degrees multiply by a [double] literal cast
    to the argument type. *)
Definition glm_radians (degrees : float) : float :=
  SFmul prec32 emax32 degrees
    (float_of_double (double_of_Q 0.01745329251994329576923690768489)).

Definition glm_degrees (radians : float) : float :=
  SFmul prec32 emax32 radians
    (float_of_double (double_of_Q 57.295779513082320876798154814105)).

#[export] Instance binary32_ops {lm : Libm} : FloatOps float double := {
  f_add := SFadd prec32 emax32;
  f_sub := SFsub prec32 emax32;
  f_mul := SFmul prec32 emax32;
  f_div := SFdiv prec32 emax32;
  f_opp := SFopp;
  f_lt := SFltb;
  f_lit := float_of_Q;
  f_cast := float_of_double;
  f_sqrt := SFsqrt prec32 emax32;
  f_cos := cosf;
  f_sin := sinf;
  f_asin := asinf;
  f_atan2 := atan2f;
  f_radians := glm_radians;
  f_degrees := glm_degrees
}.

(** A float that is a number: neither an infinity nor a NaN. *)
Definition is_finite (x : spec_float) : bool :=
  match x with
  | S754_zero _ | S754_finite _ _ _ => true
  | S754_infinity _ | S754_nan => false
  end.

Definition is_nan (x : spec_float) : bool :=
  match x with
  | S754_nan => true
  | _ => false
  end.

(** [lo <= x <= hi], with the comparison of IEEE 754: false when [x]
    is a NaN. *)
Definition in_range (lo hi x : float) : bool :=
  SFleb lo x && SFleb x hi.

(** Equal as numbers ([+0] and [-0] are), or both the same value. *)
Definition same_number (x y : float) : Prop :=
  x = y \/ SFeqb x y = true.

(** ** Second instance: exact arithmetic *)

(** std::atan2 on the reals. *)
Definition Ratan2 (y x : R) : R :=
  if Rlt_dec 0 x then atan (y / x)
  else if Rlt_dec x 0
       then (if Rle_dec 0 y then atan (y / x) + PI else atan (y / x) - PI)
       else if Rlt_dec 0 y then PI / 2
            else if Rlt_dec y 0 then - (PI / 2)
                 else 0.

Definition Rltb (x y : R) : bool := if Rlt_dec x y then true else false.

#[export] Instance exact_ops : FloatOps R R := {
  f_add := Rplus;
  f_sub := Rminus;
  f_mul := Rmult;
  f_div := Rdiv;
  f_opp := Ropp;
  f_lt := Rltb;
  f_lit := Q2R;
  f_cast := fun d => d;
  f_sqrt := sqrt;
  f_cos := cos;
  f_sin := sin;
  f_asin := asin;
  f_atan2 := Ratan2;
  f_radians := fun d => (d * (PI / 180))%R;
  f_degrees := fun r => (r * (180 / PI))%R
}.

(** ** Matrices as the calls that build them *)

(** glm::mat4 values are only passed on to the shader manager, so a
    matrix is represented by the call that produced it. *)
Inductive mat4 (F : Type) : Type :=
| glm_lookAt (eye center up : vec3 F)
| glm_perspective (fovy aspect zNear zFar : F)
| glm_ortho (left right bottom top zNear zFar : F)
| Camera_GetViewMatrix (c : Camera F).
Arguments glm_lookAt {F} _ _ _.
Arguments glm_perspective {F} _ _ _ _.
Arguments glm_ortho {F} _ _ _ _ _ _.
Arguments Camera_GetViewMatrix {F} _.

#[export] Instance call_gfx (F : Type) : GfxOps F (mat4 F) := {
  lookAt := glm_lookAt;
  perspective := glm_perspective;
  ortho := glm_ortho;
  GetViewMatrix := Camera_GetViewMatrix
}.

(** ** A libm to run the program with

    Closed runs of the binary32 program need some [Libm].  This one
    evaluates truncated Maclaurin series in binary32 arithmetic; it is
    adequate for angles within half a turn and for [asinf] away from
    the poles, which is all the runs below ask of it.  No theorem
    quantified over [Libm] depends on it. *)

Fixpoint horner (cs : list Q) (t : float) : float :=
  match cs with
  | [] => S754_zero false
  | c :: cs' =>
      SFadd prec32 emax32 (float_of_Q c) (SFmul prec32 emax32 t (horner cs' t))
  end.

Definition series_sin (x : float) : float :=
  SFmul prec32 emax32 x
    (horner [1; -1#6; 1#120; -1#5040; 1#362880; -1#39916800; 1#6227020800;
             -1#1307674368000; 1#355687428096000; -1#121645100408832000]%Q
       (SFmul prec32 emax32 x x)).

Definition series_cos (x : float) : float :=
  horner [1; -1#2; 1#24; -1#720; 1#40320; -1#3628800; 1#479001600;
          -1#87178291200; 1#20922789888000; -1#6402373705728000;
          1#2432902008176640000]%Q
    (SFmul prec32 emax32 x x).

Definition series_asin (y : float) : float :=
  SFmul prec32 emax32 y
    (horner [1; 1#6; 3#40; 5#112; 35#1152; 63#2816; 231#13312; 143#10240]%Q
       (SFmul prec32 emax32 y y)).

Definition half_pi : float := float_of_Q 1.5707963267948966.

(** On the axis [x = 0] the result is exactly [+-pi/2] (C, Annex F);
    elsewhere the arctangent is taken as
    [asin (t / sqrt (1 + t * t))] with [t = y / x], moved to the
    quadrant of [(x, y)]. *)
Definition series_atan2 (y x : float) : float :=
  match x with
  | S754_zero _ =>
      if SFltb y (S754_zero false) then SFopp half_pi
      else if SFltb (S754_zero false) y then half_pi
      else y
  | _ =>
      let t := SFdiv prec32 emax32 y x in
      let a := series_asin
                 (SFdiv prec32 emax32 t
                    (SFsqrt prec32 emax32
                       (SFadd prec32 emax32 (float_of_Q 1) (SFmul prec32 emax32 t t)))) in
      if SFltb x (S754_zero false) then
        if SFltb y (S754_zero false)
        then SFsub prec32 emax32 a (SFadd prec32 emax32 half_pi half_pi)
        else SFadd prec32 emax32 a (SFadd prec32 emax32 half_pi half_pi)
      else a
  end.

Definition series_libm : Libm :=
  mkLibm series_cos series_sin series_asin series_atan2.

(** ** Notions the properties are stated with *)

Section Notions.
Context {F D M : Type} {FO : FloatOps F D} {GO : GfxOps F M}.

Definition set_m_pShaderManager (p : ptr) (s : State F) : State F :=
  mkState p (windowShouldClose s) (g_pCamera s)
    (gLastX s) (gLastY s) (gFirstMouse s) (gDeltaTime s) (gLastFrame s)
    (bOrthographicProjection s) (gSpeedScale s) (gYaw s) (gPitch s)
    (gToggleKeyDown_O s) (gToggleKeyDown_P s).

(** The mode is Orthographic after every event of the run. *)
Fixpoint stays_orthographic (es : list (Event D)) (s : State F) : bool :=
  match es with
  | [] => true
  | e :: es' =>
      bOrthographicProjection (step (GO := GO) s e)
      && stays_orthographic es' (step (GO := GO) s e)
  end.

(** The mode observed after each poll of a sequence. *)
Fixpoint modes_after (ks : list Keys) (s : State F) : list bool :=
  match ks with
  | [] => []
  | k :: ks' =>
      bOrthographicProjection (ProcessKeyboardEvents k s)
      :: modes_after ks' (ProcessKeyboardEvents k s)
  end.

(** How many times the mode differs from the one before it, starting
    from mode [m]. *)
Fixpoint mode_changes (m : bool) (ms : list bool) : nat :=
  match ms with
  | [] => 0
  | m' :: ms' => (if Bool.eqb m m' then 0 else 1) + mode_changes m' ms'
  end.

(** How many times the mode becomes [target] coming from the other
    mode, starting from mode [m]. *)
Fixpoint entries_into (target m : bool) (ms : list bool) : nat :=
  match ms with
  | [] => 0
  | m' :: ms' =>
      (if negb (Bool.eqb m target) && Bool.eqb m' target then 1 else 0)
      + entries_into target m' ms'
  end.

(** One keyboard poll of a frame whose elapsed time is [dt]. *)
Definition poll_frame (dt : F) (k : Keys) (s : State F) : State F :=
  ProcessKeyboardEvents k (set_gDeltaTime dt s).

Fixpoint poll_frames (n : nat) (dt : F) (k : Keys) (s : State F) : State F :=
  match n with
  | O => s
  | S n' => poll_frames n' dt k (poll_frame dt k s)
  end.

End Notions.

(** None of the six movement keys is pressed. *)
Definition movement_keys_released (k : Keys) : bool :=
  negb (KEY_W k || KEY_S k || KEY_A k || KEY_D k || KEY_Q k || KEY_E k).

(** The vertical coordinate of a cursor sample is a finite float. *)
Definition cursor_y_finite (e : Event double) : bool :=
  match e with
  | CursorPos _ y => is_finite (float_of_double y)
  | _ => true
  end.

(** The offset of a scroll sample is a number. *)
Definition scroll_not_nan (e : Event double) : bool :=
  match e with
  | Scroll _ yo => negb (is_nan (float_of_double yo))
  | _ => true
  end.

(** Some doubles and key sets to run the program on. *)
Definition d_of_Q : Q -> double := double_of_Q.
Definition two_pow_128 : double := S754_finite false 4503599627370496 76.
Definition no_keys : Keys :=
  mkKeys false false false false false false false false false.
Definition key_O : Keys :=
  mkKeys false true false false false false false false false.
Definition key_P : Keys :=
  mkKeys false false true false false false false false false.
Definition key_W : Keys :=
  mkKeys false false false true false false false false false.
Definition keys_O_W : Keys :=
  mkKeys false true false true false false false false false.

(** The binary32 program started by the constructor, with
    [series_libm]. *)
Definition started (p : ptr) : State float :=
  ViewManager_new (FO := binary32_ops (lm := series_libm)) p.

(** The exact program started by the constructor. *)
Definition started_exact (p : ptr) : State R :=
  ViewManager_new (FO := exact_ops) p.

(** The bounds of the two clamps. *)
Definition pitch_lo : float := SFopp (float_of_Q 89.0).
Definition pitch_hi : float := float_of_Q 89.0.
Definition speed_lo : float := float_of_Q 0.10.
Definition speed_hi : float := float_of_Q 5.00.

(** ** Proof automation *)

Ltac break_if :=
  match goal with
  | |- context [if ?b then _ else _] => destruct b
  end.

(* the innermost conditions first, so that equal tests get equal values *)
Ltac break_inner_if :=
  match goal with
  | |- context [if ?b then _ else _] =>
      lazymatch b with
      | context [if _ then _ else _] => fail
      | _ => destruct b; simpl
      end
  end.

Ltac frame_tac := cbv zeta; repeat break_if; reflexivity.


(** ** Edge-triggered mode keys *)

(** The modes after a sequence of polls as the specification words
    them: a mode key acts in a poll when it is pressed and was not
    pressed at the poll before ([o_down], [p_down]: whether the poll
    before saw the key pressed); of two keys newly pressed in one poll
    the enter-perspective key decides. *)
Fixpoint edge_modes (mode o_down p_down : bool) (ks : list Keys) : list bool :=
  match ks with
  | [] => []
  | k :: ks' =>
      let mode' :=
        if KEY_P k && negb p_down then false
        else if KEY_O k && negb o_down then true
        else mode in
      mode' :: edge_modes mode' (KEY_O k) (KEY_P k) ks'
  end.

Definition keys_O_P : Keys :=
  mkKeys false true true false false false false false false.

(** ** Kinds of events *)

Definition is_frame (D : Type) (e : Event D) : bool :=
  match e with Frame _ _ => true | _ => false end.

Definition is_cursor (D : Type) (e : Event D) : bool :=
  match e with CursorPos _ _ => true | _ => false end.

Definition is_scroll (D : Type) (e : Event D) : bool :=
  match e with Scroll _ _ => true | _ => false end.

(** A frame whose keyboard poll sees the escape key pressed. *)
Definition escape_pressed (D : Type) (e : Event D) : bool :=
  match e with Frame _ k => KEY_ESCAPE k | _ => false end.

(** * The scene manager (SceneManager.cpp)

    The texture table, the look-ups by tag and the calls the scene
    manager makes on OpenGL, stb_image, the shader manager and the
    mesh helper.  What the libraries answer (the image stb_image
    decodes, the name glGenTextures hands out) is an argument of the
    function that asks; what the scene manager tells them is the list
    of calls the function returns. *)

Module Scene.

Local Open Scope Z_scope.

(** std::to_string of an int. *)
Definition to_string (i : Z) : string := NilZero.string_of_int (Z.to_int i).

(** A uint32_t returned as an int. *)
Definition int_of_uint32 (u : Z) : Z :=
  if u <? 2147483648 then u else u - 4294967296.

Inductive GLenum : Type :=
| GL_TEXTURE_WRAP_S | GL_TEXTURE_WRAP_T
| GL_TEXTURE_MIN_FILTER | GL_TEXTURE_MAG_FILTER
| GL_REPEAT | GL_LINEAR_MIPMAP_LINEAR | GL_LINEAR
| GL_RGB8 | GL_RGB | GL_RGBA8 | GL_RGBA.

Inductive Mesh : Type := Plane | Cylinder | Torus | Box | Sphere.

(** The first texture unit, as glcorearb.h defines it. *)
Definition GL_TEXTURE0 : Z := 33984.

(** The calls of the texture functions and of PrepareScene; the
    target of every texture call is GL_TEXTURE_2D. *)
Inductive GLCall : Type :=
| cout (line : string)
| stbi_set_flip_vertically_on_load (flag : bool)
| stbi_load (filename : string)
| stbi_image_free
| glGenTextures (textureID : Z)
| glBindTexture (texture : Z)
| glTexParameteri (pname param : GLenum)
| glTexImage2D (internalformat : GLenum) (width height : Z) (format : GLenum)
| glGenerateMipmap
| glDeleteTextures (texture : Z)
| glActiveTexture (unit : Z)
| LoadMesh (m : Mesh).

(** What stbi_load reports about a decoded image. *)
Record Image : Type := mkImage { width : Z; height : Z; channels : Z }.

Record TEXTURE_INFO : Type := mkTEXTURE_INFO { tag : string; ID : Z }.

Record vec2 (F : Type) : Type := mkvec2 { v2x : F; v2y : F }.
Record vec4 (F : Type) : Type := mkvec4 { v4x : F; v4y : F; v4z : F; v4w : F }.
Arguments mkvec2 {F} _ _.
Arguments mkvec4 {F} _ _ _ _.

(** The member [tag] of OBJECT_MATERIAL is [material_tag] here. *)
Record OBJECT_MATERIAL (F : Type) : Type := mkOBJECT_MATERIAL {
  ambientStrength : F;
  ambientColor : vec3 F;
  diffuseColor : vec3 F;
  specularColor : vec3 F;
  shininess : F;
  material_tag : string
}.
Arguments ambientStrength {F} _.
Arguments ambientColor {F} _.
Arguments diffuseColor {F} _.
Arguments specularColor {F} _.
Arguments shininess {F} _.
Arguments material_tag {F} _.

(** The members of SceneManager; [m_textureIDs] is the array of 16
    entries. *)
Record SceneManager (F : Type) : Type := mkSceneManager {
  m_pShaderManager : ptr;
  m_loadedTextures : Z;
  m_textureIDs : list TEXTURE_INFO;
  m_objectMaterials : list (OBJECT_MATERIAL F)
}.
Arguments mkSceneManager {F} _ _ _ _.
Arguments m_pShaderManager {F} _.
Arguments m_loadedTextures {F} _.
Arguments m_textureIDs {F} _.
Arguments m_objectMaterials {F} _.

(** The calls on the shader manager and on the mesh helper. *)
Inductive ShaderCall (F M : Type) : Type :=
| std_cout (line : string)
| setIntValue (name : string) (value : Z)
| setFloatValue (name : string) (value : F)
| setVec2Value (name : string) (value : vec2 F)
| setVec3Value (name : string) (value : vec3 F)
| setVec4Value (name : string) (value : vec4 F)
| setMat4Value (name : string) (value : M)
| setSampler2DValue (name : string) (slot : Z)
| Draw (m : Mesh).
Arguments std_cout {F M} _.
Arguments setIntValue {F M} _ _.
Arguments setFloatValue {F M} _ _.
Arguments setVec2Value {F M} _ _.
Arguments setVec3Value {F M} _ _.
Arguments setVec4Value {F M} _ _.
Arguments setMat4Value {F M} _ _.
Arguments setSampler2DValue {F M} _ _.
Arguments Draw {F M} _.

(** glm::scale, glm::rotate, glm::translate and the product of two
    glm::mat4. *)
Class TransformOps (F M : Type) : Type := {
  scale : vec3 F -> M;
  rotate : F -> vec3 F -> M;
  translate : vec3 F -> M;
  mat_mul : M -> M -> M
}.

(** Reading and writing [a[i]].  Inside the array they are the C++
    ones; outside, where C++ leaves the behaviour undefined, a read
    gives an empty entry and a write does nothing. *)
Definition entry (a : list TEXTURE_INFO) (i : Z) : TEXTURE_INFO :=
  nth (Z.to_nat i) a (mkTEXTURE_INFO EmptyString 0).

Fixpoint store_nat (i : nat) (x : TEXTURE_INFO) (a : list TEXTURE_INFO)
  : list TEXTURE_INFO :=
  match a, i with
  | [], _ => []
  | _ :: t, O => x :: t
  | h :: t, S i' => h :: store_nat i' x t
  end.

Definition store (a : list TEXTURE_INFO) (i : Z) (x : TEXTURE_INFO)
  : list TEXTURE_INFO :=
  if i <? 0 then a else store_nat (Z.to_nat i) x a.

Section Textures.
Context {F : Type}.

Definition set_textures (n : Z) (a : list TEXTURE_INFO) (s : SceneManager F)
  : SceneManager F :=
  mkSceneManager (m_pShaderManager s) n a (m_objectMaterials s).

(** SceneManager::SceneManager (lines 78-83); [slots] is what the 16
    entries of the array hold before anything is stored in them. *)
Definition SceneManager_new (pShaderManager : ptr) (slots : list TEXTURE_INFO)
  : SceneManager F :=
  mkSceneManager pShaderManager 0 slots [].

(** SceneManager::CreateGLTexture (lines 107-165).  [image] is what
    stbi_load returns ([None] for a null pointer) and [textureID] the
    name glGenTextures writes. *)
Definition CreateGLTexture (filename tag : string)
  (image : option Image) (textureID : Z) (s : SceneManager F)
  : bool * SceneManager F * list GLCall :=
  if m_loadedTextures s >=? 16 then
    (false, s,
     [cout ("Texture limit reached (16). Could not load: " ++ filename)])
  else
    match image with
    | None =>
        (false, s,
         [stbi_set_flip_vertically_on_load true; stbi_load filename;
          cout ("Could not load image: " ++ filename)])
    | Some img =>
        let setup :=
          [stbi_set_flip_vertically_on_load true; stbi_load filename;
           glGenTextures textureID; glBindTexture textureID;
           glTexParameteri GL_TEXTURE_WRAP_S GL_REPEAT;
           glTexParameteri GL_TEXTURE_WRAP_T GL_REPEAT;
           glTexParameteri GL_TEXTURE_MIN_FILTER GL_LINEAR_MIPMAP_LINEAR;
           glTexParameteri GL_TEXTURE_MAG_FILTER GL_LINEAR] in
        let finish :=
          [glGenerateMipmap; stbi_image_free; glBindTexture 0] in
        let stored :=
          set_textures (m_loadedTextures s + 1)
            (store (m_textureIDs s) (m_loadedTextures s)
               (mkTEXTURE_INFO tag textureID)) s in
        if channels img =? 3 then
          (true, stored,
           setup ++ [glTexImage2D GL_RGB8 (width img) (height img) GL_RGB]
                 ++ finish)
        else if channels img =? 4 then
          (true, stored,
           setup ++ [glTexImage2D GL_RGBA8 (width img) (height img) GL_RGBA]
                 ++ finish)
        else
          (false, s,
           setup ++ [cout ("Unsupported channel count ("
                           ++ to_string (channels img) ++ ") for: " ++ filename);
                     stbi_image_free; glBindTexture 0;
                     glDeleteTextures textureID])
    end.

(** SceneManager::BindGLTextures (lines 173-180): the loop from [i],
    with [n] rounds left. *)
Fixpoint BindGLTextures_loop (n : nat) (i : Z) (a : list TEXTURE_INFO)
  : list GLCall :=
  match n with
  | O => []
  | S n' =>
      glActiveTexture (GL_TEXTURE0 + i) :: glBindTexture (ID (entry a i))
      :: BindGLTextures_loop n' (i + 1) a
  end.

Definition BindGLTextures (s : SceneManager F) : list GLCall :=
  BindGLTextures_loop (Z.to_nat (m_loadedTextures s)) 0 (m_textureIDs s).

(** SceneManager::DestroyGLTextures (lines 187-199). *)
Fixpoint DestroyGLTextures_loop (n : nat) (i : Z) (a : list TEXTURE_INFO)
  : list TEXTURE_INFO * list GLCall :=
  match n with
  | O => (a, [])
  | S n' =>
      let id := ID (entry a i) in
      if negb (id =? 0) then
        let '(a', calls) :=
          DestroyGLTextures_loop n' (i + 1)
            (store a i (mkTEXTURE_INFO (tag (entry a i)) 0)) in
        (a', glDeleteTextures id :: calls)
      else DestroyGLTextures_loop n' (i + 1) a
  end.

Definition DestroyGLTextures (s : SceneManager F)
  : SceneManager F * list GLCall :=
  let '(a, calls) :=
    DestroyGLTextures_loop (Z.to_nat (m_loadedTextures s)) 0 (m_textureIDs s) in
  (set_textures 0 a s, calls).

(** SceneManager::FindTextureID (lines 204-214). *)
Fixpoint FindTextureID_loop (n : nat) (i : Z) (a : list TEXTURE_INFO)
  (tag0 : string) : Z :=
  match n with
  | O => -1
  | S n' =>
      if String.eqb (tag (entry a i)) tag0 then int_of_uint32 (ID (entry a i))
      else FindTextureID_loop n' (i + 1) a tag0
  end.

Definition FindTextureID (s : SceneManager F) (tag0 : string) : Z :=
  FindTextureID_loop (Z.to_nat (m_loadedTextures s)) 0 (m_textureIDs s) tag0.

(** SceneManager::FindTextureSlot (lines 221-231). *)
Fixpoint FindTextureSlot_loop (n : nat) (i : Z) (a : list TEXTURE_INFO)
  (tag0 : string) : Z :=
  match n with
  | O => -1
  | S n' =>
      if String.eqb (tag (entry a i)) tag0 then i
      else FindTextureSlot_loop n' (i + 1) a tag0
  end.

Definition FindTextureSlot (s : SceneManager F) (tag0 : string) : Z :=
  FindTextureSlot_loop (Z.to_nat (m_loadedTextures s)) 0 (m_textureIDs s) tag0.

(** SceneManager::FindMaterial (lines 236-247): the result and the
    value of the reference argument afterwards. *)
Fixpoint FindMaterial_loop (ms : list (OBJECT_MATERIAL F)) (tag0 : string)
  (material : OBJECT_MATERIAL F) : bool * OBJECT_MATERIAL F :=
  match ms with
  | [] => (false, material)
  | m :: ms' =>
      if String.eqb (material_tag m) tag0 then (true, m)
      else FindMaterial_loop ms' tag0 material
  end.

Definition FindMaterial (s : SceneManager F) (tag0 : string)
  (material : OBJECT_MATERIAL F) : bool * OBJECT_MATERIAL F :=
  FindMaterial_loop (m_objectMaterials s) tag0 material.

(** SceneManager::PrepareScene (lines 492-510); [env k] is what
    stb_image and OpenGL answer to the [k]-th texture. *)
Definition load_texture (filename tag0 : string) (answer : option Image * Z)
  (acc : SceneManager F * list GLCall) : SceneManager F * list GLCall :=
  let '(r, s', calls) :=
    CreateGLTexture filename tag0 (fst answer) (snd answer) (fst acc) in
  (s', snd acc ++ calls).

Definition PrepareScene (env : nat -> option Image * Z) (s : SceneManager F)
  : SceneManager F * list GLCall :=
  let acc := (s, [LoadMesh Plane; LoadMesh Cylinder; LoadMesh Torus;
                  LoadMesh Box; LoadMesh Sphere]) in
  let acc := load_texture "Textures/wood.jpg" "wood" (env 0%nat) acc in
  let acc := load_texture "Textures/stainedglass.jpg" "stainedglass" (env 1%nat) acc in
  let acc := load_texture "Textures/rubber.jpg" "rubber" (env 2%nat) acc in
  let acc := load_texture "Textures/stainless.jpg" "stainless" (env 3%nat) acc in
  let acc := load_texture "Textures/stainless_end.jpg" "stainless_end" (env 4%nat) acc in
  let acc := load_texture "Textures/rusticwood.jpg" "rusticwood" (env 5%nat) acc in
  let acc := load_texture "Textures/gold-seamless-texture.jpg" "gold" (env 6%nat) acc in
  let acc := load_texture "Textures/backdrop.jpg" "backdrop" (env 7%nat) acc in
  (fst acc, snd acc ++ BindGLTextures (fst acc)).

End Textures.

Section Rendering.
Context {F D M : Type} {FO : FloatOps F D} {TO : TransformOps F M}.
Local Open Scope F_scope.

Definition kUniformModel : string := "model".
Definition kUniformObjectColor : string := "objectColor".
Definition kUniformTexture : string := "objectTexture".
Definition kUniformUseTexture : string := "bUseTexture".
Definition kUniformUseLighting : string := "bUseLighting".
Definition kTotalLights : Z := 4.

Record LightSourceCPU : Type := mkLightSourceCPU {
  position : vec3 F;
  light_ambientColor : vec3 F;
  light_diffuseColor : vec3 F;
  light_specularColor : vec3 F;
  focalStrength : F;
  specularIntensity : F
}.

(** LightUniform (lines 60-63). *)
Definition LightUniform (index : Z) (field : string) : string :=
  ((("lightSources[" ++ to_string index) ++ "].") ++ field)%string.

(** AmbientPerLight (lines 66-69). *)
Definition AmbientPerLight (intendedAmbientStrength : F) : F :=
  intendedAmbientStrength / f_lit 4.

(** glm::vec3 (x) and glm::vec4 (x) with one argument. *)
Definition vec3_all (x : F) : vec3 F := mkvec3 x x x.
Definition vec4_all (x : F) : vec4 F := mkvec4 x x x x.

(** SceneManager::SetTransformations (lines 254-273). *)
Definition SetTransformations (s : SceneManager F) (scaleXYZ : vec3 F)
  (XrotationDegrees YrotationDegrees ZrotationDegrees : F)
  (positionXYZ : vec3 F) : list (ShaderCall F M) :=
  let scale := scale scaleXYZ in
  let rotationX := rotate (f_radians XrotationDegrees)
                     (mkvec3 (f_lit 1.0) (f_lit 0.0) (f_lit 0.0)) in
  let rotationY := rotate (f_radians YrotationDegrees)
                     (mkvec3 (f_lit 0.0) (f_lit 1.0) (f_lit 0.0)) in
  let rotationZ := rotate (f_radians ZrotationDegrees)
                     (mkvec3 (f_lit 0.0) (f_lit 0.0) (f_lit 1.0)) in
  let translation := translate positionXYZ in
  let model :=
    mat_mul (mat_mul (mat_mul (mat_mul translation rotationX) rotationY)
               rotationZ) scale in
  if negb (is_null (m_pShaderManager s))
  then [setMat4Value kUniformModel model]
  else [].

(** SceneManager::SetShaderColor (lines 280-287). *)
Definition SetShaderColor (s : SceneManager F) (r g b a : F)
  : list (ShaderCall F M) :=
  if negb (is_null (m_pShaderManager s))
  then [setIntValue kUniformUseTexture 0;
        setVec4Value kUniformObjectColor (mkvec4 r g b a)]
  else [].

(** SceneManager::SetShaderTexture (lines 295-312). *)
Definition SetShaderTexture (s : SceneManager F) (textureTag : string)
  : list (ShaderCall F M) :=
  if is_null (m_pShaderManager s) then []
  else
    let slot := FindTextureSlot s textureTag in
    if (slot <? 0)%Z then
      [std_cout ("Texture tag not found: " ++ textureTag)%string;
       setIntValue kUniformUseTexture 0;
       setVec4Value kUniformObjectColor
         (mkvec4 (f_lit 0.6) (f_lit 0.6) (f_lit 0.6) (f_lit 1.0))]
    else
      [setIntValue kUniformUseTexture 1;
       setVec4Value kUniformObjectColor (vec4_all (f_lit 1.0));
       setSampler2DValue kUniformTexture slot].

(** SceneManager::SetTextureUVScale (lines 319-325). *)
Definition SetTextureUVScale (s : SceneManager F) (u v : F)
  : list (ShaderCall F M) :=
  if negb (is_null (m_pShaderManager s))
  then [setVec2Value "UVscale" (mkvec2 u v)]
  else [].

(** [OBJECT_MATERIAL mat{}]: every member zero or empty. *)
Definition empty_material : OBJECT_MATERIAL F :=
  mkOBJECT_MATERIAL (f_lit 0) (vec3_all (f_lit 0)) (vec3_all (f_lit 0))
    (vec3_all (f_lit 0)) (f_lit 0) EmptyString.

(** SceneManager::SetShaderMaterial (lines 330-347). *)
Definition SetShaderMaterial (s : SceneManager F) (materialTag : string)
  : list (ShaderCall F M) :=
  if is_null (m_pShaderManager s) then []
  else
    let '(found, mat) := FindMaterial s materialTag empty_material in
    if negb found then
      [std_cout ("Material tag not found: " ++ materialTag)%string]
    else
      [setFloatValue "material.ambientStrength" (ambientStrength mat);
       setVec3Value "material.ambientColor" (ambientColor mat);
       setVec3Value "material.diffuseColor" (diffuseColor mat);
       setVec3Value "material.specularColor" (specularColor mat);
       setFloatValue "material.shininess" (shininess mat)].

(** The array [lights] of SetSceneLights (lines 364-405). *)
Definition lights : list LightSourceCPU :=
  [ mkLightSourceCPU
      (mkvec3 (f_lit 0.0) (f_lit 7.0) (- f_lit 12.0))
      (mkvec3 (f_lit 0.008) (f_lit 0.008) (f_lit 0.008))
      (mkvec3 (f_lit 0.120) (f_lit 0.120) (f_lit 0.120))
      (mkvec3 (f_lit 0.070) (f_lit 0.070) (f_lit 0.070))
      (f_lit 28.0) (f_lit 0.60);
    mkLightSourceCPU
      (mkvec3 (f_lit 0.0) (f_lit 4.0) (f_lit 9.0))
      (mkvec3 (f_lit 0.004) (f_lit 0.000) (f_lit 0.000))
      (mkvec3 (f_lit 0.420) (f_lit 0.010) (f_lit 0.010))
      (mkvec3 (f_lit 0.120) (f_lit 0.010) (f_lit 0.010))
      (f_lit 20.0) (f_lit 0.85);
    mkLightSourceCPU
      (mkvec3 (f_lit 0.0) (f_lit 0.0) (f_lit 0.0))
      (vec3_all (f_lit 0.0)) (vec3_all (f_lit 0.0)) (vec3_all (f_lit 0.0))
      (f_lit 1.0) (f_lit 0.0);
    mkLightSourceCPU
      (mkvec3 (f_lit 0.0) (f_lit 0.0) (f_lit 0.0))
      (vec3_all (f_lit 0.0)) (vec3_all (f_lit 0.0)) (vec3_all (f_lit 0.0))
      (f_lit 1.0) (f_lit 0.0) ].

(** The loop of SetSceneLights (lines 407-415), from index [i]. *)
Fixpoint SetSceneLights_loop (i : Z) (ls : list LightSourceCPU)
  : list (ShaderCall F M) :=
  match ls with
  | [] => []
  | l :: ls' =>
      setVec3Value (LightUniform i "position") (position l)
      :: setVec3Value (LightUniform i "ambientColor") (light_ambientColor l)
      :: setVec3Value (LightUniform i "diffuseColor") (light_diffuseColor l)
      :: setVec3Value (LightUniform i "specularColor") (light_specularColor l)
      :: setFloatValue (LightUniform i "focalStrength") (focalStrength l)
      :: setFloatValue (LightUniform i "specularIntensity") (specularIntensity l)
      :: SetSceneLights_loop (i + 1)%Z ls'
  end.

(** SceneManager::SetSceneLights (lines 359-416). *)
Definition SetSceneLights (s : SceneManager F) : list (ShaderCall F M) :=
  if is_null (m_pShaderManager s) then []
  else SetSceneLights_loop 0 lights.

(** The five material presets (lines 428-481) upload the same five
    uniforms. *)
Definition material_preset (s : SceneManager F)
  (ambient diffuse specular shine : F) : list (ShaderCall F M) :=
  if is_null (m_pShaderManager s) then []
  else
    [setVec3Value "material.ambientColor" (vec3_all (f_lit 1.0));
     setFloatValue "material.ambientStrength" (AmbientPerLight ambient);
     setVec3Value "material.diffuseColor" (vec3_all diffuse);
     setVec3Value "material.specularColor" (vec3_all specular);
     setFloatValue "material.shininess" shine].

Definition ApplystainedglassMaterial (s : SceneManager F) :=
  material_preset s (f_lit 0.12) (f_lit 0.80) (f_lit 0.10) (f_lit 18.0).
Definition ApplyRubberMaterial (s : SceneManager F) :=
  material_preset s (f_lit 0.28) (f_lit 1.0) (f_lit 0.05) (f_lit 10.0).
Definition ApplyWoodMaterial (s : SceneManager F) :=
  material_preset s (f_lit 0.22) (f_lit 1.0) (f_lit 0.10) (f_lit 18.0).
Definition ApplyMetalMaterial (s : SceneManager F) :=
  material_preset s (f_lit 0.10) (f_lit 0.95) (f_lit 0.28) (f_lit 38.0).
Definition ApplyBrickMaterial (s : SceneManager F) :=
  material_preset s (f_lit 0.20) (f_lit 0.95) (f_lit 0.08) (f_lit 12.0).

(** SceneManager::BuildMug (lines 519-573). *)
Definition BuildMug (s : SceneManager F) (positionXYZ : vec3 F)
  : list (ShaderCall F M) :=
  let bodyHeight := f_lit 1.30 in
  let bodyRadius := f_lit 0.50 in
  let baseHeight := f_lit 0.06 in
  let baseRadius := f_lit 0.54 in
  let handleScale := mkvec3 (f_lit 0.34) (f_lit 0.34) (f_lit 0.14) in
  let handleOffset := mkvec3 (bodyRadius + f_lit 0.30) (f_lit 0.50) (f_lit 0.0) in
  let baseHalf := baseHeight * f_lit 0.5 in
  let bodyHalf := bodyHeight * f_lit 0.5 in
  let overlap := f_lit 0.03 in
  let bodyDrop := f_lit 0.6 in
  let baseCenterY := baseHalf in
  let bodyCenterY := baseCenterY + baseHalf + bodyHalf - overlap in
  let bodyPos :=
    v_add positionXYZ (mkvec3 (f_lit 0.0) (bodyCenterY - bodyDrop) (f_lit 0.0)) in
  (SetShaderTexture s "rubber"
   ++ SetTextureUVScale s (f_lit 2.0) (f_lit 2.0)
   ++ ApplyRubberMaterial s
   ++ SetTransformations s (mkvec3 baseRadius baseHeight baseRadius)
        (f_lit 0.0) (f_lit 0.0) (f_lit 0.0)
        (v_add positionXYZ (mkvec3 (f_lit 0.0) baseCenterY (f_lit 0.0)))
   ++ [Draw Cylinder]
   ++ SetShaderTexture s "stainedglass"
   ++ SetTextureUVScale s (f_lit 0.8) (f_lit 0.8)
   ++ ApplystainedglassMaterial s
   ++ SetTransformations s (mkvec3 bodyRadius bodyHeight bodyRadius)
        (f_lit 0.0) (f_lit 0.0) (f_lit 0.0) bodyPos
   ++ [Draw Cylinder]
   ++ SetShaderTexture s "rubber"
   ++ SetTextureUVScale s (f_lit 1.4) (f_lit 1.4)
   ++ ApplyRubberMaterial s
   ++ SetTransformations s handleScale
        (f_lit 0.0) (f_lit 0.0) (f_lit 90.0) (v_add bodyPos handleOffset)
   ++ [Draw Torus])%list.

(** SceneManager::BuildCan (lines 578-613). *)
Definition BuildCan (s : SceneManager F) (positionXYZ : vec3 F)
  : list (ShaderCall F M) :=
  let bodyRadius := f_lit 0.45 in
  let bodyHeight := f_lit 1.20 in
  let topRadius := f_lit 0.46 in
  let topHeight := f_lit 0.05 in
  let overlap := f_lit 0.01 in
  let bodyHalf := bodyHeight * f_lit 0.5 in
  let topHalf := topHeight * f_lit 0.5 in
  let bodyCenterY := bodyHalf in
  let topCenterY := bodyHeight + topHalf - overlap in
  (SetShaderTexture s "gold"
   ++ SetTextureUVScale s (f_lit 1.0) (f_lit 1.0)
   ++ ApplyMetalMaterial s
   ++ SetTransformations s (mkvec3 bodyRadius bodyHeight bodyRadius)
        (f_lit 0.0) (f_lit 0.0) (f_lit 0.0)
        (v_add positionXYZ (mkvec3 (f_lit 0.0) bodyCenterY (f_lit 0.0)))
   ++ [Draw Cylinder]
   ++ SetShaderTexture s "stainless_end"
   ++ SetTextureUVScale s (f_lit 1.0) (f_lit 1.0)
   ++ ApplyMetalMaterial s
   ++ SetTransformations s (mkvec3 topRadius topHeight topRadius)
        (f_lit 0.0) (f_lit 0.0) (f_lit 0.0)
        (v_add positionXYZ (mkvec3 (f_lit 0.0) topCenterY (f_lit 0.0)))
   ++ [Draw Cylinder])%list.

(** SceneManager::BuildCoaster (lines 618-629). *)
Definition BuildCoaster (s : SceneManager F) (positionXYZ : vec3 F)
  : list (ShaderCall F M) :=
  (SetShaderTexture s "gold"
   ++ SetTextureUVScale s (f_lit 1.0) (f_lit 1.0)
   ++ ApplyMetalMaterial s
   ++ SetTransformations s (mkvec3 (f_lit 0.90) (f_lit 0.05) (f_lit 0.90))
        (f_lit 0.0) (f_lit 0.0) (f_lit 0.0)
        (v_add positionXYZ (mkvec3 (f_lit 0.0) (f_lit 0.025) (f_lit 0.0)))
   ++ [Draw Cylinder])%list.

(** SceneManager::BuildWoodBlock (lines 634-645). *)
Definition BuildWoodBlock (s : SceneManager F) (positionXYZ : vec3 F)
  : list (ShaderCall F M) :=
  (SetShaderTexture s "rusticwood"
   ++ SetTextureUVScale s (f_lit 1.0) (f_lit 1.0)
   ++ ApplyBrickMaterial s
   ++ SetTransformations s (mkvec3 (f_lit 1.2) (f_lit 0.35) (f_lit 0.7))
        (f_lit 0.0) (f_lit 25.0) (f_lit 0.0)
        (v_add positionXYZ (mkvec3 (f_lit 0.0) (f_lit 0.175) (f_lit 0.0)))
   ++ [Draw Box])%list.

(** SceneManager::BuildBackdrop (lines 650-661). *)
Definition BuildBackdrop (s : SceneManager F) (positionXYZ : vec3 F)
  : list (ShaderCall F M) :=
  (SetShaderTexture s "backdrop"
   ++ SetTextureUVScale s (f_lit 2.0) (f_lit 2.0)
   ++ ApplyWoodMaterial s
   ++ SetTransformations s (mkvec3 (f_lit 60.0) (f_lit 1.0) (f_lit 16.0))
        (f_lit 90.0) (f_lit 0.0) (f_lit 0.0) positionXYZ
   ++ [Draw Plane])%list.

(** SceneManager::RenderScene (lines 670-706). *)
Definition RenderScene (s : SceneManager F) : list (ShaderCall F M) :=
  ((if negb (is_null (m_pShaderManager s))
    then setIntValue kUniformUseLighting 1 :: SetSceneLights s
    else [])
   ++ SetTransformations s (mkvec3 (f_lit 60.0) (f_lit 1.0) (f_lit 60.0))
        (f_lit 0.0) (f_lit 0.0) (f_lit 0.0)
        (mkvec3 (f_lit 0.0) (f_lit 0.0) (- f_lit 15.0))
   ++ SetShaderTexture s "wood"
   ++ SetTextureUVScale s (f_lit 10.0) (f_lit 10.0)
   ++ ApplyWoodMaterial s
   ++ [Draw Plane]
   ++ BuildBackdrop s (mkvec3 (f_lit 0.0) (f_lit 10.0) (- f_lit 25.0))
   ++ BuildCoaster s (mkvec3 (- f_lit 2.0) (f_lit 0.0) (- f_lit 1.0))
   ++ BuildMug s (mkvec3 (- f_lit 2.0) (f_lit 0.0) (- f_lit 1.0))
   ++ BuildCan s (mkvec3 (f_lit 2.0) (- f_lit 0.55) (- f_lit 1.0))
   ++ BuildWoodBlock s (mkvec3 (f_lit 0.0) (f_lit 0.0) (f_lit 1.7))
   ++ SetShaderTexture s "stainless"
   ++ SetTextureUVScale s (f_lit 1.0) (f_lit 1.0)
   ++ ApplyMetalMaterial s
   ++ SetTransformations s (mkvec3 (f_lit 0.35) (f_lit 0.35) (f_lit 0.35))
        (f_lit 0.0) (f_lit 0.0) (f_lit 0.0)
        (mkvec3 (- f_lit 0.8) (f_lit 0.35) (f_lit 0.6))
   ++ [Draw Sphere])%list.

End Rendering.

(** Matrices of the scene manager as the glm calls that build them. *)
Inductive model_matrix (F : Type) : Type :=
| glm_scale (v : vec3 F)
| glm_rotate (angle : F) (axis : vec3 F)
| glm_translate (v : vec3 F)
| glm_mul (a b : model_matrix F).
Arguments glm_scale {F} _.
Arguments glm_rotate {F} _ _.
Arguments glm_translate {F} _.
Arguments glm_mul {F} _ _.

#[export] Instance call_transforms (F : Type) : TransformOps F (model_matrix F) := {
  scale := glm_scale;
  rotate := glm_rotate;
  translate := glm_translate;
  mat_mul := glm_mul
}.

(** *** Notions the properties of the scene manager are stated with *)

(** The texture operations that change the table, with what the
    libraries answer. *)
Inductive TextureOp : Type :=
| OpCreate (filename tag0 : string) (image : option Image) (textureID : Z)
| OpDestroy.

Section TextureNotions.
Context {F : Type}.

Definition apply_op (acc : SceneManager F * list GLCall) (op : TextureOp)
  : SceneManager F * list GLCall :=
  match op with
  | OpCreate filename tag0 image textureID =>
      let '(r, s', calls) := CreateGLTexture filename tag0 image textureID (fst acc) in
      (s', snd acc ++ calls)
  | OpDestroy =>
      let '(s', calls) := DestroyGLTextures (fst acc) in
      (s', snd acc ++ calls)
  end.

(** The state after a sequence of operations and all the calls made. *)
Definition run_ops (ops : list TextureOp) (s : SceneManager F)
  : SceneManager F * list GLCall :=
  fold_left apply_op ops (s, []).

(** An entry with its texture name cleared, as DestroyGLTextures
    leaves it. *)
Definition cleared (e : TEXTURE_INFO) : TEXTURE_INFO :=
  mkTEXTURE_INFO (tag e) 0.

(** The IDs of the loaded textures, in table order. *)
Definition loaded_ids (s : SceneManager F) : list Z :=
  map ID (firstn (Z.to_nat (m_loadedTextures s)) (m_textureIDs s)).

End TextureNotions.

(** A table of 16 entries nothing has been stored in. *)
Definition blank_table : list TEXTURE_INFO :=
  repeat (mkTEXTURE_INFO EmptyString 0) 16.

(** A run of loads and a destroy: a load that succeeds, one whose
    image cannot be decoded, one with an unsupported channel count,
    a second texture under a tag already loaded, a destroy and a load
    after it. *)
Definition sample_loads : list TextureOp :=
  [OpCreate "Textures/wood.jpg" "wood" (Some (mkImage 4 4 3)) 7;
   OpCreate "Textures/missing.jpg" "gold" None 8;
   OpCreate "Textures/grey.png" "grey" (Some (mkImage 4 4 1)) 9;
   OpCreate "Textures/wood2.png" "wood" (Some (mkImage 2 2 4)) 10;
   OpDestroy;
   OpCreate "Textures/rubber.jpg" "rubber" (Some (mkImage 8 8 3)) 11].

(** Libraries that decode every image with three channels and hand
    out the names 1, 2, 3, ... *)
Definition sample_env (k : nat) : option Image * Z :=
  (Some (mkImage 4 4 3), Z.of_nat k + 1).

(** The texture names a list of calls generates, and those it
    deletes. *)
Definition generated (calls : list GLCall) : list Z :=
  flat_map (fun c => match c with glGenTextures id => [id] | _ => [] end) calls.

Definition deleted (calls : list GLCall) : list Z :=
  flat_map (fun c => match c with glDeleteTextures id => [id] | _ => [] end) calls.

(** The calls that free a decoded image, and the textures bound to
    GL_TEXTURE_2D, in order. *)
Definition is_image_free (c : GLCall) : bool :=
  match c with stbi_image_free => true | _ => false end.

Definition bound_textures (calls : list GLCall) : list Z :=
  flat_map (fun c => match c with glBindTexture id => [id] | _ => [] end) calls.

(** glGenTextures never hands out the name 0. *)
Definition names_nonzero (op : TextureOp) : bool :=
  match op with
  | OpCreate _ _ _ textureID => negb (textureID =? 0)%Z
  | OpDestroy => true
  end.

(** The books of texture names: what was generated is either deleted
    or still loaded. *)
Definition balanced (F : Type) (acc : SceneManager F * list GLCall) : Prop :=
  0 <= m_loadedTextures (fst acc) <= 16
  /\ List.length (m_textureIDs (fst acc)) = 16%nat
  /\ Forall (fun id => id <> 0) (loaded_ids (fst acc))
  /\ forall id,
       count_occ Z.eq_dec (generated (snd acc)) id =
       (count_occ Z.eq_dec (deleted (snd acc)) id
        + count_occ Z.eq_dec (loaded_ids (fst acc)) id)%nat.

Section ShaderNotions.
Context {F M : Type}.

Definition is_draw (c : ShaderCall F M) : bool :=
  match c with Draw _ => true | _ => false end.

(** The uniform a call writes. *)
Definition uniform_name (c : ShaderCall F M) : option string :=
  match c with
  | setIntValue n _ | setFloatValue n _ | setVec2Value n _ | setVec3Value n _
  | setVec4Value n _ | setMat4Value n _ | setSampler2DValue n _ => Some n
  | std_cout _ | Draw _ => None
  end.

Definition writes (n : string) (c : ShaderCall F M) : bool :=
  match uniform_name c with
  | Some n' => String.eqb n' n
  | None => false
  end.

(** Every draw call of [calls] comes after a write of each uniform of
    [required] made since the draw call before it; [seen] holds the
    calls since then. *)
Fixpoint prepared_draws (required : list string) (seen calls : list (ShaderCall F M))
  : bool :=
  match calls with
  | [] => true
  | c :: calls' =>
      if is_draw c
      then forallb (fun n => existsb (writes n) seen) required
           && prepared_draws required [] calls'
      else prepared_draws required (c :: seen) calls'
  end.

Definition is_cout (c : ShaderCall F M) : bool :=
  match c with std_cout _ => true | _ => false end.

Definition drawn (calls : list (ShaderCall F M)) : list Mesh :=
  flat_map (fun c => match c with Draw m => [m] | _ => [] end) calls.

End ShaderNotions.

(** The uniforms an object needs before it is drawn. *)
Definition per_object_uniforms : list string :=
  ["model"; "bUseTexture"; "objectColor"; "UVscale";
   "material.ambientColor"; "material.ambientStrength";
   "material.diffuseColor"; "material.specularColor";
   "material.shininess"]%string.

(** The tags PrepareScene loads, in its order, and the tags and
    meshes RenderScene uses, in its order. *)
Definition scene_tags : list string :=
  ["wood"; "stainedglass"; "rubber"; "stainless"; "stainless_end";
   "rusticwood"; "gold"; "backdrop"]%string.

Definition render_tags : list string :=
  ["wood"; "backdrop"; "gold"; "rubber"; "stainedglass"; "rubber";
   "gold"; "stainless_end"; "rusticwood"; "stainless"]%string.

Definition render_meshes : list Mesh :=
  [Plane; Plane; Cylinder; Cylinder; Cylinder; Torus; Cylinder; Cylinder;
   Box; Sphere].

(** The names of the uniforms a list of calls writes. *)
Definition written (F M : Type) (calls : list (ShaderCall F M)) : list string :=
  flat_map (fun c => match uniform_name c with Some n => [n] | None => [] end)
    calls.

Fixpoint distinct (l : list string) : bool :=
  match l with
  | [] => true
  | x :: l' => negb (existsb (String.eqb x) l') && distinct l'
  end.

End Scene.

(** *** Proof automation for the scene manager *)

(** Unfolding RenderScene down to the calls of its helpers. *)
Ltac flatten_scene :=
  unfold Scene.RenderScene, Scene.BuildBackdrop, Scene.BuildCoaster,
    Scene.BuildMug, Scene.BuildCan, Scene.BuildWoodBlock;
  unfold Scene.ApplystainedglassMaterial, Scene.ApplyRubberMaterial,
    Scene.ApplyWoodMaterial, Scene.ApplyMetalMaterial,
    Scene.ApplyBrickMaterial;
  cbv zeta.

Ltac flatten_scene_in H :=
  unfold Scene.RenderScene, Scene.BuildBackdrop, Scene.BuildCoaster,
    Scene.BuildMug, Scene.BuildCan, Scene.BuildWoodBlock in H;
  unfold Scene.ApplystainedglassMaterial, Scene.ApplyRubberMaterial,
    Scene.ApplyWoodMaterial, Scene.ApplyMetalMaterial,
    Scene.ApplyBrickMaterial in H;
  cbv zeta in H.

(** Membership in a concatenation, one case for each part. *)
Ltac split_in H :=
  match type of H with
  | In _ (_ ++ _) =>
      apply in_app_or in H; destruct H as [H|H]; [split_in H|split_in H]
  | _ => idtac
  end.

(** ** The numbers binary32 values stand for *)

(** A power of two as a real number. *)
Definition pow2 (e : Z) : R := powerRZ 2 e.

(** The real number a float stands for; an infinity and a NaN stand
    for 0 here and are excluded where it matters. *)
Definition value (x : spec_float) : R :=
  match x with
  | S754_finite s m e =>
      (if s then - IZR (Zpos m) else IZR (Zpos m)) * pow2 e
  | _ => 0
  end.

(** A binary32 number: finite, and either a zero or a mantissa of at
    most 24 bits in canonical position with an exponent in range. *)
Definition is_number32 (x : float) : bool :=
  is_finite x && valid_binary prec32 emax32 x.

(** The exponent of the last place of a binary32 number of magnitude
    below [2^x]. *)
Definition fexp32 (x : Z) : Z := Z.max (x - 24) (-149)%Z.

(** The float of sign [s], mantissa [m] and exponent [e], an infinity
    when the exponent is past the largest one. *)
Definition finite_or_overflow (s : bool) (m : positive) (e : Z) : float :=
  if (e <=? 104)%Z then S754_finite s m e else S754_infinity s.

(** The float a rounded mantissa [m1] of at most 25 bits at exponent
    [e1] is stored as. *)
Definition rounded32 (s : bool) (m1 e1 : Z) : float :=
  match m1 with
  | Z0 => S754_zero s
  | Zpos p =>
      if (m1 =? 2 ^ 24)%Z then finite_or_overflow s (2 ^ 23)%positive (e1 + 1)%Z
      else finite_or_overflow s p e1
  | Zneg _ => S754_nan
  end.

(** The unit roundoff of binary32, and half of the smallest positive
    binary32 number. *)
Definition u32 : R := pow2 (-24).
Definition eta32 : R := pow2 (-150).

(** ** The moves of a keyboard poll *)

Section MoveNotions.
Context {F D : Type} {FO : FloatOps F D}.
Local Open Scope F_scope.

(** The product [gBaseMoveSpeed * gSpeedScale] of line 246, which the
    elapsed time is multiplied with. *)
Definition move_speed (s : State F) : F := gBaseMoveSpeed * gSpeedScale s.

(** The vector [right] of line 255. *)
Definition strafe_direction (c : Camera F) : vec3 F :=
  normalize (cross (Front c) (Up c)).

(** The directions of the movement keys held, in the order of lines
    249-265, each with whether the camera moves along it ([true]) or
    against it. *)
Definition key_directions (k : Keys) (c : Camera F) : list (bool * vec3 F) :=
  ((if KEY_W k then [(true, Front c)] else [])
   ++ (if KEY_S k then [(false, Front c)] else [])
   ++ (if KEY_A k then [(false, strafe_direction c)] else [])
   ++ (if KEY_D k then [(true, strafe_direction c)] else [])
   ++ (if KEY_Q k then [(true, Up c)] else [])
   ++ (if KEY_E k then [(false, Up c)] else []))%list.

(** The displacements of one poll: each direction scaled by the
    velocity. *)
Definition key_moves (k : Keys) (c : Camera F) (velocity : F)
  : list (bool * vec3 F) :=
  map (fun sd : bool * vec3 F => (fst sd, v_scale (snd sd) velocity))
    (key_directions k c).

Definition apply_move (p : vec3 F) (mv : bool * vec3 F) : vec3 F :=
  if fst mv then v_add p (snd mv) else v_sub p (snd mv).

(** One coordinate of a list of moves or of directions. *)
Definition coordinate_moves (c : vec3 F -> F) (ms : list (bool * vec3 F))
  : list (bool * F) :=
  map (fun mv : bool * vec3 F => (fst mv, c (snd mv))) ms.

(** Directions along one coordinate, scaled by the velocity. *)
Definition scaled (velocity : F) (ds : list (bool * F)) : list (bool * F) :=
  map (fun sd : bool * F => (fst sd, snd sd * velocity)) ds.

(** A position moved along one coordinate. *)
Definition walk (p : F) (ms : list (bool * F)) : F :=
  fold_left
    (fun (p : F) (mv : bool * F) => if fst mv then p + snd mv else p - snd mv)
    ms p.

End MoveNotions.

(** The number of movement keys held. *)
Definition held_count (k : Keys) : nat :=
  List.length
    (filter (fun b : bool => b)
       [KEY_W k; KEY_S k; KEY_A k; KEY_D k; KEY_Q k; KEY_E k]).

(** The exact sum of the moves of one coordinate, and the sum of their
    magnitudes. *)
Definition signed_sum (ms : list (bool * float)) : R :=
  fold_right
    (fun (mv : bool * float) acc =>
       ((if fst mv then value (snd mv) else - value (snd mv)) + acc)%R)
    0%R ms.

Definition abs_sum (ms : list (bool * float)) : R :=
  fold_right (fun (mv : bool * float) acc => (Rabs (value (snd mv)) + acc)%R)
    0%R ms.

(** The three coordinates of a vector are binary32 numbers, and they
    are bounded in magnitude by [b]. *)
Definition vec_numbers (v : vec3 float) : bool :=
  is_number32 (vx v) && is_number32 (vy v) && is_number32 (vz v).

Definition vec_within (b : R) (v : vec3 float) : Prop :=
  (Rabs (value (vx v)) <= b /\ Rabs (value (vy v)) <= b
   /\ Rabs (value (vz v)) <= b)%R.

(** Two vectors agree in every coordinate up to [tol]. *)
Definition vec_close (tol : R) (a b : vec3 float) : Prop :=
  (Rabs (value (vx a) - value (vx b)) <= tol
   /\ Rabs (value (vy a) - value (vy b)) <= tol
   /\ Rabs (value (vz a) - value (vz b)) <= tol)%R.

(** The tolerance of [n] polls against one poll, for [h] movement keys
    held, positions of magnitude at most [P] and a distance [reach]
    covered along a direction of length one. *)
Definition frame_tolerance (h n : nat) (P reach : R) : R :=
  (pow2 (-23) * INR (h * n + h + 3) * (P + INR h * (2 * reach))
   + pow2 (-129))%R.

(** A sixtieth of a second as a [float], and 600 times it, the product
    rounded as the program would compute it. *)
Definition sixtieth : float := float_of_Q (1 # 60).
Definition whole_run : float :=
  SFmul prec32 emax32 (float_of_Q 600) sixtieth.

(** The state of the constructor with the camera moved far out along
    z, to 2^24. *)
Definition far_out : State float :=
  set_Position
    (mkvec3 (float_of_Q 0) (float_of_Q 5) (float_of_Q 16777216))
    (started NULL).

(** Closed runs are evaluated, and the values of their binary32
    results read off as rationals. *)
Ltac eval_float x :=
  let y := eval vm_compute in x in
  replace x with y by (vm_compute; reflexivity).

Ltac eval_values :=
  repeat match goal with
         | |- context [value ?x] =>
             lazymatch x with
             | S754_finite _ _ _ => fail
             | S754_zero _ => fail
             | _ => eval_float x
             end
         end;
  cbv [value pow2]; simpl powerRZ.

(** * Properties *)

(** ** binary32: comparison and NaN *)

Lemma SFcompare_swap (x y : spec_float) :
  SFcompare y x = option_map CompOpp (SFcompare x y).
Proof.
  destruct x as [sx|sx| |sx mx ex], y as [sy|sy| |sy my ey]; simpl;
    try reflexivity;
    try (destruct sx; reflexivity);
    try (destruct sy; reflexivity);
    try (destruct sx, sy; reflexivity).
  destruct sx, sy; simpl; try reflexivity;
    rewrite (Z.compare_antisym ex ey);
    destruct (Z.compare ex ey); simpl; try reflexivity;
    change (PosDef.Pos.compare_cont Eq my mx) with (Pos.compare_cont (CompOpp Eq) my mx);
    rewrite <- (Pos.compare_cont_antisym mx my Eq);
    change (PosDef.Pos.compare_cont Eq mx my) with (Pos.compare_cont Eq mx my);
    destruct (Pos.compare_cont Eq mx my); reflexivity.
Qed.

Lemma not_ltb_leb (x y : spec_float) :
  is_nan x = false -> is_nan y = false -> SFltb x y = false -> SFleb y x = true.
Proof.
  intros Hx Hy. unfold SFltb, SFleb. rewrite (SFcompare_swap x y).
  destruct (SFcompare x y) as [c|] eqn:E.
  - destruct c; simpl; congruence.
  - destruct x, y; simpl in *; discriminate.
Qed.

Lemma in_range_finite (lo hi x : float) :
  is_finite lo = true -> is_finite hi = true ->
  in_range lo hi x = true -> is_finite x = true.
Proof.
  unfold in_range, SFleb. intros Hlo Hhi H.
  apply andb_prop in H. destruct H as [H1 H2].
  destruct x as [s|s| |s m e]; try reflexivity.
  - destruct s.
    + destruct lo; simpl in *; try discriminate.
    + destruct hi; simpl in *; try discriminate.
  - destruct lo; simpl in *; discriminate.
Qed.

Lemma shr_1_nonneg (mrs : shr_record) :
  (0 <= shr_m mrs)%Z -> (0 <= shr_m (shr_1 mrs))%Z.
Proof.
  destruct mrs as [m r t]. simpl.
  destruct m as [|p|p]; simpl; intros H; try lia.
  destruct p; simpl; lia.
Qed.

Lemma iter_pos_preserves (A : Type) (P : A -> Prop) (f : A -> A) :
  (forall a, P a -> P (f a)) -> forall n a, P a -> P (iter_pos f n a).
Proof.
  intros Hf. induction n as [n IH|n IH|]; simpl; intros a Ha; auto.
Qed.

Lemma shr_nonneg (mrs : shr_record) (e n : Z) :
  (0 <= shr_m mrs)%Z -> (0 <= shr_m (fst (shr mrs e n)))%Z.
Proof.
  intros H. destruct n; simpl; trivial.
  apply (iter_pos_preserves (fun r => (0 <= shr_m r)%Z)); trivial.
  exact shr_1_nonneg.
Qed.

Lemma shr_fexp_nonneg (prec emax m e : Z) (l : location) :
  (0 <= m)%Z -> (0 <= shr_m (fst (shr_fexp prec emax m e l)))%Z.
Proof.
  intros H. unfold shr_fexp. apply shr_nonneg.
  destruct l as [|[ | | ]]; simpl; exact H.
Qed.

Lemma round_nearest_even_nonneg (m : Z) (l : location) :
  (0 <= m)%Z -> (0 <= round_nearest_even m l)%Z.
Proof.
  intros H. destruct l as [|[ | | ]]; simpl; try lia.
  destruct (Z.even m); lia.
Qed.

Lemma binary_round_aux_not_nan (prec emax : Z) (sx : bool) (mx ex : Z) (lx : location) :
  (0 <= mx)%Z -> is_nan (binary_round_aux prec emax sx mx ex lx) = false.
Proof.
  intros H. unfold binary_round_aux.
  pose proof (shr_fexp_nonneg prec emax ex lx H) as H1.
  destruct (shr_fexp prec emax mx ex lx) as [mrs' e']. simpl in H1.
  pose proof (shr_fexp_nonneg prec emax e' loc_Exact
                (round_nearest_even_nonneg (loc_of_shr_record mrs') H1)) as H2.
  destruct (shr_fexp prec emax
              (round_nearest_even (shr_m mrs') (loc_of_shr_record mrs')) e' loc_Exact)
    as [mrs'' e'']. simpl in H2.
  destruct (shr_m mrs'') as [|q|q]; try reflexivity.
  - destruct (Z.leb e'' (emax - prec)); reflexivity.
  - lia.
Qed.

Lemma binary_round_not_nan (prec emax : Z) (sx : bool) (mx : positive) (ex : Z) :
  is_nan (binary_round prec emax sx mx ex) = false.
Proof.
  unfold binary_round.
  destruct (shl_align mx ex (fexp prec emax (Z.pos (digits2_pos mx) + ex))) as [mz ez].
  apply binary_round_aux_not_nan. lia.
Qed.

Lemma binary_normalize_not_nan (prec emax m e : Z) (szero : bool) :
  is_nan (binary_normalize prec emax m e szero) = false.
Proof.
  destruct m; simpl; try reflexivity; apply binary_round_not_nan.
Qed.

Lemma SFadd_finite_not_nan (prec emax : Z) (x y : spec_float) :
  is_finite x = true -> is_nan y = false -> is_nan (SFadd prec emax x y) = false.
Proof.
  destruct x as [sx|sx| |sx mx ex], y as [sy|sy| |sy my ey]; simpl;
    try discriminate; intros _ _; try reflexivity.
  - destruct sx, sy; reflexivity.
  - apply binary_normalize_not_nan.
Qed.

Lemma SFsub_finite_not_nan (prec emax : Z) (x y : spec_float) :
  is_finite x = true -> is_finite y = true -> is_nan (SFsub prec emax x y) = false.
Proof.
  destruct x as [sx|sx| |sx mx ex], y as [sy|sy| |sy my ey]; simpl;
    try discriminate; intros _ _; try reflexivity.
  - destruct sx, sy; reflexivity.
  - apply binary_normalize_not_nan.
Qed.

Lemma SFmul_not_nan (prec emax : Z) (x : spec_float) (s : bool) (m : positive) (e : Z) :
  is_nan x = false -> is_nan (SFmul prec emax x (S754_finite s m e)) = false.
Proof.
  destruct x as [sx|sx| |sx mx ex]; simpl; try discriminate; intros _;
    try reflexivity.
  apply binary_round_aux_not_nan. lia.
Qed.

Lemma float_of_double_not_nan (d : double) :
  is_nan d = false -> is_nan (float_of_double d) = false.
Proof.
  destruct d; simpl; try discriminate; intros _; try reflexivity.
  apply binary_round_not_nan.
Qed.

(** ** What each entry point computes and what it leaves alone *)

Section Frames.
Context {F D M : Type} {FO : FloatOps F D} {GO : GfxOps F M}.
Local Open Scope F_scope.

Lemma scroll_speed_generic (xo yo : D) (s : State F) :
  gSpeedScale (Mouse_Scroll_Callback xo yo s) =
  let raw := gSpeedScale s + f_cast yo * f_lit 0.10 in
  let v := if raw < f_lit 0.10 then f_lit 0.10 else raw in
  if v > f_lit 5.00 then f_lit 5.00 else v.
Proof.
  unfold Mouse_Scroll_Callback. destruct s; simpl.
  repeat break_inner_if; reflexivity.
Qed.

Lemma scroll_only_speed (xo yo : D) (s : State F) :
  let s' := Mouse_Scroll_Callback xo yo s in
  g_pCamera s' = g_pCamera s /\ gYaw s' = gYaw s /\ gPitch s' = gPitch s /\
  gLastX s' = gLastX s /\ gLastY s' = gLastY s /\
  bOrthographicProjection s' = bOrthographicProjection s.
Proof.
  unfold Mouse_Scroll_Callback. destruct s; simpl.
  repeat break_inner_if; repeat split; reflexivity.
Qed.

(** The cursor callback, variable by variable. *)
Lemma cursor_effect (x y : D) (s : State F) :
  let s' := Mouse_Position_Callback x y s in
  let lastx := if gFirstMouse s then f_cast x else gLastX s in
  let lasty := if gFirstMouse s then f_cast y else gLastY s in
  let yaw := gYaw s + (f_cast x - lastx) * f_lit 0.10 in
  let raw := gPitch s + (lasty - f_cast y) * f_lit 0.10 in
  let v := if raw > f_lit 89.0 then f_lit 89.0 else raw in
  let pitch := if v < - f_lit 89.0 then - f_lit 89.0 else v in
  (gLastX s' = f_cast x /\ gLastY s' = f_cast y /\ gFirstMouse s' = false
   /\ gSpeedScale s' = gSpeedScale s
   /\ bOrthographicProjection s' = bOrthographicProjection s)
  /\ (bOrthographicProjection s = true ->
      g_pCamera s' = g_pCamera s /\ gYaw s' = gYaw s /\ gPitch s' = gPitch s)
  /\ (bOrthographicProjection s = false ->
      gYaw s' = yaw /\ gPitch s' = pitch
      /\ Front (g_pCamera s') = front_of_angles yaw pitch
      /\ Position (g_pCamera s') = Position (g_pCamera s)
      /\ Up (g_pCamera s') = Up (g_pCamera s)
      /\ Zoom (g_pCamera s') = Zoom (g_pCamera s)).
Proof.
  unfold Mouse_Position_Callback, gMouseSensitivity.
  destruct s as [sm wc cam lx ly fm dt lf ortho sp yaw pitch fo fp].
  destruct fm, ortho; simpl;
    (split; [repeat split; repeat break_inner_if; reflexivity|]);
    (split; [intros E; try discriminate; repeat split; reflexivity|]);
    intros E; try discriminate;
    repeat break_inner_if; repeat split; reflexivity.
Qed.

Lemma cursor_keeps_speed (x y : D) (s : State F) :
  gSpeedScale (Mouse_Position_Callback x y s) = gSpeedScale s.
Proof. apply (cursor_effect x y s). Qed.

Lemma cursor_keeps_mode (x y : D) (s : State F) :
  bOrthographicProjection (Mouse_Position_Callback x y s) = bOrthographicProjection s.
Proof. apply (cursor_effect x y s). Qed.

Lemma cursor_seeds_last (x y : D) (s : State F) :
  gLastX (Mouse_Position_Callback x y s) = f_cast x /\
  gLastY (Mouse_Position_Callback x y s) = f_cast y.
Proof.
  pose proof (cursor_effect x y s) as H. cbv zeta in H.
  destruct H as ((E1 & E2 & _) & _). auto.
Qed.

Lemma cursor_pitch_generic (x y : D) (s : State F) :
  gPitch (Mouse_Position_Callback x y s) =
  if bOrthographicProjection s then gPitch s else
  let lasty := if gFirstMouse s then f_cast y else gLastY s in
  let raw := gPitch s + (lasty - f_cast y) * f_lit 0.10 in
  let v := if raw > f_lit 89.0 then f_lit 89.0 else raw in
  if v < - f_lit 89.0 then - f_lit 89.0 else v.
Proof.
  pose proof (cursor_effect x y s) as H. cbv zeta in H.
  destruct H as (_ & H1 & H2).
  destruct (bOrthographicProjection s).
  - apply H1. reflexivity.
  - apply H2. reflexivity.
Qed.

Lemma cursor_yaw_generic (x y : D) (s : State F) :
  gYaw (Mouse_Position_Callback x y s) =
  if bOrthographicProjection s then gYaw s else
  let lastx := if gFirstMouse s then f_cast x else gLastX s in
  gYaw s + (f_cast x - lastx) * f_lit 0.10.
Proof.
  pose proof (cursor_effect x y s) as H. cbv zeta in H.
  destruct H as (_ & H1 & H2).
  destruct (bOrthographicProjection s).
  - apply H1. reflexivity.
  - apply H2. reflexivity.
Qed.

Lemma set_Position_same (s : State F) :
  set_Position (Position (g_pCamera s)) s = s.
Proof. destruct s as [sm wc [p f u z] lx ly fm dt lf ortho sp yaw pitch fo fp]. reflexivity. Qed.

(** The movement step assigns the position and nothing else. *)
Lemma poll_movement_moves (k : Keys) (s : State F) :
  exists p, poll_movement k s = set_Position p s.
Proof.
  unfold poll_movement.
  destruct (negb (bOrthographicProjection s));
    [|exists (Position (g_pCamera s)); symmetry; apply set_Position_same].
  cbv zeta.
  destruct (KEY_W k), (KEY_S k), (KEY_A k), (KEY_D k), (KEY_Q k), (KEY_E k);
    first [ eexists; reflexivity
          | exists (Position (g_pCamera s)); symmetry; apply set_Position_same ].
Qed.

Lemma poll_escape_frame (k : Keys) (s : State F) :
  let s' := poll_escape k s in
  g_pCamera s' = g_pCamera s /\ gYaw s' = gYaw s /\ gPitch s' = gPitch s /\
  gLastX s' = gLastX s /\ gLastY s' = gLastY s /\ gSpeedScale s' = gSpeedScale s /\
  gDeltaTime s' = gDeltaTime s /\ gLastFrame s' = gLastFrame s /\
  bOrthographicProjection s' = bOrthographicProjection s /\
  gToggleKeyDown_O s' = gToggleKeyDown_O s /\
  gToggleKeyDown_P s' = gToggleKeyDown_P s /\
  m_pShaderManager s' = m_pShaderManager s.
Proof. unfold poll_escape. destruct (KEY_ESCAPE k); repeat split; reflexivity. Qed.

Lemma poll_O_frame (k : Keys) (s : State F) :
  let s' := poll_O k s in
  g_pCamera s' = g_pCamera s /\ gYaw s' = gYaw s /\ gPitch s' = gPitch s /\
  gLastX s' = gLastX s /\ gLastY s' = gLastY s /\ gSpeedScale s' = gSpeedScale s /\
  gDeltaTime s' = gDeltaTime s /\ gLastFrame s' = gLastFrame s /\
  gToggleKeyDown_P s' = gToggleKeyDown_P s /\
  m_pShaderManager s' = m_pShaderManager s.
Proof.
  unfold poll_O.
  destruct (KEY_O k), (negb (gToggleKeyDown_O s)); repeat split; reflexivity.
Qed.

Lemma poll_P_frame (k : Keys) (s : State F) :
  let s' := poll_P k s in
  g_pCamera s' = g_pCamera s /\ gYaw s' = gYaw s /\ gPitch s' = gPitch s /\
  gLastX s' = gLastX s /\ gLastY s' = gLastY s /\ gSpeedScale s' = gSpeedScale s /\
  gDeltaTime s' = gDeltaTime s /\ gLastFrame s' = gLastFrame s /\
  gToggleKeyDown_O s' = gToggleKeyDown_O s /\
  m_pShaderManager s' = m_pShaderManager s.
Proof.
  unfold poll_P.
  destruct (KEY_P k), (negb (gToggleKeyDown_P s)); repeat split; reflexivity.
Qed.

Lemma poll_movement_frame (k : Keys) (s : State F) :
  let s' := poll_movement k s in
  Front (g_pCamera s') = Front (g_pCamera s) /\
  Up (g_pCamera s') = Up (g_pCamera s) /\
  Zoom (g_pCamera s') = Zoom (g_pCamera s) /\
  gYaw s' = gYaw s /\ gPitch s' = gPitch s /\
  gLastX s' = gLastX s /\ gLastY s' = gLastY s /\ gSpeedScale s' = gSpeedScale s /\
  gDeltaTime s' = gDeltaTime s /\ gLastFrame s' = gLastFrame s /\
  bOrthographicProjection s' = bOrthographicProjection s /\
  gToggleKeyDown_O s' = gToggleKeyDown_O s /\
  gToggleKeyDown_P s' = gToggleKeyDown_P s /\
  m_pShaderManager s' = m_pShaderManager s.
Proof.
  cbv zeta. destruct (poll_movement_moves k s) as [p E]. rewrite E.
  repeat split; reflexivity.
Qed.

Lemma keyboard_frame (k : Keys) (s : State F) :
  let s' := ProcessKeyboardEvents k s in
  gYaw s' = gYaw s /\ gPitch s' = gPitch s /\
  gLastX s' = gLastX s /\ gLastY s' = gLastY s /\ gSpeedScale s' = gSpeedScale s /\
  gDeltaTime s' = gDeltaTime s /\ gLastFrame s' = gLastFrame s /\
  m_pShaderManager s' = m_pShaderManager s /\
  Front (g_pCamera s') = Front (g_pCamera s) /\
  Up (g_pCamera s') = Up (g_pCamera s) /\
  Zoom (g_pCamera s') = Zoom (g_pCamera s).
Proof.
  unfold ProcessKeyboardEvents. cbv zeta.
  pose proof (poll_movement_frame k (poll_P k (poll_O k (poll_escape k s)))) as Hm.
  pose proof (poll_P_frame k (poll_O k (poll_escape k s))) as Hp.
  pose proof (poll_O_frame k (poll_escape k s)) as Ho.
  pose proof (poll_escape_frame k s) as He.
  cbv zeta in Hm, Hp, Ho, He.
  destruct Hm as (m1 & m2 & m3 & m4 & m5 & m6 & m7 & m8 & m9 & m10 & m11 & m12 & m13 & m14).
  destruct Hp as (p1 & p2 & p3 & p4 & p5 & p6 & p7 & p8 & p9 & p10).
  destruct Ho as (o1 & o2 & o3 & o4 & o5 & o6 & o7 & o8 & o9 & o10).
  destruct He as (e1 & e2 & e3 & e4 & e5 & e6 & e7 & e8 & e9 & e10 & e11 & e12).
  repeat split; congruence.
Qed.

Lemma PrepareSceneView_state (t : D) (k : Keys) (s : State F) :
  fst (PrepareSceneView t k s) =
  ProcessKeyboardEvents k
    (set_gLastFrame (f_cast t) (set_gDeltaTime (f_cast t - gLastFrame s) s)).
Proof.
  unfold PrepareSceneView. cbv zeta.
  destruct (scene_matrices _) as [view projection]. reflexivity.
Qed.

Lemma frame_keeps_input_state (t : D) (k : Keys) (s : State F) :
  let s' := fst (PrepareSceneView t k s) in
  gYaw s' = gYaw s /\ gPitch s' = gPitch s /\
  gLastX s' = gLastX s /\ gLastY s' = gLastY s /\ gSpeedScale s' = gSpeedScale s.
Proof.
  cbv zeta. rewrite PrepareSceneView_state.
  pose proof (keyboard_frame k
                (set_gLastFrame (f_cast t)
                   (set_gDeltaTime (f_cast t - gLastFrame s) s))) as H.
  cbv zeta in H.
  destruct H as (h1 & h2 & h3 & h4 & h5 & _).
  repeat split; assumption.
Qed.

End Frames.
(** ** binary32: the clamped quantities *)

Section Clamps.
Context {lm : Libm} {M : Type} {GO : GfxOps float M}.

Lemma scroll_speed (xo yo : double) (s : State float) :
  gSpeedScale (Mouse_Scroll_Callback xo yo s) =
  let raw := SFadd prec32 emax32 (gSpeedScale s)
               (SFmul prec32 emax32 (float_of_double yo) (float_of_Q 0.10)) in
  let v := if SFltb raw speed_lo then speed_lo else raw in
  if SFltb speed_hi v then speed_hi else v.
Proof. exact (scroll_speed_generic xo yo s). Qed.

Lemma clamp_in_range (lo hi raw : float) :
  is_nan lo = false -> is_nan hi = false -> SFltb hi lo = false ->
  is_nan raw = false ->
  in_range lo hi
    (let v := if SFltb raw lo then lo else raw in
     if SFltb hi v then hi else v) = true.
Proof.
  intros Hlo Hhi Hord Hraw. cbv zeta. unfold in_range.
  assert (Hlh : SFleb lo hi = true) by (apply not_ltb_leb; assumption).
  assert (Hll : forall z, is_nan z = false -> SFleb z z = true).
  { intros z Hz. apply not_ltb_leb; trivial.
    unfold SFltb. pose proof (SFcompare_swap z z) as E.
    destruct (SFcompare z z) as [[ | | ]|]; simpl in E; congruence. }
  destruct (SFltb raw lo) eqn:E1.
  - rewrite Hord. rewrite Hll, Hlh; trivial.
  - destruct (SFltb hi raw) eqn:E2.
    + rewrite Hlh, Hll; trivial.
    + rewrite !not_ltb_leb; trivial.
Qed.

Lemma clamp_hi_lo_in_range (lo hi raw : float) :
  is_nan lo = false -> is_nan hi = false -> SFltb hi lo = false ->
  is_nan raw = false ->
  in_range lo hi
    (let v := if SFltb hi raw then hi else raw in
     if SFltb v lo then lo else v) = true.
Proof.
  intros Hlo Hhi Hord Hraw. cbv zeta. unfold in_range.
  assert (Hlh : SFleb lo hi = true) by (apply not_ltb_leb; assumption).
  assert (Hll : forall z, is_nan z = false -> SFleb z z = true).
  { intros z Hz. apply not_ltb_leb; trivial.
    unfold SFltb. pose proof (SFcompare_swap z z) as E.
    destruct (SFcompare z z) as [[ | | ]|]; simpl in E; congruence. }
  destruct (SFltb hi raw) eqn:E1.
  - rewrite Hord. rewrite Hlh, Hll; trivial.
  - destruct (SFltb raw lo) eqn:E2.
    + rewrite Hll, Hlh; trivial.
    + rewrite !not_ltb_leb; trivial.
Qed.

Lemma cursor_pitch (x y : double) (s : State float) :
  gPitch (Mouse_Position_Callback x y s) =
  if bOrthographicProjection s then gPitch s else
  let last := if gFirstMouse s then float_of_double y else gLastY s in
  let raw := SFadd prec32 emax32 (gPitch s)
               (SFmul prec32 emax32
                  (SFsub prec32 emax32 last (float_of_double y))
                  (float_of_Q 0.10)) in
  let v := if SFltb pitch_hi raw then pitch_hi else raw in
  if SFltb v pitch_lo then pitch_lo else v.
Proof. exact (cursor_pitch_generic x y s). Qed.

Lemma cursor_yaw (x y : double) (s : State float) :
  gYaw (Mouse_Position_Callback x y s) =
  if bOrthographicProjection s then gYaw s else
  let last := if gFirstMouse s then float_of_double x else gLastX s in
  SFadd prec32 emax32 (gYaw s)
    (SFmul prec32 emax32
       (SFsub prec32 emax32 (float_of_double x) last)
       (float_of_Q 0.10)).
Proof. exact (cursor_yaw_generic x y s). Qed.

Lemma cursor_pitch_in_range (x y : double) (s : State float) :
  is_finite (float_of_double y) = true ->
  in_range pitch_lo pitch_hi (gPitch s) = true ->
  is_finite (gLastY s) = true ->
  in_range pitch_lo pitch_hi (gPitch (Mouse_Position_Callback x y s)) = true.
Proof.
  intros Hy Hp Hl. rewrite cursor_pitch.
  destruct (bOrthographicProjection s); [exact Hp|].
  apply (clamp_hi_lo_in_range pitch_lo pitch_hi);
    [vm_compute; reflexivity | vm_compute; reflexivity | vm_compute; reflexivity | ].
  apply SFadd_finite_not_nan.
  - apply (in_range_finite pitch_lo pitch_hi); trivial.
  - change (float_of_Q 0.10) with (S754_finite false 13421773 (-27)).
    apply SFmul_not_nan. apply SFsub_finite_not_nan; trivial.
    destruct (gFirstMouse s); trivial.
Qed.

Lemma step_keeps_pitch_in_range (e : Event double) (s : State float) :
  cursor_y_finite e = true ->
  in_range pitch_lo pitch_hi (gPitch s) = true /\ is_finite (gLastY s) = true ->
  in_range pitch_lo pitch_hi (gPitch (step s e)) = true
  /\ is_finite (gLastY (step s e)) = true.
Proof.
  intros He [Hp Hl]. destruct e as [x y|xo yo|t k]; simpl in *.
  - split.
    + apply cursor_pitch_in_range; trivial.
    + destruct (cursor_seeds_last x y s) as [_ E]. rewrite E. exact He.
  - pose proof (scroll_only_speed xo yo s) as H. cbv zeta in H.
    destruct H as (_ & _ & E1 & _ & E2 & _). rewrite E1, E2. auto.
  - pose proof (frame_keeps_input_state t k s) as H. cbv zeta in H.
    destruct H as (_ & E1 & _ & E2 & _). rewrite E1, E2. auto.
Qed.

Lemma scroll_speed_in_range (xo yo : double) (s : State float) :
  is_nan (float_of_double yo) = false ->
  in_range speed_lo speed_hi (gSpeedScale s) = true ->
  in_range speed_lo speed_hi (gSpeedScale (Mouse_Scroll_Callback xo yo s)) = true.
Proof.
  intros Hy Hs. rewrite scroll_speed.
  apply (clamp_in_range speed_lo speed_hi);
    [vm_compute; reflexivity | vm_compute; reflexivity | vm_compute; reflexivity | ].
  apply SFadd_finite_not_nan.
  - apply (in_range_finite speed_lo speed_hi); trivial.
  - change (float_of_Q 0.10) with (S754_finite false 13421773 (-27)).
    apply SFmul_not_nan. exact Hy.
Qed.

Lemma step_keeps_speed_in_range (e : Event double) (s : State float) :
  scroll_not_nan e = true ->
  in_range speed_lo speed_hi (gSpeedScale s) = true ->
  in_range speed_lo speed_hi (gSpeedScale (step s e)) = true.
Proof.
  intros He Hs. destruct e as [x y|xo yo|t k]; simpl in *.
  - rewrite cursor_keeps_speed. exact Hs.
  - apply scroll_speed_in_range; trivial.
    destruct (is_nan (float_of_double yo)); [discriminate|reflexivity].
  - pose proof (frame_keeps_input_state t k s) as H. cbv zeta in H.
    destruct H as (_ & _ & _ & _ & E). rewrite E. exact Hs.
Qed.

(** C3, amended.  Whatever the mode and however large the deltas, the
    stored pitch stays within [-89, 89] over every run of events whose
    cursor samples have a vertical coordinate that is finite as a
    float, from a state where it holds and the last vertical cursor
    position is finite. *)
Theorem pitch_stays_clamped (es : list (Event double)) (s : State float) :
  in_range pitch_lo pitch_hi (gPitch s) = true ->
  is_finite (gLastY s) = true ->
  forallb cursor_y_finite es = true ->
  in_range pitch_lo pitch_hi (gPitch (run es s)) = true.
Proof.
  intros Hp Hl Hes.
  assert (H : in_range pitch_lo pitch_hi (gPitch (run es s)) = true
              /\ is_finite (gLastY (run es s)) = true).
  { revert s Hp Hl Hes. induction es as [|e es IH]; intros s Hp Hl Hes.
    - simpl. auto.
    - simpl in Hes. apply andb_prop in Hes. destruct Hes as [He Hes].
      destruct (step_keeps_pitch_in_range e s He (conj Hp Hl)) as [Hp' Hl'].
      simpl. apply IH; assumption. }
  exact (proj1 H).
Qed.

(** C8, amended.  The speed scale stays within [0.10, 5.00]
    ([speed_lo], [speed_hi]) over every run of events whose scroll
    offsets are not NaN; a scroll sample adds [yOffset * 0.10] and then
    clamps, below first; and one scroll of -60 from 1.0 gives exactly
    0.10. *)
Theorem speed_scale_stays_clamped (es : list (Event double)) (s : State float) :
  in_range speed_lo speed_hi (gSpeedScale s) = true ->
  forallb scroll_not_nan es = true ->
  in_range speed_lo speed_hi (gSpeedScale (run es s)) = true
  /\ (forall xo yo s',
        gSpeedScale (Mouse_Scroll_Callback xo yo s') =
        let raw := SFadd prec32 emax32 (gSpeedScale s')
                     (SFmul prec32 emax32 (float_of_double yo) (float_of_Q 0.10)) in
        let v := if SFltb raw speed_lo then speed_lo else raw in
        if SFltb speed_hi v then speed_hi else v)
  /\ (forall xo s',
        gSpeedScale s' = float_of_Q 1.0 ->
        gSpeedScale (Mouse_Scroll_Callback xo (double_of_Q (-60)) s') = float_of_Q 0.10).
Proof.
  intros Hs Hes. split; [|split].
  - revert s Hs Hes. induction es as [|e es IH]; intros s Hs Hes.
    + exact Hs.
    + simpl in Hes. apply andb_prop in Hes. destruct Hes as [He Hes].
      simpl. apply IH; trivial. apply step_keeps_speed_in_range; trivial.
  - intros xo yo s'. apply scroll_speed.
  - intros xo s' E. rewrite scroll_speed, E. vm_compute. reflexivity.
Qed.

End Clamps.

Lemma pitch_stays_clamped_witness :
  let es := [CursorPos (d_of_Q 500) (d_of_Q 400);
             CursorPos (d_of_Q 500) (d_of_Q (-300000000000000000000000000000000000000));
             CursorPos (d_of_Q 500) (d_of_Q 300000000000000000000000000000000000000);
             Frame (d_of_Q 1) key_O;
             CursorPos (d_of_Q 0) (d_of_Q 0);
             Scroll (d_of_Q 0) (d_of_Q 1)] in
  in_range pitch_lo pitch_hi (gPitch (started NULL)) = true
  /\ is_finite (gLastY (started NULL)) = true
  /\ forallb cursor_y_finite es = true
  /\ in_range pitch_lo pitch_hi
       (gPitch (run (FO := binary32_ops (lm := series_libm)) (GO := call_gfx float)
                    es (started NULL))) = true.
Proof.
  cbv zeta.
  split; [vm_compute; reflexivity|].
  split; [vm_compute; reflexivity|].
  split; [vm_compute; reflexivity|].
  apply (pitch_stays_clamped (lm := series_libm) (GO := call_gfx float));
    vm_compute; reflexivity.
Defined.

(** C3 as stated fails: in Perspective mode one cursor sample whose
    vertical coordinate is the double 2^128, past the largest float,
    is cast to +infinity; the offset [gLastY - y] is then
    infinity - infinity, and the stored pitch becomes a NaN, which no
    clamp catches.  The same happens when the coordinate is an
    infinity itself. *)
Lemma pitch_escapes_on_overflowing_sample :
  in_range pitch_lo pitch_hi (gPitch (started NULL)) = true
  /\ float_of_double two_pow_128 = S754_infinity false
  /\ gPitch (run (FO := binary32_ops (lm := series_libm)) (GO := call_gfx float)
                 [CursorPos (d_of_Q 500) two_pow_128] (started NULL)) = S754_nan
  /\ in_range pitch_lo pitch_hi
       (gPitch (run (FO := binary32_ops (lm := series_libm)) (GO := call_gfx float)
                    [CursorPos (d_of_Q 500) two_pow_128] (started NULL))) = false
  /\ in_range pitch_lo pitch_hi
       (gPitch (run (FO := binary32_ops (lm := series_libm)) (GO := call_gfx float)
                    [CursorPos (d_of_Q 500) (S754_infinity false)]
                    (started NULL))) = false.
Proof. repeat split; vm_compute; reflexivity. Qed.

Lemma speed_scale_stays_clamped_witness :
  let es := [Scroll (d_of_Q 0) (d_of_Q (-60));
             Scroll (d_of_Q 0) (S754_infinity false);
             CursorPos (d_of_Q 500) (d_of_Q 400);
             Frame (d_of_Q 1) key_W;
             Scroll (d_of_Q 0) (d_of_Q (-3))] in
  in_range speed_lo speed_hi (gSpeedScale (started NULL)) = true
  /\ forallb scroll_not_nan es = true
  /\ in_range speed_lo speed_hi
       (gSpeedScale (run (FO := binary32_ops (lm := series_libm)) (GO := call_gfx float)
                         es (started NULL))) = true.
Proof.
  cbv zeta.
  split; [vm_compute; reflexivity|].
  split; [vm_compute; reflexivity|].
  apply (speed_scale_stays_clamped (lm := series_libm) (GO := call_gfx float));
    vm_compute; reflexivity.
Defined.

(** C8 as stated fails: a scroll sample whose offset is a NaN makes the
    speed scale a NaN, and both comparisons of the clamp are false on
    a NaN. *)
Lemma speed_scale_escapes_on_nan :
  in_range speed_lo speed_hi (gSpeedScale (started NULL)) = true
  /\ gSpeedScale (run (FO := binary32_ops (lm := series_libm)) (GO := call_gfx float)
                      [Scroll (d_of_Q 0) S754_nan] (started NULL)) = S754_nan
  /\ in_range speed_lo speed_hi
       (gSpeedScale (run (FO := binary32_ops (lm := series_libm)) (GO := call_gfx float)
                         [Scroll (d_of_Q 0) S754_nan] (started NULL))) = false.
Proof. repeat split; vm_compute; reflexivity. Qed.

(** ** binary32: the frame clock *)

Lemma SFsub_zero_r (x : spec_float) :
  SFsub prec32 emax32 x (S754_zero false) = x.
Proof. destruct x as [[|]|[|]| |s m e]; reflexivity. Qed.

(** C2, amended.  The first per-frame update after construction sets
    the elapsed time to the clock value of that call, as a float:
    [gLastFrame] starts at 0.0 and is not seeded from the clock.  Every
    update leaves the clock value in [gLastFrame] and the difference to
    the previous one in [gDeltaTime]. *)
Theorem first_tick_is_clock_value
  {lm : Libm} {M : Type} {GO : GfxOps float M} (p : ptr) (t : double) (k : Keys) :
  (let s' := fst (PrepareSceneView t k (ViewManager_new p)) in
   gDeltaTime s' = float_of_double t /\ gLastFrame s' = float_of_double t)
  /\ (forall s : State float,
        let s' := fst (PrepareSceneView t k s) in
        gDeltaTime s' = SFsub prec32 emax32 (float_of_double t) (gLastFrame s)
        /\ gLastFrame s' = float_of_double t).
Proof.
  assert (G : forall s : State float,
             let s' := fst (PrepareSceneView t k s) in
             gDeltaTime s' = SFsub prec32 emax32 (float_of_double t) (gLastFrame s)
             /\ gLastFrame s' = float_of_double t).
  { intros s. cbv zeta. rewrite PrepareSceneView_state.
    pose proof (keyboard_frame k
                  (set_gLastFrame (f_cast t)
                     (set_gDeltaTime (f_sub (f_cast t) (gLastFrame s)) s))) as H.
    cbv zeta in H. destruct H as (_ & _ & _ & _ & _ & E1 & E2 & _).
    rewrite E1, E2. split; reflexivity. }
  split; [|exact G].
  cbv zeta. destruct (G (ViewManager_new p)) as [E1 E2]. cbv zeta in E1, E2.
  rewrite E1, E2. split; [|reflexivity].
  change (gLastFrame (ViewManager_new p)) with (float_of_Q 0.0).
  change (float_of_Q 0.0) with (S754_zero false).
  apply SFsub_zero_r.
Qed.

(** C2 as stated fails: when the clock reads 1.0 at the first update,
    the elapsed time of that update is 1.0, not 0. *)
Lemma first_tick_not_zero :
  gDeltaTime (fst (PrepareSceneView (FO := binary32_ops (lm := series_libm))
                     (GO := call_gfx float) (d_of_Q 1) no_keys (started NULL)))
  = float_of_Q 1
  /\ SFeqb (gDeltaTime (fst (PrepareSceneView (FO := binary32_ops (lm := series_libm))
                               (GO := call_gfx float) (d_of_Q 1) no_keys (started NULL))))
           (float_of_Q 0) = false.
Proof. split; vm_compute; reflexivity. Qed.

(** ** The projection mode: suppression of input, toggles, uploads *)

Section Mode.
Context {F D M : Type} {FO : FloatOps F D} {GO : GfxOps F M}.

Lemma poll_movement_orthographic (k : Keys) (s : State F) :
  bOrthographicProjection s = true -> poll_movement k s = s.
Proof. intros H. unfold poll_movement. rewrite H. reflexivity. Qed.

Lemma poll_movement_released (k : Keys) (s : State F) :
  movement_keys_released k = true -> poll_movement k s = s.
Proof.
  unfold movement_keys_released, poll_movement. intros H.
  destruct (KEY_W k), (KEY_S k), (KEY_A k), (KEY_D k), (KEY_Q k), (KEY_E k);
    try discriminate.
  cbv zeta. destruct (negb (bOrthographicProjection s)); reflexivity.
Qed.

Lemma toggles_keep_camera (k : Keys) (s : State F) :
  g_pCamera (poll_P k (poll_O k (poll_escape k s))) = g_pCamera s.
Proof.
  pose proof (poll_P_frame k (poll_O k (poll_escape k s))) as Hp.
  pose proof (poll_O_frame k (poll_escape k s)) as Ho.
  pose proof (poll_escape_frame k s) as He.
  cbv zeta in Hp, Ho, He.
  destruct Hp as [Hp _], Ho as [Ho _], He as [He _]. congruence.
Qed.

Lemma keyboard_mode (k : Keys) (s : State F) :
  bOrthographicProjection (ProcessKeyboardEvents k s) =
  if KEY_P k && negb (gToggleKeyDown_P s) then false
  else if KEY_O k && negb (gToggleKeyDown_O s) then true
       else bOrthographicProjection s.
Proof.
  unfold ProcessKeyboardEvents.
  pose proof (poll_movement_frame k (poll_P k (poll_O k (poll_escape k s)))) as Hm.
  cbv zeta in Hm. destruct Hm as (_ & _ & _ & _ & _ & _ & _ & _ & _ & _ & E & _).
  rewrite E. unfold poll_P, poll_O, poll_escape.
  destruct s as [sm wc cam lx ly fm dt lf ortho sp yaw pitch fo fp]; simpl.
  destruct (KEY_ESCAPE k), (KEY_O k), (KEY_P k), fo, fp; reflexivity.
Qed.

Lemma keyboard_flags (k : Keys) (s : State F) :
  gToggleKeyDown_O (ProcessKeyboardEvents k s) = KEY_O k
  /\ gToggleKeyDown_P (ProcessKeyboardEvents k s) = KEY_P k.
Proof.
  unfold ProcessKeyboardEvents.
  pose proof (poll_movement_frame k (poll_P k (poll_O k (poll_escape k s)))) as Hm.
  cbv zeta in Hm.
  destruct Hm as (_ & _ & _ & _ & _ & _ & _ & _ & _ & _ & _ & E1 & E2 & _).
  rewrite E1, E2. unfold poll_P, poll_O, poll_escape.
  destruct s as [sm wc cam lx ly fm dt lf ortho sp yaw pitch fo fp]; simpl.
  destruct (KEY_ESCAPE k), (KEY_O k), (KEY_P k), fo, fp; split; reflexivity.
Qed.

Lemma keyboard_orthographic_keeps_camera (k : Keys) (s : State F) :
  bOrthographicProjection (ProcessKeyboardEvents k s) = true ->
  g_pCamera (ProcessKeyboardEvents k s) = g_pCamera s.
Proof.
  unfold ProcessKeyboardEvents. intros H.
  pose proof (poll_movement_frame k (poll_P k (poll_O k (poll_escape k s)))) as Hm.
  cbv zeta in Hm. destruct Hm as (_ & _ & _ & _ & _ & _ & _ & _ & _ & _ & E & _).
  rewrite E in H. rewrite (poll_movement_orthographic k _ H).
  apply toggles_keep_camera.
Qed.

Lemma cursor_orthographic_keeps_pose (x y : D) (s : State F) :
  bOrthographicProjection s = true ->
  g_pCamera (Mouse_Position_Callback x y s) = g_pCamera s
  /\ gYaw (Mouse_Position_Callback x y s) = gYaw s
  /\ gPitch (Mouse_Position_Callback x y s) = gPitch s.
Proof.
  intros H. pose proof (cursor_effect x y s) as E. cbv zeta in E.
  destruct E as (_ & E & _). exact (E H).
Qed.

Lemma step_orthographic_keeps_pose (e : Event D) (s : State F) :
  bOrthographicProjection (step s e) = true ->
  g_pCamera (step s e) = g_pCamera s
  /\ gYaw (step s e) = gYaw s /\ gPitch (step s e) = gPitch s.
Proof.
  destruct e as [x y|xo yo|t k]; simpl; intros H.
  - rewrite cursor_keeps_mode in H. apply cursor_orthographic_keeps_pose, H.
  - pose proof (scroll_only_speed xo yo s) as E. cbv zeta in E. tauto.
  - pose proof (frame_keeps_input_state t k s) as E. cbv zeta in E.
    destruct E as (E1 & E2 & _). split; [|split; assumption].
    revert H. rewrite PrepareSceneView_state. intros H.
    rewrite (keyboard_orthographic_keeps_camera _ _ H). reflexivity.
Qed.

Lemma run_orthographic_keeps_pose (es : list (Event D)) (s : State F) :
  stays_orthographic (GO := GO) es s = true ->
  g_pCamera (run es s) = g_pCamera s
  /\ gYaw (run es s) = gYaw s /\ gPitch (run es s) = gPitch s.
Proof.
  revert s. induction es as [|e es IH]; intros s H.
  - simpl. auto.
  - simpl in H. apply andb_prop in H. destruct H as [H1 H2].
    destruct (step_orthographic_keeps_pose e s H1) as (E1 & E2 & E3).
    destruct (IH _ H2) as (G1 & G2 & G3).
    simpl. rewrite G1, G2, G3. auto.
Qed.

(** C4.  Over a run of keyboard polls, cursor samples and scroll
    samples after each of which the mode is Orthographic, the camera
    (position, front, up, zoom) and the angles yaw and pitch do not
    change; and the frame that follows, whatever its mode keys, hands
    the same camera to its movement step, and leaves it as it was when
    no movement key is pressed. *)
Theorem orthographic_run_keeps_pose (es : list (Event D)) (s : State F) :
  stays_orthographic (GO := GO) es s = true ->
  (g_pCamera (run es s) = g_pCamera s
   /\ gYaw (run es s) = gYaw s /\ gPitch (run es s) = gPitch s)
  /\ (forall k,
        g_pCamera (poll_P k (poll_O k (poll_escape k (run es s)))) = g_pCamera s)
  /\ (forall t k,
        movement_keys_released k = true ->
        g_pCamera (fst (PrepareSceneView t k (run es s))) = g_pCamera s).
Proof.
  intros H. pose proof (run_orthographic_keeps_pose es s H) as (E1 & E2 & E3).
  split; [auto|]. split.
  - intros k. rewrite toggles_keep_camera. exact E1.
  - intros t k Hk. rewrite PrepareSceneView_state.
    unfold ProcessKeyboardEvents. rewrite (poll_movement_released _ _ Hk).
    rewrite toggles_keep_camera. exact E1.
Qed.

End Mode.

Lemma orthographic_run_keeps_pose_witness :
  let es := [Frame (d_of_Q 1) keys_O_W;
             CursorPos (d_of_Q 10) (d_of_Q 20);
             Frame (d_of_Q 2) key_W;
             CursorPos (d_of_Q 300) (d_of_Q 50);
             Scroll (d_of_Q 0) (d_of_Q 1);
             Frame (d_of_Q 3) keys_O_W] in
  let s' := run (FO := binary32_ops (lm := series_libm)) (GO := call_gfx float)
                es (started NULL) in
  stays_orthographic (FO := binary32_ops (lm := series_libm)) (GO := call_gfx float)
    es (started NULL) = true
  /\ g_pCamera s' = g_pCamera (started NULL)
  /\ gYaw s' = gYaw (started NULL)
  /\ gPitch s' = gPitch (started NULL).
Proof.
  cbv zeta. split; [vm_compute; reflexivity|].
  apply (orthographic_run_keeps_pose
           (FO := binary32_ops (lm := series_libm)) (GO := call_gfx float)).
  vm_compute; reflexivity.
Defined.

Section Toggles.
Context {F D : Type} {FO : FloatOps F D}.

Lemma modes_follow_edges (ks : list Keys) (s : State F) :
  modes_after ks s =
  edge_modes (bOrthographicProjection s) (gToggleKeyDown_O s)
    (gToggleKeyDown_P s) ks.
Proof.
  revert s. induction ks as [|k ks IH]; intros s; [reflexivity|].
  cbn [modes_after edge_modes]. rewrite IH.
  destruct (keyboard_flags k s) as [EO EP].
  rewrite EO, EP, keyboard_mode. reflexivity.
Qed.

Lemma no_entry_while_O_held (ks : list Keys) (s : State F) :
  gToggleKeyDown_O s = true ->
  (forall k, In k ks -> KEY_O k = true) ->
  entries_into true (bOrthographicProjection s) (modes_after ks s) = 0.
Proof.
  revert s. induction ks as [|k ks IH]; intros s Hf Hk; simpl; trivial.
  rewrite (IH (ProcessKeyboardEvents k s)).
  - rewrite keyboard_mode, Hf. rewrite (Hk k (or_introl eq_refl)). simpl.
    destruct (KEY_P k && negb (gToggleKeyDown_P s)); simpl.
    + rewrite andb_false_r. reflexivity.
    + destruct (bOrthographicProjection s); reflexivity.
  - destruct (keyboard_flags k s) as [E _]. rewrite E. apply Hk. left. reflexivity.
  - intros k' Hin. apply Hk. right. exact Hin.
Qed.

Lemma no_entry_while_P_held (ks : list Keys) (s : State F) :
  gToggleKeyDown_P s = true ->
  (forall k, In k ks -> KEY_P k = true) ->
  entries_into false (bOrthographicProjection s) (modes_after ks s) = 0.
Proof.
  revert s. induction ks as [|k ks IH]; intros s Hf Hk; simpl; trivial.
  rewrite (IH (ProcessKeyboardEvents k s)).
  - rewrite keyboard_mode, Hf. rewrite (Hk k (or_introl eq_refl)). simpl.
    destruct (KEY_O k && negb (gToggleKeyDown_O s)); simpl.
    + rewrite andb_false_r. reflexivity.
    + destruct (bOrthographicProjection s); reflexivity.
  - destruct (keyboard_flags k s) as [_ E]. rewrite E. apply Hk. left. reflexivity.
  - intros k' Hin. apply Hk. right. exact Hin.
Qed.

(** C5.  Each mode key acts on its press edge only: a poll acts on a
    key when the key is pressed and the poll before did not see it
    pressed.  The enter-perspective key is tested after the
    enter-orthographic key, so a poll that sees both newly pressed
    ends in Perspective.
    - The modes after any sequence of polls, whatever keys they see,
      are those of [edge_modes], and after every poll each debounce
      flag holds the state of its key.
    - The enter-orthographic key held over the polls [k :: ks], not
      seen pressed before: the mode enters Orthographic once when it
      was Perspective and the first poll does not see the
      enter-perspective key newly pressed, and never otherwise.
    - The enter-perspective key held over [k :: ks], not seen pressed
      before: the mode enters Perspective once when it was
      Orthographic, and never otherwise, whatever the other key does.
    - Once a poll has seen a mode key pressed, the polls that follow
      with the key still pressed never enter its mode, whatever the
      other keys do.
    - A newly pressed enter-perspective key leaves the mode
      Perspective; a newly pressed enter-orthographic key leaves the
      mode Orthographic unless the same poll sees the
      enter-perspective key newly pressed. *)
Theorem mode_toggles_edge_triggered :
  (forall (s : State F) (ks : list Keys),
      modes_after ks s =
      edge_modes (bOrthographicProjection s) (gToggleKeyDown_O s)
        (gToggleKeyDown_P s) ks)
  /\ (forall (s : State F) (k : Keys),
      gToggleKeyDown_O (ProcessKeyboardEvents k s) = KEY_O k
      /\ gToggleKeyDown_P (ProcessKeyboardEvents k s) = KEY_P k)
  /\ (forall (s : State F) (k : Keys) (ks : list Keys),
      gToggleKeyDown_O s = false ->
      KEY_O k = true -> (forall k', In k' ks -> KEY_O k' = true) ->
      entries_into true (bOrthographicProjection s) (modes_after (k :: ks) s) =
      if bOrthographicProjection s || (KEY_P k && negb (gToggleKeyDown_P s))
      then 0 else 1)
  /\ (forall (s : State F) (k : Keys) (ks : list Keys),
      gToggleKeyDown_P s = false ->
      KEY_P k = true -> (forall k', In k' ks -> KEY_P k' = true) ->
      entries_into false (bOrthographicProjection s) (modes_after (k :: ks) s) =
      if bOrthographicProjection s then 1 else 0)
  /\ (forall (s : State F) (k : Keys) (ks : list Keys),
      KEY_O k = true -> (forall k', In k' ks -> KEY_O k' = true) ->
      entries_into true (bOrthographicProjection (ProcessKeyboardEvents k s))
        (modes_after ks (ProcessKeyboardEvents k s)) = 0)
  /\ (forall (s : State F) (k : Keys) (ks : list Keys),
      KEY_P k = true -> (forall k', In k' ks -> KEY_P k' = true) ->
      entries_into false (bOrthographicProjection (ProcessKeyboardEvents k s))
        (modes_after ks (ProcessKeyboardEvents k s)) = 0)
  /\ (forall (s : State F) (k : Keys),
      gToggleKeyDown_P s = false -> KEY_P k = true ->
      bOrthographicProjection (ProcessKeyboardEvents k s) = false)
  /\ (forall (s : State F) (k : Keys),
      gToggleKeyDown_O s = false -> KEY_O k = true ->
      bOrthographicProjection (ProcessKeyboardEvents k s) =
      negb (KEY_P k && negb (gToggleKeyDown_P s))).
Proof.
  repeat apply conj.
  - intros s ks. apply modes_follow_edges.
  - intros s k. apply keyboard_flags.
  - intros s k ks Hf HO Hk. cbn [modes_after entries_into].
    rewrite (no_entry_while_O_held ks (ProcessKeyboardEvents k s)).
    + rewrite keyboard_mode, Hf, HO. cbn [negb andb].
      destruct (bOrthographicProjection s), (KEY_P k && negb (gToggleKeyDown_P s));
        reflexivity.
    + destruct (keyboard_flags k s) as [E _]. rewrite E. exact HO.
    + exact Hk.
  - intros s k ks Hf HP Hk. cbn [modes_after entries_into].
    rewrite (no_entry_while_P_held ks (ProcessKeyboardEvents k s)).
    + rewrite keyboard_mode, Hf, HP. cbn [negb andb].
      destruct (bOrthographicProjection s); reflexivity.
    + destruct (keyboard_flags k s) as [_ E]. rewrite E. exact HP.
    + exact Hk.
  - intros s k ks HO Hk. apply no_entry_while_O_held; trivial.
    destruct (keyboard_flags k s) as [E _]. rewrite E. exact HO.
  - intros s k ks HP Hk. apply no_entry_while_P_held; trivial.
    destruct (keyboard_flags k s) as [_ E]. rewrite E. exact HP.
  - intros s k Hf HP. rewrite keyboard_mode, Hf, HP. reflexivity.
  - intros s k Hf HO. rewrite keyboard_mode, Hf, HO. cbn [negb andb].
    destruct (KEY_P k && negb (gToggleKeyDown_P s)); reflexivity.
Qed.

End Toggles.

(** The enter-perspective key is debounced too: held from the first
    poll on, it does not undo the enter-orthographic key pressed at the
    second poll.  And the enter-orthographic key held alone over three
    polls enters Orthographic once. *)
Lemma mode_toggles_edge_triggered_witness :
  let s := started NULL in
  modes_after (FO := binary32_ops (lm := series_libm))
    [key_P; keys_O_P; keys_O_P] s = [false; true; true]
  /\ entries_into true (bOrthographicProjection s)
       (modes_after (FO := binary32_ops (lm := series_libm))
          [key_O; keys_O_W; key_O] s) = 1.
Proof.
  cbv zeta.
  pose proof (mode_toggles_edge_triggered (FO := binary32_ops (lm := series_libm)))
    as [Hrule [_ [HO _]]].
  split.
  - rewrite Hrule. reflexivity.
  - rewrite (HO (started NULL) key_O [keys_O_W; key_O]).
    + reflexivity.
    + reflexivity.
    + reflexivity.
    + intros k [<-|[<-|[]]]; reflexivity.
Defined.

(** The enter-orthographic key held over three polls, from Perspective
    and not seen pressed before, does not bring the mode to
    Orthographic when the first of the polls also sees the
    enter-perspective key newly pressed: the mode is Perspective after
    every poll. *)
Lemma held_O_pressed_with_P_never_enters :
  let s := started NULL in
  let ks := [keys_O_P; key_O; key_O] in
  forallb KEY_O ks = true
  /\ bOrthographicProjection s = false
  /\ gToggleKeyDown_O s = false
  /\ modes_after (FO := binary32_ops (lm := series_libm)) ks s
     = [false; false; false]
  /\ entries_into true (bOrthographicProjection s)
       (modes_after (FO := binary32_ops (lm := series_libm)) ks s) = 0.
Proof. cbv zeta. repeat split; vm_compute; reflexivity. Qed.
Section Uploads.
Context {F D M : Type} {FO : FloatOps F D} {GO : GfxOps F M}.
Local Open Scope F_scope.

Lemma PrepareSceneView_uploads (t : D) (k : Keys) (s : State F) :
  snd (PrepareSceneView t k s) =
  shader_uploads (fst (scene_matrices (fst (PrepareSceneView t k s))))
                 (snd (scene_matrices (fst (PrepareSceneView t k s))))
                 (fst (PrepareSceneView t k s)).
Proof.
  rewrite PrepareSceneView_state.
  unfold PrepareSceneView. cbv zeta.
  destruct (scene_matrices _) as [view projection]. reflexivity.
Qed.

Lemma frame_keeps_shader (t : D) (k : Keys) (s : State F) :
  m_pShaderManager (fst (PrepareSceneView t k s)) = m_pShaderManager s.
Proof.
  rewrite PrepareSceneView_state.
  pose proof (keyboard_frame k
                (set_gLastFrame (f_cast t)
                   (set_gDeltaTime (f_cast t - gLastFrame s) s))) as H.
  cbv zeta in H. destruct H as (_ & _ & _ & _ & _ & _ & _ & E & _).
  exact E.
Qed.

Lemma poll_movement_commutes_with_shader (p : ptr) (k : Keys) (s : State F) :
  poll_movement k (set_m_pShaderManager p s)
  = set_m_pShaderManager p (poll_movement k s).
Proof.
  unfold poll_movement.
  destruct s as [sm wc [cp cf cu cz] lx ly fm dt lf ortho sp yaw pitch fo fp].
  simpl. destruct ortho; simpl; [reflexivity|].
  destruct (KEY_W k), (KEY_S k), (KEY_A k), (KEY_D k), (KEY_Q k), (KEY_E k);
    reflexivity.
Qed.

Lemma keyboard_commutes_with_shader (p : ptr) (k : Keys) (s : State F) :
  ProcessKeyboardEvents k (set_m_pShaderManager p s)
  = set_m_pShaderManager p (ProcessKeyboardEvents k s).
Proof.
  unfold ProcessKeyboardEvents.
  rewrite <- poll_movement_commutes_with_shader. f_equal.
  unfold poll_P, poll_O, poll_escape.
  destruct s as [sm wc cam lx ly fm dt lf ortho sp yaw pitch fo fp]. simpl.
  destruct (KEY_ESCAPE k), (KEY_O k), (KEY_P k), fo, fp; reflexivity.
Qed.

(** C6, amended.  On every frame whose shader manager is not null the
    update makes exactly three calls on it, in this order: the view
    matrix as "view", the projection matrix as "projection", the eye
    position as "viewPosition".  In Perspective mode (the mode after
    the keyboard poll of the frame) they are the view matrix of the
    camera, perspective (radians zoom, 1000/800, 0.1, 100.0) and the
    camera position; in Orthographic mode lookAt of the fixed eye
    (-2, 0.95, 8), the fixed target (-2, 0.95, -1) and the world up
    (0, 1, 0), ortho (-0.85 a, 0.85 a, -0.85, 0.85, 0.1, 100.0) with
    a = 1000/800, and the fixed eye. *)
Theorem uploads_of_frame (t : D) (k : Keys) (s : State F) :
  is_null (m_pShaderManager s) = false ->
  let s' := fst (PrepareSceneView t k s) in
  let ups := snd (PrepareSceneView t k s) in
  List.length ups = 3
  /\ (bOrthographicProjection s' = false ->
      ups = [ setMat4Value "view" (GetViewMatrix (g_pCamera s'));
              setMat4Value "projection"
                (perspective (f_radians (Zoom (g_pCamera s')))
                   (f_lit 1000 / f_lit 800) (f_lit 0.1) (f_lit 100.0));
              setVec3Value "viewPosition" (Position (g_pCamera s')) ])
  /\ (bOrthographicProjection s' = true ->
      ups = [ setMat4Value "view"
                (lookAt (mkvec3 (- f_lit 2.0) (f_lit 0.95) (f_lit 8.0))
                        (mkvec3 (- f_lit 2.0) (f_lit 0.95) (- f_lit 1.0))
                        (mkvec3 (f_lit 0.0) (f_lit 1.0) (f_lit 0.0)));
              setMat4Value "projection"
                (ortho (- f_lit 0.85 * (f_lit 1000 / f_lit 800))
                       (f_lit 0.85 * (f_lit 1000 / f_lit 800))
                       (- f_lit 0.85) (f_lit 0.85)
                       (f_lit 0.1) (f_lit 100.0));
              setVec3Value "viewPosition"
                (mkvec3 (- f_lit 2.0) (f_lit 0.95) (f_lit 8.0)) ]).
Proof.
  intros Hp. cbv zeta.
  rewrite PrepareSceneView_uploads.
  pose proof (frame_keeps_shader t k s) as Hs.
  set (s' := fst (PrepareSceneView t k s)) in *.
  unfold shader_uploads, scene_matrices. rewrite Hs, Hp. simpl negb. cbv iota.
  destruct (bOrthographicProjection s'); simpl;
    (split; [reflexivity|]); split; intros E; try discriminate; reflexivity.
Qed.

(** No entry point assigns the shader-manager pointer: a ViewManager
    constructed with a null pointer keeps it. *)
Lemma shader_manager_never_assigned (es : list (Event D)) (s : State F) :
  m_pShaderManager (run (GO := GO) es s) = m_pShaderManager s.
Proof.
  revert s. induction es as [|e es IH]; intros s; [reflexivity|].
  simpl. rewrite IH. destruct e as [x y|xo yo|t k]; simpl.
  - unfold Mouse_Position_Callback.
    destruct s as [sm wc cam lx ly fm dt lf ortho sp yaw pitch fo fp].
    destruct fm, ortho; simpl; repeat break_inner_if; reflexivity.
  - unfold Mouse_Scroll_Callback.
    destruct s as [sm wc cam lx ly fm dt lf ortho sp yaw pitch fo fp].
    simpl; repeat break_inner_if; reflexivity.
  - apply frame_keeps_shader.
Qed.

(** C10.  With a null shader manager the per-frame update makes no
    call on the shader manager, and it updates the state exactly as it
    does with any other shader manager: the frame clock advances and
    the keyboard is processed. *)
Theorem null_shader_manager_uploads_nothing (t : D) (k : Keys) (s : State F) :
  m_pShaderManager s = NULL ->
  snd (PrepareSceneView t k s) = []
  /\ (forall p,
        fst (PrepareSceneView t k (set_m_pShaderManager p s))
        = set_m_pShaderManager p (fst (PrepareSceneView t k s)))
  /\ fst (PrepareSceneView t k s)
     = ProcessKeyboardEvents k
         (set_gLastFrame (f_cast t) (set_gDeltaTime (f_cast t - gLastFrame s) s)).
Proof.
  intros Hp. split; [|split].
  - rewrite PrepareSceneView_uploads. unfold shader_uploads.
    rewrite frame_keeps_shader, Hp. reflexivity.
  - intros p. rewrite !PrepareSceneView_state.
    rewrite <- keyboard_commutes_with_shader. reflexivity.
  - apply PrepareSceneView_state.
Qed.

End Uploads.

Lemma uploads_of_frame_witness :
  let s := set_bOrthographicProjection true (started (Addr 1)) in
  is_null (m_pShaderManager s) = false
  /\ List.length (snd (PrepareSceneView (FO := binary32_ops (lm := series_libm))
                    (GO := call_gfx float) (d_of_Q 1) key_W s)) = 3.
Proof.
  cbv zeta. split; [reflexivity|].
  apply (uploads_of_frame (FO := binary32_ops (lm := series_libm))
           (GO := call_gfx float)).
  reflexivity.
Defined.

(** C6 as stated fails: with a null shader manager a frame makes no
    upload at all. *)
Lemma no_upload_without_shader_manager :
  snd (PrepareSceneView (FO := binary32_ops (lm := series_libm))
         (GO := call_gfx float) (d_of_Q 1) no_keys (started NULL)) = []
  /\ List.length (snd (PrepareSceneView (FO := binary32_ops (lm := series_libm))
                    (GO := call_gfx float) (d_of_Q 1) no_keys (started NULL))) <> 3.
Proof. split; [vm_compute; reflexivity | vm_compute; discriminate]. Qed.

Lemma null_shader_manager_uploads_nothing_witness :
  m_pShaderManager (started NULL) = NULL
  /\ snd (PrepareSceneView (FO := binary32_ops (lm := series_libm))
            (GO := call_gfx float) (d_of_Q 1) key_W (started NULL)) = [].
Proof.
  split; [reflexivity|].
  apply (null_shader_manager_uploads_nothing
           (FO := binary32_ops (lm := series_libm)) (GO := call_gfx float)).
  reflexivity.
Defined.

(** ** The first cursor sample *)

Section FirstSample.
Context {lm : Libm} {M : Type} {GO : GfxOps float M}.

Lemma SFsub_diag (x : float) :
  is_finite x = true -> SFsub prec32 emax32 x x = S754_zero false.
Proof.
  destruct x as [[|]|[|]| |s m e]; simpl; try discriminate; try reflexivity.
  intros _. rewrite Z.sub_diag. reflexivity.
Qed.

Lemma SFadd_zero_r (x : float) :
  SFadd prec32 emax32 x (S754_zero false)
  = match x with S754_zero true => S754_zero false | _ => x end.
Proof. destruct x as [[|]|[|]| |s m e]; reflexivity. Qed.

Lemma SFadd_zero_same_number (x : float) :
  same_number (SFadd prec32 emax32 x (S754_zero false)) x.
Proof.
  rewrite SFadd_zero_r. destruct x as [[|]|[|]| |s m e];
    try (left; reflexivity). right. reflexivity.
Qed.

Lemma leb_not_ltb (x y : spec_float) : SFleb x y = true -> SFltb y x = false.
Proof.
  unfold SFleb, SFltb. rewrite (SFcompare_swap x y).
  destruct (SFcompare x y) as [[ | | ]|]; simpl; congruence.
Qed.

Lemma zero_offset (x : float) :
  is_finite x = true ->
  SFmul prec32 emax32 (SFsub prec32 emax32 x x) (float_of_Q 0.10) = S754_zero false.
Proof. intros H. rewrite SFsub_diag; trivial. Qed.

(** C9, amended.  On the first cursor sample, when both coordinates
    are finite as floats: the last cursor position becomes the sample
    and the first-sample flag is cleared; the offsets are zero, so yaw
    keeps its value, and so does a pitch within the clamp; in
    Orthographic mode the camera is untouched; in Perspective mode
    position, up and zoom are untouched and front is assigned anew
    from the two angles. *)
Theorem first_sample_has_no_offset (x y : double) (s : State float) :
  gFirstMouse s = true ->
  is_finite (float_of_double x) = true ->
  is_finite (float_of_double y) = true ->
  let s' := Mouse_Position_Callback x y s in
  (gLastX s' = float_of_double x /\ gLastY s' = float_of_double y
   /\ gFirstMouse s' = false)
  /\ same_number (gYaw s') (gYaw s)
  /\ (in_range pitch_lo pitch_hi (gPitch s) = true ->
      same_number (gPitch s') (gPitch s))
  /\ (bOrthographicProjection s = true ->
      g_pCamera s' = g_pCamera s /\ gYaw s' = gYaw s /\ gPitch s' = gPitch s)
  /\ (bOrthographicProjection s = false ->
      Front (g_pCamera s') = front_of_angles (gYaw s') (gPitch s')
      /\ Position (g_pCamera s') = Position (g_pCamera s)
      /\ Up (g_pCamera s') = Up (g_pCamera s)
      /\ Zoom (g_pCamera s') = Zoom (g_pCamera s)).
Proof.
  intros Hf Hx Hy. cbv zeta.
  pose proof (cursor_effect x y s) as H. cbv zeta in H.
  destruct H as ((E1 & E2 & E3 & _) & Hort & Hper).
  split; [auto|].
  split.
  { rewrite cursor_yaw, Hf.
    destruct (bOrthographicProjection s); [left; reflexivity|].
    cbv zeta. rewrite zero_offset; trivial. apply SFadd_zero_same_number. }
  split.
  { intros Hp. rewrite cursor_pitch, Hf.
    destruct (bOrthographicProjection s); [left; reflexivity|].
    cbv zeta. rewrite zero_offset; trivial.
    assert (Hr : in_range pitch_lo pitch_hi
                   (SFadd prec32 emax32 (gPitch s) (S754_zero false)) = true).
    { rewrite SFadd_zero_r. destruct (gPitch s) as [[|]|[|]| |s0 m e]; trivial. }
    unfold in_range in Hr. apply andb_prop in Hr. destruct Hr as [H1 H2].
    rewrite (leb_not_ltb _ _ H2), (leb_not_ltb _ _ H1).
    apply SFadd_zero_same_number. }
  split; [exact Hort|].
  intros Hm. destruct (Hper Hm) as (Ey & Ep & Ef & Rest).
  rewrite Ey, Ep. split; [exact Ef | exact Rest].
Qed.

End FirstSample.

Lemma first_sample_has_no_offset_witness :
  let s' := Mouse_Position_Callback (FO := binary32_ops (lm := series_libm))
              (d_of_Q 640) (d_of_Q 75) (started NULL) in
  gFirstMouse (started NULL) = true
  /\ is_finite (float_of_double (d_of_Q 640)) = true
  /\ is_finite (float_of_double (d_of_Q 75)) = true
  /\ gLastX s' = float_of_double (d_of_Q 640)
  /\ gLastY s' = float_of_double (d_of_Q 75)
  /\ gFirstMouse s' = false.
Proof.
  cbv zeta.
  split; [reflexivity|].
  split; [vm_compute; reflexivity|].
  split; [vm_compute; reflexivity|].
  refine (proj1 (first_sample_has_no_offset (lm := series_libm)
                   (d_of_Q 640) (d_of_Q 75) (started NULL) _ _ _));
    vm_compute; reflexivity.
Defined.

(** C9 as stated fails, in Perspective mode, twice over.  A first
    sample at (500, 400) replaces the front vector (0, -0.5, -2) of
    the constructor by a unit vector computed from the angles.  A
    first sample whose horizontal coordinate is the double 2^128, or an
    infinity, is cast to +infinity, its offset is
    infinity - infinity, and yaw, which was -180, becomes a NaN. *)
Lemma first_sample_changes_front_and_yaw :
  Front (g_pCamera (Mouse_Position_Callback (FO := binary32_ops (lm := series_libm))
                      (d_of_Q 500) (d_of_Q 400) (started NULL)))
  <> Front (g_pCamera (started NULL))
  /\ gYaw (started NULL) = SFopp (float_of_Q 180)
  /\ gYaw (Mouse_Position_Callback (FO := binary32_ops (lm := series_libm))
             two_pow_128 (d_of_Q 400) (started NULL)) = S754_nan
  /\ gYaw (Mouse_Position_Callback (FO := binary32_ops (lm := series_libm))
             (S754_infinity false) (d_of_Q 400) (started NULL)) = S754_nan.
Proof.
  split; [vm_compute; discriminate|].
  repeat split; vm_compute; reflexivity.
Qed.

(** ** Rounding in binary32 *)

Section Rounding32.
Local Open Scope Z_scope.

Lemma fexp32_eq (x : Z) : fexp prec32 emax32 x = fexp32 x.
Proof. reflexivity. Qed.

Lemma digits2_pos_bounds (p : positive) :
  2 ^ (Zpos (digits2_pos p) - 1) <= Zpos p < 2 ^ Zpos (digits2_pos p).
Proof.
  induction p as [p IH|p IH|]; cbn [digits2_pos].
  - rewrite Pos2Z.inj_succ. change (Zpos p~1) with (2 * Zpos p + 1).
    replace (Z.succ (Zpos (digits2_pos p)) - 1) with (Z.succ (Zpos (digits2_pos p) - 1)) by lia.
    rewrite !Z.pow_succ_r by lia. lia.
  - rewrite Pos2Z.inj_succ. change (Zpos p~0) with (2 * Zpos p).
    replace (Z.succ (Zpos (digits2_pos p)) - 1) with (Z.succ (Zpos (digits2_pos p) - 1)) by lia.
    rewrite !Z.pow_succ_r by lia. lia.
  - simpl. lia.
Qed.

Lemma pow2_lt_inv (a b : Z) : 0 <= a -> 0 <= b -> 2 ^ a < 2 ^ b -> a < b.
Proof. intros Ha Hb H. apply (Z.pow_lt_mono_r_iff 2); lia. Qed.

(** The number of digits is determined by the two powers of two the
    number lies between. *)
Lemma digits2_pos_unique (p : positive) (d : Z) :
  0 < d -> 2 ^ (d - 1) <= Zpos p < 2 ^ d -> Zpos (digits2_pos p) = d.
Proof.
  intros Hd [L U]. destruct (digits2_pos_bounds p) as [L' U'].
  assert (H1 : d - 1 < Zpos (digits2_pos p)).
  { apply pow2_lt_inv; lia. }
  assert (H2 : Zpos (digits2_pos p) - 1 < d).
  { apply pow2_lt_inv; lia. }
  lia.
Qed.

Lemma shr_1_spec (m : Z) (r s : bool) :
  0 <= m ->
  shr_1 (Build_shr_record m r s) =
  Build_shr_record (m / 2) (Z.odd m) (r || s).
Proof.
  intros Hm. destruct m as [|[p|p|]|]; try lia; cbn [shr_1]; f_equal;
    try reflexivity.
  - change (Zpos p~1) with (2 * Zpos p + 1).
    apply Z.div_unique with 1; lia.
  - change (Zpos p~0) with (2 * Zpos p).
    apply Z.div_unique with 0; lia.
Qed.

Lemma iter_pos_nat (A : Type) (f : A -> A) (p : positive) (x : A) :
  iter_pos f p x = Nat.iter (Pos.to_nat p) f x.
Proof.
  revert x. induction p as [p IH|p IH|]; intros x; cbn [iter_pos].
  - rewrite !IH, Pos2Nat.inj_xI.
    replace (S (2 * Pos.to_nat p)) with (Pos.to_nat p + (Pos.to_nat p + 1))%nat by lia.
    rewrite !Nat.iter_add. reflexivity.
  - rewrite !IH, Pos2Nat.inj_xO.
    replace (2 * Pos.to_nat p)%nat with (Pos.to_nat p + Pos.to_nat p)%nat by lia.
    rewrite Nat.iter_add. reflexivity.
  - reflexivity.
Qed.

(** What [k] shifts to the right leave of [m]: the quotient by [2^k],
    and a round and a sticky bit that place the remainder with respect
    to the half of [2^k]. *)
Lemma shr_iter_spec (m : Z) (k : nat) :
  0 <= m ->
  let mrs := Nat.iter k shr_1 (Build_shr_record m false false) in
  exists rem,
    m = shr_m mrs * 2 ^ Z.of_nat k + rem
    /\ 0 <= rem < 2 ^ Z.of_nat k
    /\ 0 <= shr_m mrs
    /\ (shr_r mrs = true <-> 2 ^ Z.of_nat k <= 2 * rem)
    /\ (shr_s mrs = false -> rem = 0 \/ 2 * rem = 2 ^ Z.of_nat k).
Proof.
  intros Hm. cbv zeta. induction k as [|k IH].
  - exists 0. simpl. repeat split; try lia; try discriminate; auto.
  - destruct IH as [rem [E [Hr [Hq [Hrb Hsb]]]]].
    rewrite Nat.iter_succ.
    destruct (Nat.iter k shr_1 (Build_shr_record m false false)) as [q r s].
    cbn [shr_m shr_r shr_s] in *.
    rewrite shr_1_spec by exact Hq. cbn [shr_m shr_r shr_s].
    rewrite Nat2Z.inj_succ, Z.pow_succ_r by lia.
    set (P := 2 ^ Z.of_nat k) in *.
    assert (HP : 0 < P) by (apply Z.pow_pos_nonneg; lia).
    exists ((if Z.odd q then P else 0) + rem).
    assert (Eq : q = 2 * (q / 2) + (if Z.odd q then 1 else 0)).
    { rewrite (Z.div_mod q 2) at 1 by lia. rewrite Zmod_odd. reflexivity. }
    destruct (Z.odd q).
    + repeat split; try nia; try (apply Z.div_pos; lia).
      * intros Hs. apply orb_false_iff in Hs. destruct Hs as [-> ->].
        destruct (Hsb eq_refl) as [R0|RH]; [right; lia|].
        assert (false = true) by (apply Hrb; lia). discriminate.
    + repeat split; try nia; try (apply Z.div_pos; lia); try discriminate.
      * intros Hs. apply orb_false_iff in Hs. destruct Hs as [-> ->].
        destruct (Hsb eq_refl) as [R0|RH]; [left; lia|].
        assert (false = true) by (apply Hrb; lia). discriminate.
Qed.

(** Rounding the shifted mantissa to nearest, ties to even, is off by
    at most half of [2^k]. *)
Lemma round_shifted (m : Z) (k : nat) :
  0 <= m ->
  let mrs := Nat.iter k shr_1 (Build_shr_record m false false) in
  let m1 := round_nearest_even (shr_m mrs) (loc_of_shr_record mrs) in
  exists q,
    0 <= q
    /\ q * 2 ^ Z.of_nat k <= m < (q + 1) * 2 ^ Z.of_nat k
    /\ (m1 = q \/ m1 = q + 1)
    /\ 2 * Z.abs (m - m1 * 2 ^ Z.of_nat k) <= 2 ^ Z.of_nat k
    /\ (k = 0%nat -> m1 = m).
Proof.
  intros Hm. cbv zeta.
  destruct (shr_iter_spec k Hm) as [rem [E [Hr [Hq [Hrb Hsb]]]]].
  destruct (Nat.iter k shr_1 (Build_shr_record m false false)) as [q r s].
  cbn [shr_m shr_r shr_s] in *.
  set (P := 2 ^ Z.of_nat k) in *.
  assert (HP : 0 < P) by (apply Z.pow_pos_nonneg; lia).
  assert (K0 : k = 0%nat -> P = 1) by (intros ->; reflexivity).
  exists q. split; [exact Hq|]. split; [nia|].
  destruct r, s; cbn [loc_of_shr_record round_nearest_even].
  - assert (2 * rem >= P) by (apply Z.le_ge, Hrb; reflexivity).
    split; [right; reflexivity|]. split; [lia|].
    intros Hk. specialize (K0 Hk). lia.
  - assert (2 * rem >= P) by (apply Z.le_ge, Hrb; reflexivity).
    assert (2 * rem = P) by (destruct (Hsb eq_refl); lia).
    destruct (Z.even q).
    + split; [left; reflexivity|]. split; [lia|].
      intros Hk. specialize (K0 Hk). lia.
    + split; [right; reflexivity|]. split; [lia|].
      intros Hk. specialize (K0 Hk). lia.
  - assert (~ P <= 2 * rem) by (intros H; apply Hrb in H; discriminate).
    split; [left; reflexivity|]. split; [lia|].
    intros Hk. specialize (K0 Hk). lia.
  - assert (~ P <= 2 * rem) by (intros H; apply Hrb in H; discriminate).
    assert (rem = 0) by (destruct (Hsb eq_refl); lia).
    split; [left; reflexivity|]. split; [lia|].
    intros Hk. specialize (K0 Hk). lia.
Qed.

Lemma shr_as_iter (mrs : shr_record) (e k : Z) :
  0 <= k -> shr mrs e k = (Nat.iter (Z.to_nat k) shr_1 mrs, e + k).
Proof.
  intros Hk. destruct k as [|p|p]; try lia; cbn [shr].
  - simpl. f_equal. lia.
  - rewrite iter_pos_nat. reflexivity.
Qed.

Lemma fexp32_ge (x : Z) : -149 <= fexp32 x.
Proof. unfold fexp32. lia. Qed.

Lemma Zdigits2_pos (m : Z) :
  0 < m -> 0 < Zdigits2 m /\ 2 ^ (Zdigits2 m - 1) <= m < 2 ^ Zdigits2 m.
Proof.
  destruct m as [|p|p]; try lia. intros _. cbn [Zdigits2].
  split; [lia|apply digits2_pos_bounds].
Qed.

Lemma pow2_le_inv (a b : Z) : 0 <= a -> 0 <= b -> 2 ^ a <= 2 ^ b -> a <= b.
Proof. intros Ha Hb H. apply (Z.pow_le_mono_r_iff 2); lia. Qed.

(** Rounding the number [m * 2^e] to binary32, when its last place is
    not below the exponent [e]: the mantissa is cut at the exponent
    [fexp32] gives and rounded to nearest. *)
Lemma binary_round_aux_spec (sx : bool) (m : positive) (e : Z) :
  let e1 := fexp32 (Zpos (digits2_pos m) + e) in
  e <= e1 ->
  exists m1,
    0 <= m1 <= 2 ^ 24
    /\ (-149 < e1 -> 2 ^ 23 <= m1)
    /\ 2 * Z.abs (Zpos m - m1 * 2 ^ (e1 - e))
       <= (if e <? e1 then 2 ^ (e1 - e) else 0)
    /\ binary_round_aux prec32 emax32 sx (Zpos m) e loc_Exact
       = rounded32 sx m1 e1.
Proof.
  cbv zeta. set (d := Zpos (digits2_pos m)). set (e1 := fexp32 (d + e)).
  intros He.
  pose proof (digits2_pos_bounds m) as Hd. fold d in Hd.
  assert (Hd0 : 0 < d) by (unfold d; lia).
  set (k := e1 - e). assert (Hk : 0 <= k) by (unfold k; lia).
  unfold binary_round_aux, shr_fexp.
  cbn [Zdigits2 shr_record_of_loc]. rewrite fexp32_eq. fold d e1 k.
  rewrite (shr_as_iter _ e Hk).
  replace (e + k) with e1 by (unfold k; lia).
  destruct (@round_shifted (Zpos m) (Z.to_nat k) ltac:(lia))
    as [q [Hq [Hqm [Hm1 [Herr Hk0]]]]].
  rewrite Z2Nat.id in Hqm, Herr by exact Hk.
  set (m1 := round_nearest_even
               (shr_m (Nat.iter (Z.to_nat k) shr_1
                         (Build_shr_record (Zpos m) false false)))
               (loc_of_shr_record
                  (Nat.iter (Z.to_nat k) shr_1
                     (Build_shr_record (Zpos m) false false)))) in *.
  set (P := 2 ^ k) in *.
  assert (HP : 0 < P) by (apply Z.pow_pos_nonneg; lia).
  assert (He1 : -149 <= e1) by apply fexp32_ge.
  (* the size of the rounded mantissa *)
  assert (Hsize : 0 <= m1 <= 2 ^ 24 /\ (-149 < e1 -> 2 ^ 23 <= m1)).
  { unfold e1, fexp32 in *.
    destruct (Z.max_spec (d + e - 24) (-149)) as [[Hlt Hmax]|[Hge Hmax]].
    - (* subnormal: the last place is 2^-149 *)
      fold e1 in Hmax. split; [|lia].
      destruct (Z_lt_le_dec d k) as [Hdk|Hdk].
      + assert (2 ^ d <= P).
        { unfold P. apply Z.pow_le_mono_r; lia. }
        assert (q = 0) by nia.
        change (2 ^ 24) with 16777216. lia.
      + assert (E : 2 ^ d = 2 ^ (d - k) * P).
        { unfold P. rewrite <- Z.pow_add_r by lia. f_equal. lia. }
        assert (2 ^ (d - k) <= 2 ^ 23).
        { apply Z.pow_le_mono_r; lia. }
        assert (q < 2 ^ (d - k)) by nia.
        change (2 ^ 24) with 16777216. change (2 ^ 23) with 8388608 in *. lia.
    - (* normal: the mantissa has 24 bits *)
      fold e1 in Hmax.
      assert (Ek : d = 24 + k) by (unfold k; lia).
      assert (E1 : 2 ^ d = 2 ^ 24 * P).
      { unfold P. rewrite <- Z.pow_add_r by lia. f_equal. lia. }
      assert (E2 : 2 ^ (d - 1) = 2 ^ 23 * P).
      { unfold P. rewrite <- Z.pow_add_r by lia. f_equal. lia. }
      rewrite E1, E2 in Hd.
      change (2 ^ 24) with 16777216 in *. change (2 ^ 23) with 8388608 in *.
      assert (q < 16777216) by nia.
      assert (8388608 <= q + 1) by nia.
      assert (8388608 <= q \/ q + 1 = 8388608) by lia.
      split; [lia|]. intros _.
      destruct Hm1 as [->| ->]; [|lia].
      destruct (Z.eq_dec (q + 1) 8388608) as [Eq|]; [|lia].
      (* q = 2^23 - 1 rounded down: the number is at least 2^23 * P *)
      exfalso. assert (q = 8388607) by lia. subst q. nia. }
  exists m1. split; [apply Hsize|]. split; [apply Hsize|].
  split.
  { fold k. destruct (Z.ltb_spec e e1) as [L|L]; [exact Herr|].
    assert (k = 0) by (unfold k; lia).
    assert (Z.to_nat k = 0%nat) by lia.
    assert (P1 : P = 1) by (unfold P; rewrite H; reflexivity).
    rewrite (Hk0 H0), P1. lia. }
  (* the second normalisation *)
  destruct Hsize as [[Hm1lo Hm1hi] Hnorm].
  unfold rounded32.
  destruct m1 as [|p1|p1] eqn:Em1; try lia.
  - cbn [Zdigits2]. rewrite fexp32_eq.
    assert (fexp32 (0 + e1) - e1 <= 0) by (unfold fexp32; lia).
    destruct (fexp32 (0 + e1) - e1) as [|z|z] eqn:Ez; try lia; reflexivity.
  - destruct (Z.eqb_spec (Zpos p1) (2 ^ 24)) as [E24|N24].
    + injection E24 as ->. cbn [Zdigits2]. rewrite fexp32_eq.
      change (Zpos (digits2_pos 16777216)) with 25.
      replace (fexp32 (25 + e1) - e1) with 1 by (unfold fexp32; lia).
      cbn. unfold finite_or_overflow.
      change (emax32 - prec32) with 104.
      replace (e1 + 1 <=? 104) with (e1 + 1 <=? 104) by reflexivity.
      destruct (e1 + 1 <=? 104); reflexivity.
    + cbn [Zdigits2]. rewrite fexp32_eq.
      pose proof (digits2_pos_bounds p1) as Hd1.
      assert (Hd1' : Zpos (digits2_pos p1) <= 24).
      { assert (Zpos (digits2_pos p1) - 1 < 24); [|lia].
        apply pow2_lt_inv; lia. }
      assert (Hfe : fexp32 (Zpos (digits2_pos p1) + e1) - e1 = 0).
      { unfold fexp32.
        destruct (Z.eq_dec e1 (-149)) as [->|Hne]; [lia|].
        assert (Hn : 2 ^ 23 <= Zpos p1) by (apply Hnorm; lia).
        assert (23 < Zpos (digits2_pos p1)) by (apply pow2_lt_inv; lia).
        lia. }
      rewrite Hfe. cbn [shr shr_m]. unfold finite_or_overflow.
      change (emax32 - prec32) with 104. reflexivity.
Qed.

Lemma canonical32 (p : positive) (e1 : Z) :
  Zpos p < 2 ^ 24 -> -149 <= e1 -> (-149 < e1 -> 2 ^ 23 <= Zpos p) ->
  fexp32 (Zpos (digits2_pos p) + e1) = e1.
Proof.
  intros Hp He Hn.
  pose proof (digits2_pos_bounds p) as Hd1.
  assert (Hd1' : Zpos (digits2_pos p) <= 24).
  { assert (Zpos (digits2_pos p) - 1 < 24); [|lia].
    apply pow2_lt_inv; lia. }
  unfold fexp32.
  destruct (Z.eq_dec e1 (-149)) as [->|Hne]; [lia|].
  assert (2 ^ 23 <= Zpos p) by (apply Hn; lia).
  assert (23 < Zpos (digits2_pos p)) by (apply pow2_lt_inv; lia).
  lia.
Qed.

Lemma canonical32_inv (p : positive) (e : Z) :
  canonical_mantissa prec32 emax32 p e = true ->
  Zpos p < 2 ^ 24 /\ -149 <= e /\ (-149 < e -> 2 ^ 23 <= Zpos p)
  /\ fexp32 (Zpos (digits2_pos p) + e) = e.
Proof.
  unfold canonical_mantissa. rewrite fexp32_eq. intros H.
  apply Z.eqb_eq in H.
  pose proof (digits2_pos_bounds p) as Hd.
  unfold fexp32 in *.
  assert (Hd24 : Zpos (digits2_pos p) <= 24) by lia.
  assert (2 ^ Zpos (digits2_pos p) <= 2 ^ 24) by (apply Z.pow_le_mono_r; lia).
  split; [lia|]. split; [lia|]. split; [|exact H].
  intros He. assert (Zpos (digits2_pos p) = 24) by lia.
  rewrite H1 in Hd. exact (proj1 Hd).
Qed.

End Rounding32.

(** *** The real numbers behind the floats *)

Section Values32.
Local Open Scope R_scope.

Lemma pow2_pos (e : Z) : 0 < pow2 e.
Proof. unfold pow2. apply powerRZ_lt. lra. Qed.

Lemma pow2_add (a b : Z) : pow2 (a + b) = pow2 a * pow2 b.
Proof. unfold pow2. apply powerRZ_add. lra. Qed.

Lemma pow2_IZR (k : Z) : (0 <= k)%Z -> pow2 k = IZR (2 ^ k).
Proof.
  intros Hk. unfold pow2.
  rewrite <- (Z2Nat.id k) by exact Hk.
  rewrite <- pow_powerRZ, pow_IZR. reflexivity.
Qed.

Lemma pow2_lt (a b : Z) : (a < b)%Z -> pow2 a < pow2 b.
Proof.
  intros H. replace b with (a + (b - a))%Z by lia.
  rewrite pow2_add.
  assert (1 < pow2 (b - a)).
  { rewrite pow2_IZR by lia. apply IZR_lt.
    apply (Z.pow_gt_1 2); lia. }
  pose proof (pow2_pos a). nra.
Qed.

Lemma pow2_le (a b : Z) : (a <= b)%Z -> pow2 a <= pow2 b.
Proof.
  intros H. destruct (Z.eq_dec a b) as [->|N]; [lra|].
  apply Rlt_le, pow2_lt. lia.
Qed.

Lemma pow2_lt_inv_R (a b : Z) : pow2 a < pow2 b -> (a < b)%Z.
Proof.
  intros H. destruct (Z_lt_le_dec a b) as [L|L]; [exact L|].
  pose proof (@pow2_le b a L). lra.
Qed.

Lemma pow2_succ (a : Z) : pow2 (a + 1) = 2 * pow2 a.
Proof. rewrite pow2_add. unfold pow2 at 2. simpl. lra. Qed.

Lemma Rabs_sign (b : bool) : Rabs (if b then -1 else 1) = 1.
Proof. destruct b; unfold Rabs; destruct (Rcase_abs _); lra. Qed.

(** The sign of a float as a factor. *)
Lemma value_finite (s : bool) (m : positive) (e : Z) :
  value (S754_finite s m e) = (if s then -1 else 1) * (IZR (Zpos m) * pow2 e).
Proof. unfold value. destruct s; lra. Qed.

Lemma finite_is_number32 (s : bool) (p : positive) (e : Z) :
  (Zpos p < 2 ^ 24)%Z -> (-149 <= e <= 104)%Z ->
  (-149 < e -> 2 ^ 23 <= Zpos p)%Z ->
  is_number32 (S754_finite s p e) = true.
Proof.
  intros Hp He Hn. unfold is_number32, is_finite, valid_binary, bounded,
    canonical_mantissa.
  rewrite fexp32_eq, (@canonical32 p e Hp (proj1 He) Hn), Z.eqb_refl.
  change (emax32 - prec32)%Z with 104%Z.
  destruct (Z.leb_spec e 104); [reflexivity|lia].
Qed.

(** Rounding [m * 2^e] to binary32, in real numbers: below [2^127]
    the result is a number, off by at most [2^-24] of the value, or by
    [2^-150] when the value was given with places below [2^-149]. *)
Lemma round32_real (sx : bool) (m : positive) (e : Z) :
  (e <= fexp32 (Zpos (digits2_pos m) + e))%Z ->
  IZR (Zpos m) * pow2 e < pow2 127 ->
  let r := binary_round_aux prec32 emax32 sx (Zpos m) e loc_Exact in
  is_number32 r = true
  /\ Rabs (value r - (if sx then -1 else 1) * (IZR (Zpos m) * pow2 e))
     <= pow2 (-24) * (IZR (Zpos m) * pow2 e)
        + (if (e <? -149)%Z then pow2 (-150) else 0).
Proof.
  intros He Hv. cbv zeta.
  destruct (@binary_round_aux_spec sx m e He) as [m1 [[H0 H24] [Hn [Herr Hr]]]].
  rewrite Hr. clear Hr.
  set (d := Zpos (digits2_pos m)) in *.
  set (e1 := fexp32 (d + e)) in *.
  set (v := IZR (Zpos m) * pow2 e) in *.
  pose proof (digits2_pos_bounds m) as Hd. fold d in Hd.
  assert (He1 : (-149 <= e1)%Z) by apply fexp32_ge.
  assert (Hk : (0 <= e1 - e)%Z) by lia.
  pose proof (pow2_pos e) as Pe.
  assert (Hv0 : 0 < v).
  { unfold v. apply Rmult_lt_0_compat; [apply IZR_lt; lia|exact Pe]. }
  (* the error, in real numbers *)
  assert (Ev : v - IZR m1 * pow2 e1
               = IZR (Zpos m - m1 * 2 ^ (e1 - e)) * pow2 e).
  { unfold v. replace e1 with (e + (e1 - e))%Z at 1 by lia.
    rewrite pow2_add, (@pow2_IZR (e1 - e) Hk), minus_IZR, mult_IZR. ring. }
  assert (Habs : Rabs (v - IZR m1 * pow2 e1)
                 <= pow2 (-24) * v + (if (e <? -149)%Z then pow2 (-150) else 0)).
  { rewrite Ev, Rabs_mult, (Rabs_pos_eq (pow2 e)) by lra.
    rewrite <- abs_IZR.
    destruct (Z.ltb_spec e e1) as [L|L].
    - assert (B : 2 * IZR (Z.abs (Zpos m - m1 * 2 ^ (e1 - e))) <= pow2 (e1 - e)).
      { rewrite (@pow2_IZR (e1 - e) Hk). rewrite <- mult_IZR. apply IZR_le. exact Herr. }
      assert (B' : IZR (Z.abs (Zpos m - m1 * 2 ^ (e1 - e))) * pow2 e
                   <= pow2 (e1 - 1)).
      { replace (e1 - 1)%Z with ((e1 - e) + e + -1)%Z by lia.
        rewrite !pow2_add. change (pow2 (-1)) with (powerRZ 2 (-1)).
        simpl powerRZ.
        pose proof (pow2_pos (e1 - e)). nra. }
      unfold e1, fexp32 in *.
      destruct (Z.max_spec (d + e - 24) (-149)) as [[Hlt Hmax]|[Hge Hmax]];
        rewrite Hmax in *.
      + destruct (Z.ltb_spec e (-149)); [|lia].
        pose proof (pow2_pos (-24)). change (-149 - 1)%Z with (-150)%Z in B'.
        nra.
      + assert (Lv : pow2 (d - 1) * pow2 e <= v).
        { unfold v. rewrite (@pow2_IZR (d - 1)) by lia.
          apply Rmult_le_compat_r; [lra|]. apply IZR_le. lia. }
        replace (d + e - 24 - 1)%Z with (-24 + ((d - 1) + e))%Z in B' by lia.
        rewrite !pow2_add in B'.
        pose proof (pow2_pos (-24)).
        assert (0 <= (if (e <? -149)%Z then pow2 (-150) else 0)).
        { destruct (e <? -149)%Z; [apply Rlt_le, pow2_pos|lra]. }
        nra.
    - assert (Z.abs (Zpos m - m1 * 2 ^ (e1 - e)) = 0%Z) by lia.
      rewrite H. rewrite Rmult_0_l.
      pose proof (pow2_pos (-24)).
      assert (0 <= (if (e <? -149)%Z then pow2 (-150) else 0)).
      { destruct (e <? -149)%Z; [apply Rlt_le, pow2_pos|lra]. }
      nra. }
  (* the result is below 2^128 *)
  assert (Hv1 : IZR m1 * pow2 e1 < pow2 128).
  { assert (T : pow2 (-24) * v
                + (if (e <? -149)%Z then pow2 (-150) else 0) < pow2 127).
    { assert (pow2 (-24) * v < pow2 (-24) * pow2 127).
      { apply Rmult_lt_compat_l; [apply pow2_pos|exact Hv]. }
      rewrite <- pow2_add in H. change (-24 + 127)%Z with 103%Z in H.
      assert ((if (e <? -149)%Z then pow2 (-150) else 0) <= pow2 103).
      { destruct (e <? -149)%Z; [apply pow2_le; lia|apply Rlt_le, pow2_pos]. }
      assert (2 * pow2 103 < pow2 127).
      { rewrite <- pow2_succ. apply pow2_lt. lia. }
      lra. }
    pose proof (Rabs_def2 _ _ (Rle_lt_trans _ _ _ Habs T)) as [A1 A2].
    change 128%Z with (127 + 1)%Z. rewrite pow2_succ. lra. }
  unfold rounded32.
  destruct m1 as [|p1|p1] eqn:Em1; try lia.
  - split; [reflexivity|].
    cbn [value]. rewrite Rmult_0_l in Habs.
    destruct sx.
    + replace (0 - -1 * v) with (v - 0) by ring. exact Habs.
    + replace (0 - 1 * v) with (- (v - 0)) by ring. rewrite Rabs_Ropp. exact Habs.
  - destruct (Z.eqb_spec (Zpos p1) (2 ^ 24)) as [E24|N24].
    + injection E24 as ->.
      assert (Hex : (e1 + 1 <= 104)%Z).
      { change (IZR 16777216) with (IZR (2 ^ 24)) in Hv1.
        rewrite <- (@pow2_IZR 24) in Hv1 by lia.
        rewrite <- pow2_add in Hv1. apply pow2_lt_inv_R in Hv1. lia. }
      unfold finite_or_overflow.
      destruct (Z.leb_spec (e1 + 1) 104) as [_|]; [|lia].
      split; [apply finite_is_number32; simpl; lia|].
      rewrite value_finite.
      replace (IZR (Zpos (2 ^ 23)) * pow2 (e1 + 1))
        with (IZR 16777216 * pow2 e1).
      2:{ rewrite pow2_succ. change (Zpos (2 ^ 23)) with 8388608%Z.
          rewrite <- Rmult_assoc, <- mult_IZR. reflexivity. }
      destruct sx.
      * replace (-1 * (IZR 16777216 * pow2 e1) - -1 * v)
          with (v - IZR 16777216 * pow2 e1) by ring. exact Habs.
      * replace (1 * (IZR 16777216 * pow2 e1) - 1 * v)
          with (- (v - IZR 16777216 * pow2 e1)) by ring.
        rewrite Rabs_Ropp. exact Habs.
    + assert (Hex : (e1 <= 104)%Z).
      { destruct (Z.eq_dec e1 (-149)) as [->|Hne]; [lia|].
        assert (Hm : (2 ^ 23 <= Zpos p1)%Z) by (apply Hn; lia).
        assert (Lo : pow2 23 * pow2 e1 <= IZR (Zpos p1) * pow2 e1).
        { apply Rmult_le_compat_r; [apply Rlt_le, pow2_pos|].
          rewrite pow2_IZR by lia. apply IZR_le. exact Hm. }
        rewrite <- pow2_add in Lo.
        assert (Up : pow2 (23 + e1) < pow2 128) by lra.
        apply pow2_lt_inv_R in Up. lia. }
      unfold finite_or_overflow.
      destruct (Z.leb_spec e1 104) as [_|]; [|lia].
      split; [apply finite_is_number32; lia|].
      rewrite value_finite.
      destruct sx.
      * replace (-1 * (IZR (Zpos p1) * pow2 e1) - -1 * v)
          with (v - IZR (Zpos p1) * pow2 e1) by ring. exact Habs.
      * replace (1 * (IZR (Zpos p1) * pow2 e1) - 1 * v)
          with (- (v - IZR (Zpos p1) * pow2 e1)) by ring.
        rewrite Rabs_Ropp. exact Habs.
Qed.

Lemma iter_xO_value (m d : positive) :
  Zpos (Pos.iter xO m d) = (Zpos m * 2 ^ Zpos d)%Z.
Proof.
  apply (@Pos.iter_ind positive xO m (fun d r => Zpos r = (Zpos m * 2 ^ Zpos d)%Z)).
  - change (Zpos m~0) with (2 * Zpos m)%Z. simpl (2 ^ 1)%Z. lia.
  - intros p a IH. change (Zpos a~0) with (2 * Zpos a)%Z.
    rewrite IH, Pos2Z.inj_succ, Z.pow_succ_r by lia. lia.
Qed.

Lemma shl_align_spec (m : positive) (e e' : Z) :
  (e' <= e)%Z ->
  snd (shl_align m e e') = e'
  /\ Zpos (fst (shl_align m e e')) = (Zpos m * 2 ^ (e - e'))%Z.
Proof.
  intros H. unfold shl_align.
  destruct (e' - e)%Z as [|d|d] eqn:E; try lia; cbn [fst snd].
  - assert (e = e') by lia. subst e'. rewrite Z.sub_diag. simpl. lia.
  - split; [reflexivity|].
    change (PosDef.Pos.iter xO m d) with (Pos.iter xO m d).
    rewrite iter_xO_value. f_equal. f_equal. lia.
Qed.

Lemma number32_cases (x : float) :
  is_number32 x = true ->
  (exists s, x = S754_zero s)
  \/ (exists s m e, x = S754_finite s m e
        /\ (Zpos m < 2 ^ 24)%Z /\ (-149 <= e <= 104)%Z
        /\ (-149 < e -> 2 ^ 23 <= Zpos m)%Z
        /\ fexp32 (Zpos (digits2_pos m) + e) = e).
Proof.
  unfold is_number32. destruct x as [s|s| |s m e]; try discriminate.
  - intros _. left. eauto.
  - cbn [is_finite valid_binary andb]. unfold bounded. intros H.
    apply andb_prop in H. destruct H as [Hc He].
    apply canonical32_inv in Hc. destruct Hc as [H1 [H2 [H3 H4]]].
    change (emax32 - prec32)%Z with 104%Z in He. apply Z.leb_le in He.
    right. exists s, m, e. repeat split; auto; lia.
Qed.

(** The product of two binary32 numbers, below [2^127] in magnitude,
    is a number, off by at most [2^-24] of the exact product, plus
    [2^-150] for a product that falls among the subnormal numbers. *)
Lemma SFmul_spec (x y : float) :
  is_number32 x = true -> is_number32 y = true ->
  Rabs (value x * value y) < pow2 127 ->
  is_number32 (SFmul prec32 emax32 x y) = true
  /\ Rabs (value (SFmul prec32 emax32 x y) - value x * value y)
     <= pow2 (-24) * Rabs (value x * value y) + pow2 (-150).
Proof.
  intros Hx Hy Hb.
  pose proof (pow2_pos (-24)) as P24. pose proof (pow2_pos (-150)) as P150.
  destruct (number32_cases x Hx) as [[sx ->]|[sx [mx [ex [-> [Hmx [Hex [Hnx Hcx]]]]]]]];
    destruct (number32_cases y Hy) as [[sy ->]|[sy [my [ey [-> [Hmy [Hey [Hny Hcy]]]]]]]].
  - cbn [SFmul value]. split; [reflexivity|].
    rewrite Rmult_0_l, Rminus_0_r, Rabs_R0. lra.
  - cbn [SFmul value]. split; [reflexivity|].
    rewrite Rmult_0_l, Rminus_0_r, Rabs_R0. lra.
  - cbn [SFmul]. split; [reflexivity|]. cbn [value].
    rewrite Rmult_0_r, Rminus_0_r, Rabs_R0. lra.
  - cbn [SFmul].
    assert (Ev : value (S754_finite sx mx ex) * value (S754_finite sy my ey)
                 = (if xorb sx sy then -1 else 1)
                   * (IZR (Zpos (mx * my)) * pow2 (ex + ey))).
    { rewrite !value_finite, Pos2Z.inj_mul, mult_IZR, pow2_add.
      destruct sx, sy; simpl; ring. }
    assert (Hv0 : 0 < IZR (Zpos (mx * my)) * pow2 (ex + ey)).
    { apply Rmult_lt_0_compat; [apply IZR_lt; lia|apply pow2_pos]. }
    assert (Ea : Rabs (value (S754_finite sx mx ex) * value (S754_finite sy my ey))
                 = IZR (Zpos (mx * my)) * pow2 (ex + ey)).
    { rewrite Ev, Rabs_mult, Rabs_sign.
      rewrite (Rabs_pos_eq (IZR _ * _)) by lra. ring. }
    rewrite Ea in *.
    assert (Hd : (ex + ey <= fexp32 (Zpos (digits2_pos (mx * my)) + (ex + ey)))%Z).
    { pose proof (digits2_pos_bounds mx) as Bx.
      pose proof (digits2_pos_bounds my) as By.
      pose proof (digits2_pos_bounds (mx * my)) as Bxy.
      set (dx := Zpos (digits2_pos mx)) in *.
      set (dy := Zpos (digits2_pos my)) in *.
      set (D := Zpos (digits2_pos (mx * my))) in *.
      assert (dx + dy - 2 < D)%Z.
      { apply pow2_lt_inv; try lia.
        replace (dx + dy - 2)%Z with ((dx - 1) + (dy - 1))%Z by lia.
        rewrite Z.pow_add_r by lia.
        rewrite Pos2Z.inj_mul in Bxy.
        assert (0 < 2 ^ (dx - 1))%Z by (apply Z.pow_pos_nonneg; lia).
        assert (0 < 2 ^ (dy - 1))%Z by (apply Z.pow_pos_nonneg; lia).
        nia. }
      unfold fexp32 in *. lia. }
    destruct (@round32_real (xorb sx sy) (mx * my) (ex + ey) Hd Hb) as [Hn Herr].
    split; [exact Hn|].
    rewrite Ev. eapply Rle_trans; [exact Herr|].
    destruct (ex + ey <? -149)%Z; lra.
Qed.

(** Rounding [m * 2^e] given with no place below [2^-149]: the way
    sums and differences are rounded.  The error is at most [2^-24]
    of the value. *)
Lemma binary_round_spec (sx : bool) (m : positive) (e : Z) :
  (-149 <= e)%Z ->
  IZR (Zpos m) * pow2 e < pow2 127 ->
  is_number32 (binary_round prec32 emax32 sx m e) = true
  /\ Rabs (value (binary_round prec32 emax32 sx m e)
           - (if sx then -1 else 1) * (IZR (Zpos m) * pow2 e))
     <= pow2 (-24) * (IZR (Zpos m) * pow2 e).
Proof.
  intros He Hv. unfold binary_round. rewrite fexp32_eq.
  set (d := Zpos (digits2_pos m)). set (f := fexp32 (d + e)).
  pose proof (digits2_pos_bounds m) as Hd. fold d in Hd.
  destruct (Z_lt_le_dec f e) as [L|L].
  - (* the mantissa is moved to the left, to the last place *)
    destruct (@shl_align_spec m e f ltac:(lia)) as [E2 E1].
    destruct (shl_align m e f) as [mz ez]. cbn [fst snd] in E1, E2. subst ez.
    assert (Hf : (-149 <= f)%Z) by apply fexp32_ge.
    assert (Ev : IZR (Zpos mz) * pow2 f = IZR (Zpos m) * pow2 e).
    { rewrite E1, mult_IZR, <- (@pow2_IZR (e - f)) by lia.
      rewrite Rmult_assoc, <- pow2_add. f_equal. f_equal. lia. }
    assert (Hdz : Zpos (digits2_pos mz) = (d + (e - f))%Z).
    { apply digits2_pos_unique; [lia|]. rewrite E1.
      replace (d + (e - f) - 1)%Z with ((d - 1) + (e - f))%Z by lia.
      rewrite !Z.pow_add_r by lia.
      assert (0 < 2 ^ (e - f))%Z by (apply Z.pow_pos_nonneg; lia).
      nia. }
    assert (Hc : (f <= fexp32 (Zpos (digits2_pos mz) + f))%Z).
    { rewrite Hdz. replace (d + (e - f) + f)%Z with (d + e)%Z by lia.
      fold f. lia. }
    rewrite <- Ev in Hv.
    destruct (@round32_real sx mz f Hc Hv) as [Hn Herr].
    split; [exact Hn|]. rewrite <- Ev.
    destruct (Z.ltb_spec f (-149)); [lia|]. lra.
  - assert (Es : shl_align m e f = (m, e)).
    { unfold shl_align. destruct (f - e)%Z eqn:E; try reflexivity. lia. }
    rewrite Es.
    destruct (@round32_real sx m e L Hv) as [Hn Herr].
    split; [exact Hn|].
    destruct (Z.ltb_spec e (-149)); [lia|]. lra.
Qed.

Lemma binary_normalize_spec (M e : Z) :
  (-149 <= e)%Z ->
  Rabs (IZR M * pow2 e) < pow2 127 ->
  is_number32 (binary_normalize prec32 emax32 M e false) = true
  /\ Rabs (value (binary_normalize prec32 emax32 M e false) - IZR M * pow2 e)
     <= pow2 (-24) * Rabs (IZR M * pow2 e).
Proof.
  intros He Hv. pose proof (pow2_pos e) as Pe.
  destruct M as [|m|m]; cbn [binary_normalize].
  - split; [reflexivity|]. cbn [value].
    rewrite Rmult_0_l, Rminus_0_r, Rabs_R0. lra.
  - assert (P : 0 < IZR (Zpos m) * pow2 e).
    { apply Rmult_lt_0_compat; [apply IZR_lt; lia|exact Pe]. }
    rewrite (Rabs_pos_eq (IZR (Zpos m) * pow2 e)) in * by lra.
    destruct (@binary_round_spec false m e He Hv) as [Hn Herr].
    split; [exact Hn|].
    replace (IZR (Zpos m) * pow2 e) with (1 * (IZR (Zpos m) * pow2 e)) at 1 by ring.
    exact Herr.
  - assert (P : 0 < IZR (Zpos m) * pow2 e).
    { apply Rmult_lt_0_compat; [apply IZR_lt; lia|exact Pe]. }
    assert (E : IZR (Zneg m) * pow2 e = - (IZR (Zpos m) * pow2 e)).
    { change (Zneg m) with (- Zpos m)%Z. rewrite opp_IZR. ring. }
    rewrite E, Rabs_Ropp, (Rabs_pos_eq (IZR (Zpos m) * pow2 e)) in * by lra.
    destruct (@binary_round_spec true m e He Hv) as [Hn Herr].
    split; [exact Hn|].
    replace (- (IZR (Zpos m) * pow2 e)) with (-1 * (IZR (Zpos m) * pow2 e)) by ring.
    exact Herr.
Qed.

Lemma value_aligned (s : bool) (m : positive) (e ez : Z) :
  (ez <= e)%Z ->
  IZR (cond_Zopp s (Zpos (fst (shl_align m e ez)))) * pow2 ez
  = value (S754_finite s m e).
Proof.
  intros H. destruct (@shl_align_spec m e ez H) as [_ E]. rewrite E.
  rewrite value_finite.
  assert (Ep : IZR (Zpos m * 2 ^ (e - ez)) * pow2 ez = IZR (Zpos m) * pow2 e).
  { rewrite mult_IZR, <- (@pow2_IZR (e - ez)) by lia.
    rewrite Rmult_assoc, <- pow2_add. f_equal. f_equal. lia. }
  destruct s; cbn [cond_Zopp].
  - rewrite opp_IZR. rewrite <- Ep. ring.
  - rewrite <- Ep. ring.
Qed.

(** The sum of two binary32 numbers, below [2^127] in magnitude, is a
    number, off by at most [2^-24] of the exact sum. *)
Lemma SFadd_spec (x y : float) :
  is_number32 x = true -> is_number32 y = true ->
  Rabs (value x + value y) < pow2 127 ->
  is_number32 (SFadd prec32 emax32 x y) = true
  /\ Rabs (value (SFadd prec32 emax32 x y) - (value x + value y))
     <= pow2 (-24) * Rabs (value x + value y).
Proof.
  intros Hx Hy Hb.
  pose proof (pow2_pos (-24)) as P24.
  destruct (number32_cases x Hx) as [[sx ->]|[sx [mx [ex [-> [Hmx [Hex [Hnx Hcx]]]]]]]];
    destruct (number32_cases y Hy) as [[sy ->]|[sy [my [ey [-> [Hmy [Hey [Hny Hcy]]]]]]]].
  - split.
    + destruct sx, sy; reflexivity.
    + assert (E : value (SFadd prec32 emax32 (S754_zero sx) (S754_zero sy)) = 0)
        by (destruct sx, sy; reflexivity).
      rewrite E. cbn [value]. rewrite Rplus_0_r, Rminus_0_r, Rabs_R0. lra.
  - cbn [SFadd]. split; [exact Hy|].
    cbn [value]. rewrite Rplus_0_l.
    rewrite Rminus_diag, Rabs_R0.
    apply Rmult_le_pos; [lra|apply Rabs_pos].
  - cbn [SFadd]. split; [exact Hx|].
    cbn [value]. rewrite Rplus_0_r.
    rewrite Rminus_diag, Rabs_R0.
    apply Rmult_le_pos; [lra|apply Rabs_pos].
  - cbn [SFadd].
    set (ez := Z.min ex ey).
    assert (E : IZR (cond_Zopp sx (Zpos (fst (shl_align mx ex ez)))
                     + cond_Zopp sy (Zpos (fst (shl_align my ey ez)))) * pow2 ez
                = value (S754_finite sx mx ex) + value (S754_finite sy my ey)).
    { rewrite plus_IZR, Rmult_plus_distr_r.
      rewrite !value_aligned by (unfold ez; lia). reflexivity. }
    rewrite <- E in *.
    apply binary_normalize_spec; [unfold ez; lia|exact Hb].
Qed.

(** The same for the difference. *)
Lemma SFsub_spec (x y : float) :
  is_number32 x = true -> is_number32 y = true ->
  Rabs (value x - value y) < pow2 127 ->
  is_number32 (SFsub prec32 emax32 x y) = true
  /\ Rabs (value (SFsub prec32 emax32 x y) - (value x - value y))
     <= pow2 (-24) * Rabs (value x - value y).
Proof.
  intros Hx Hy Hb.
  pose proof (pow2_pos (-24)) as P24.
  destruct (number32_cases x Hx) as [[sx ->]|[sx [mx [ex [-> [Hmx [Hex [Hnx Hcx]]]]]]]];
    destruct (number32_cases y Hy) as [[sy ->]|[sy [my [ey [-> [Hmy [Hey [Hny Hcy]]]]]]]].
  - split.
    + destruct sx, sy; reflexivity.
    + assert (E : value (SFsub prec32 emax32 (S754_zero sx) (S754_zero sy)) = 0)
        by (destruct sx, sy; reflexivity).
      rewrite E. cbn [value]. rewrite Rminus_0_r, Rminus_0_r, Rabs_R0. lra.
  - cbn [SFsub]. split.
    + apply finite_is_number32; assumption.
    + rewrite !value_finite. cbn [value].
      replace ((if negb sy then -1 else 1) * (IZR (Zpos my) * pow2 ey)
               - (0 - (if sy then -1 else 1) * (IZR (Zpos my) * pow2 ey)))
        with 0 by (destruct sy; simpl; ring).
      rewrite Rabs_R0. apply Rmult_le_pos; [lra|apply Rabs_pos].
  - cbn [SFsub]. split; [exact Hx|].
    cbn [value]. rewrite Rminus_0_r.
    rewrite Rminus_diag, Rabs_R0.
    apply Rmult_le_pos; [lra|apply Rabs_pos].
  - cbn [SFsub].
    set (ez := Z.min ex ey).
    assert (E : IZR (cond_Zopp sx (Zpos (fst (shl_align mx ex ez)))
                     - cond_Zopp sy (Zpos (fst (shl_align my ey ez)))) * pow2 ez
                = value (S754_finite sx mx ex) - value (S754_finite sy my ey)).
    { rewrite minus_IZR, Rmult_minus_distr_r.
      rewrite !value_aligned by (unfold ez; lia). reflexivity. }
    rewrite <- E in *.
    apply binary_normalize_spec; [unfold ez; lia|exact Hb].
Qed.

End Values32.

(** ** Movement: the moves of a poll *)

Section Moves.
Context {F D : Type} {FO : FloatOps F D}.

Lemma poll_movement_key_moves (k : Keys) (s : State F) :
  Position (g_pCamera (poll_movement k s)) =
  if bOrthographicProjection s then Position (g_pCamera s)
  else fold_left apply_move
         (key_moves k (g_pCamera s) (f_mul (move_speed s) (gDeltaTime s)))
         (Position (g_pCamera s)).
Proof.
  unfold poll_movement, key_moves, key_directions, strafe_direction, move_speed.
  destruct s as [sm wc [pos front up cz]
                   lx ly fm dt lf ortho sp yaw pitch fo fp].
  cbn [bOrthographicProjection negb g_pCamera Position Front Up gSpeedScale
       gDeltaTime].
  destruct ortho; [reflexivity|].
  cbv zeta. cbn [negb].
  destruct (KEY_W k), (KEY_S k), (KEY_A k), (KEY_D k), (KEY_Q k), (KEY_E k);
    reflexivity.
Qed.

(** One poll of a frame: the mode after its toggles does not depend on
    the elapsed time, the camera keeps its directions and the speed
    scale its value, and in Perspective the position makes the moves
    of the keys held. *)
Lemma poll_frame_moves (dt : F) (k : Keys) (s : State F) :
  let s' := poll_frame dt k s in
  (gToggleKeyDown_O s' = KEY_O k /\ gToggleKeyDown_P s' = KEY_P k)
  /\ gSpeedScale s' = gSpeedScale s
  /\ Front (g_pCamera s') = Front (g_pCamera s)
  /\ Up (g_pCamera s') = Up (g_pCamera s)
  /\ (forall dt', bOrthographicProjection (poll_frame dt' k s)
                  = bOrthographicProjection s')
  /\ (gToggleKeyDown_O s = KEY_O k -> gToggleKeyDown_P s = KEY_P k ->
      bOrthographicProjection s' = bOrthographicProjection s)
  /\ Position (g_pCamera s') =
     (if bOrthographicProjection s' then Position (g_pCamera s)
      else fold_left apply_move
             (key_moves k (g_pCamera s) (f_mul (move_speed s) dt))
             (Position (g_pCamera s))).
Proof.
  cbv zeta. unfold poll_frame.
  pose proof (keyboard_frame k (set_gDeltaTime dt s)) as H.
  cbv zeta in H.
  destruct H as (_ & _ & _ & _ & Hsp & _ & _ & _ & Hf & Hu & _).
  split; [apply keyboard_flags|].
  split; [exact Hsp|].
  split; [exact Hf|].
  split; [exact Hu|].
  split; [intros dt'; rewrite !keyboard_mode; reflexivity|].
  split.
  { intros EO EP. rewrite keyboard_mode. simpl.
    rewrite EO, EP. destruct (KEY_O k), (KEY_P k); reflexivity. }
  unfold ProcessKeyboardEvents at 1. rewrite poll_movement_key_moves.
  pose proof (poll_movement_frame k
                (poll_P k (poll_O k (poll_escape k (set_gDeltaTime dt s))))) as Hm.
  cbv zeta in Hm.
  destruct Hm as (_ & _ & _ & _ & _ & _ & _ & _ & _ & _ & Em & _).
  fold (ProcessKeyboardEvents k (set_gDeltaTime dt s)) in Em.
  rewrite <- Em.
  rewrite (toggles_keep_camera k (set_gDeltaTime dt s)).
  pose proof (poll_P_frame k
                (poll_O k (poll_escape k (set_gDeltaTime dt s)))) as Hp.
  pose proof (poll_O_frame k (poll_escape k (set_gDeltaTime dt s))) as Ho.
  pose proof (poll_escape_frame k (set_gDeltaTime dt s)) as He.
  cbv zeta in Hp, Ho, He.
  destruct Hp as (_ & _ & _ & _ & _ & p6 & p7 & _).
  destruct Ho as (_ & _ & _ & _ & _ & o6 & o7 & _).
  destruct He as (_ & _ & _ & _ & _ & e6 & e7 & _).
  unfold move_speed. rewrite p6, o6, e6, p7, o7, e7. reflexivity.
Qed.

Lemma key_directions_ext (k : Keys) (c c' : Camera F) :
  Front c = Front c' -> Up c = Up c' ->
  key_directions k c = key_directions k c'.
Proof.
  intros E1 E2. unfold key_directions, strafe_direction.
  rewrite E1, E2. reflexivity.
Qed.

Lemma key_directions_length (k : Keys) (c : Camera F) :
  List.length (key_directions k c) = held_count k.
Proof.
  unfold key_directions, held_count.
  destruct (KEY_W k), (KEY_S k), (KEY_A k), (KEY_D k), (KEY_Q k), (KEY_E k);
    reflexivity.
Qed.

Lemma key_directions_in (k : Keys) (c : Camera F) (sd : bool * vec3 F) :
  In sd (key_directions k c) ->
  snd sd = Front c \/ snd sd = strafe_direction c \/ snd sd = Up c.
Proof.
  unfold key_directions. rewrite !in_app_iff.
  destruct (KEY_W k), (KEY_S k), (KEY_A k), (KEY_D k), (KEY_Q k), (KEY_E k);
    simpl; intuition (subst; auto).
Qed.

(** Polls with the same keys, once the debounce flags hold the state
    of the mode keys: the mode stays, and in Perspective every poll
    makes the same moves. *)
Lemma settled_frames_moves (n : nat) (dt : F) (k : Keys) (s : State F) :
  gToggleKeyDown_O s = KEY_O k -> gToggleKeyDown_P s = KEY_P k ->
  Position (g_pCamera (poll_frames n dt k s)) =
  if bOrthographicProjection s then Position (g_pCamera s)
  else fold_left apply_move
         (List.concat (repeat (key_moves k (g_pCamera s) (f_mul (move_speed s) dt)) n))
         (Position (g_pCamera s)).
Proof.
  revert s. induction n as [|n IH]; intros s EO EP.
  - simpl. destruct (bOrthographicProjection s); reflexivity.
  - change (poll_frames (S n) dt k s)
      with (poll_frames n dt k (poll_frame dt k s)).
    pose proof (poll_frame_moves dt k s) as H. cbv zeta in H.
    destruct H as ((FO1 & FP1) & Hsp & Hf & Hu & _ & Hm & Hpos).
    rewrite (IH _ FO1 FP1), Hpos, (Hm EO EP).
    destruct (bOrthographicProjection s); [reflexivity|].
    cbn [repeat List.concat]. rewrite fold_left_app.
    unfold key_moves, move_speed.
    rewrite (key_directions_ext k _ _ Hf Hu), Hsp. reflexivity.
Qed.

(** [n] polls against one: the two runs end in the same mode, and in
    Perspective the first makes [n] times the moves of a poll of
    elapsed time [dt], the second once those of a poll of elapsed time
    [T]. *)
Lemma frames_against_one (n : nat) (dt T : F) (k : Keys) (s : State F) :
  (1 <= n)%nat ->
  let ortho := bOrthographicProjection (poll_frame T k s) in
  Position (g_pCamera (poll_frames n dt k s)) =
    (if ortho then Position (g_pCamera s)
     else fold_left apply_move
            (List.concat (repeat (key_moves k (g_pCamera s) (f_mul (move_speed s) dt)) n))
            (Position (g_pCamera s)))
  /\ Position (g_pCamera (poll_frame T k s)) =
     (if ortho then Position (g_pCamera s)
      else fold_left apply_move
             (key_moves k (g_pCamera s) (f_mul (move_speed s) T))
             (Position (g_pCamera s))).
Proof.
  intros Hn. cbv zeta.
  pose proof (poll_frame_moves T k s) as HT. cbv zeta in HT.
  destruct HT as (_ & _ & _ & _ & _ & _ & HposT).
  split; [|exact HposT]. clear HposT.
  destruct n as [|n]; [lia|].
  change (poll_frames (S n) dt k s)
    with (poll_frames n dt k (poll_frame dt k s)).
  pose proof (poll_frame_moves dt k s) as H. cbv zeta in H.
  destruct H as ((FO1 & FP1) & Hsp & Hf & Hu & Hmode & _ & Hpos).
  rewrite (Hmode T).
  rewrite (settled_frames_moves n dt k _ FO1 FP1), Hpos.
  destruct (bOrthographicProjection (poll_frame dt k s)); [reflexivity|].
  cbn [repeat List.concat]. rewrite fold_left_app.
  unfold key_moves, move_speed.
  rewrite (key_directions_ext k _ _ Hf Hu), Hsp. reflexivity.
Qed.

(** A walk of vectors, coordinate by coordinate. *)
Lemma walk_vx (ms : list (bool * vec3 F)) (p : vec3 F) :
  vx (fold_left apply_move ms p) = walk (vx p) (coordinate_moves (@vx F) ms).
Proof.
  revert p. induction ms as [|[b v] ms IH]; intros p; [reflexivity|].
  cbn [fold_left coordinate_moves map walk]. rewrite IH.
  unfold walk, coordinate_moves. destruct b; reflexivity.
Qed.

Lemma walk_vy (ms : list (bool * vec3 F)) (p : vec3 F) :
  vy (fold_left apply_move ms p) = walk (vy p) (coordinate_moves (@vy F) ms).
Proof.
  revert p. induction ms as [|[b v] ms IH]; intros p; [reflexivity|].
  cbn [fold_left coordinate_moves map walk]. rewrite IH.
  unfold walk, coordinate_moves. destruct b; reflexivity.
Qed.

Lemma walk_vz (ms : list (bool * vec3 F)) (p : vec3 F) :
  vz (fold_left apply_move ms p) = walk (vz p) (coordinate_moves (@vz F) ms).
Proof.
  revert p. induction ms as [|[b v] ms IH]; intros p; [reflexivity|].
  cbn [fold_left coordinate_moves map walk]. rewrite IH.
  unfold walk, coordinate_moves. destruct b; reflexivity.
Qed.

Lemma coordinate_moves_concat (c : vec3 F -> F) (ms : list (bool * vec3 F))
  (n : nat) :
  coordinate_moves c (List.concat (repeat ms n))
  = List.concat (repeat (coordinate_moves c ms) n).
Proof.
  induction n as [|n IH]; [reflexivity|].
  cbn [repeat List.concat]. unfold coordinate_moves in *.
  rewrite map_app, IH. reflexivity.
Qed.

Lemma coordinate_key_moves_vx (k : Keys) (c : Camera F) (v : F) :
  coordinate_moves (@vx F) (key_moves k c v)
  = scaled v (coordinate_moves (@vx F) (key_directions k c)).
Proof.
  unfold coordinate_moves, key_moves, scaled. rewrite !map_map. reflexivity.
Qed.

Lemma coordinate_key_moves_vy (k : Keys) (c : Camera F) (v : F) :
  coordinate_moves (@vy F) (key_moves k c v)
  = scaled v (coordinate_moves (@vy F) (key_directions k c)).
Proof.
  unfold coordinate_moves, key_moves, scaled. rewrite !map_map. reflexivity.
Qed.

Lemma coordinate_key_moves_vz (k : Keys) (c : Camera F) (v : F) :
  coordinate_moves (@vz F) (key_moves k c v)
  = scaled v (coordinate_moves (@vz F) (key_directions k c)).
Proof.
  unfold coordinate_moves, key_moves, scaled. rewrite !map_map. reflexivity.
Qed.

End Moves.

(** ** Movement in binary32: accumulated rounding *)

Section Walk32.
Context {lm : Libm}.
Local Open Scope R_scope.

Lemma u32_value : u32 = / 16777216.
Proof. unfold u32, pow2. simpl. lra. Qed.

Lemma u32_pos : 0 < u32.
Proof. apply pow2_pos. Qed.

Lemma eta32_pos : 0 < eta32.
Proof. apply pow2_pos. Qed.

Lemma abs_sum_nonneg (ms : list (bool * float)) : 0 <= abs_sum ms.
Proof.
  induction ms as [|mv ms IH]; simpl; [lra|].
  pose proof (Rabs_pos (value (snd mv))). lra.
Qed.

Lemma signed_sum_le_abs (ms : list (bool * float)) :
  Rabs (signed_sum ms) <= abs_sum ms.
Proof.
  induction ms as [|[b a] ms IH]; simpl.
  - rewrite Rabs_R0. lra.
  - eapply Rle_trans; [apply Rabs_triang|].
    destruct b; [|rewrite Rabs_Ropp]; lra.
Qed.

Lemma signed_sum_app (l1 l2 : list (bool * float)) :
  signed_sum (l1 ++ l2) = signed_sum l1 + signed_sum l2.
Proof. induction l1 as [|mv l1 IH]; simpl; [lra|]. rewrite IH. lra. Qed.

Lemma abs_sum_app (l1 l2 : list (bool * float)) :
  abs_sum (l1 ++ l2) = abs_sum l1 + abs_sum l2.
Proof. induction l1 as [|mv l1 IH]; simpl; [lra|]. rewrite IH. lra. Qed.

Lemma signed_sum_repeat (ms : list (bool * float)) (n : nat) :
  signed_sum (List.concat (repeat ms n)) = INR n * signed_sum ms.
Proof.
  induction n as [|n IH]; [simpl; lra|].
  cbn [repeat List.concat]. rewrite signed_sum_app, IH, S_INR. lra.
Qed.

Lemma abs_sum_repeat (ms : list (bool * float)) (n : nat) :
  abs_sum (List.concat (repeat ms n)) = INR n * abs_sum ms.
Proof.
  induction n as [|n IH]; [simpl; lra|].
  cbn [repeat List.concat]. rewrite abs_sum_app, IH, S_INR. lra.
Qed.

Lemma length_concat_repeat (A : Type) (ms : list A) (n : nat) :
  List.length (List.concat (repeat ms n)) = (n * List.length ms)%nat.
Proof.
  induction n as [|n IH]; [reflexivity|].
  cbn [repeat List.concat]. rewrite length_app, IH. lia.
Qed.

Lemma Forall_concat_repeat (A : Type) (P : A -> Prop) (ms : list A) (n : nat) :
  Forall P ms -> Forall P (List.concat (repeat ms n)).
Proof.
  intros H. induction n as [|n IH]; [constructor|].
  cbn [repeat List.concat]. apply Forall_app. split; assumption.
Qed.

(** Compound growth: [m] roundings inflate a magnitude by at most
    [2 * m * u] of it, as long as this is at most 1. *)
Lemma compound_bound (x : R) (m : nat) :
  0 <= x -> 2 * INR m * x <= 1 -> (1 + x) ^ m <= 1 + 2 * INR m * x.
Proof.
  intros Hx. induction m as [|m IH]; intros Hm.
  - simpl. lra.
  - rewrite S_INR in Hm. rewrite S_INR.
    assert (0 <= INR m) by apply pos_INR.
    assert (H1 : 2 * INR m * x <= 1) by nra.
    specialize (IH H1). simpl pow. nra.
Qed.

Lemma walk_step (b : bool) (p a : float) :
  is_number32 p = true -> is_number32 a = true ->
  Rabs (value p) + Rabs (value a) < pow2 127 ->
  is_number32 (if b then SFadd prec32 emax32 p a else SFsub prec32 emax32 p a)
  = true
  /\ Rabs (value (if b then SFadd prec32 emax32 p a
                  else SFsub prec32 emax32 p a)
           - (value p + (if b then value a else - value a)))
     <= u32 * (Rabs (value p) + Rabs (value a)).
Proof.
  intros Hp Ha Hb. pose proof u32_pos as Hu.
  destruct b.
  - assert (T : Rabs (value p + value a) <= Rabs (value p) + Rabs (value a))
      by apply Rabs_triang.
    destruct (@SFadd_spec p a Hp Ha ltac:(lra)) as [Hn He].
    split; [exact Hn|]. fold u32 in He. nra.
  - assert (T : Rabs (value p - value a) <= Rabs (value p) + Rabs (value a)).
    { unfold Rminus. eapply Rle_trans; [apply Rabs_triang|].
      rewrite Rabs_Ropp. lra. }
    destruct (@SFsub_spec p a Hp Ha ltac:(lra)) as [Hn He].
    split; [exact Hn|]. fold u32 in He.
    replace (value p + - value a) with (value p - value a) by ring. nra.
Qed.

(** A walk in binary32 against the exact sum of its moves: the error
    is at most the compound growth of the magnitudes added. *)
Lemma walk_error (ms : list (bool * float)) :
  forall p : float,
  is_number32 p = true ->
  Forall (fun mv => is_number32 (snd mv) = true) ms ->
  (1 + u32) ^ List.length ms * (Rabs (value p) + abs_sum ms) < pow2 127 ->
  is_number32 (walk (FO := binary32_ops) p ms) = true
  /\ Rabs (value (walk (FO := binary32_ops) p ms) - (value p + signed_sum ms))
     <= ((1 + u32) ^ List.length ms - 1) * (Rabs (value p) + abs_sum ms).
Proof.
  pose proof u32_pos as Hu.
  induction ms as [|[b a] ms IH]; intros p Hp Hms Hb.
  - cbn [walk fold_left signed_sum abs_sum fold_right List.length pow].
    split; [exact Hp|].
    replace (value p - (value p + 0)) with 0 by ring. rewrite Rabs_R0. lra.
  - inversion Hms as [|? ? Ha Hms']; subst. cbn [snd] in Ha.
    cbn [List.length pow abs_sum fold_right snd] in Hb.
    fold (abs_sum ms) in Hb.
    set (X := Rabs (value p) + Rabs (value a)) in *.
    set (R := abs_sum ms) in *.
    set (g := (1 + u32) ^ List.length ms) in *.
    assert (HR : 0 <= R) by apply abs_sum_nonneg.
    assert (Hg : 1 <= g) by (apply pow_R1_Rle; lra).
    assert (HX : 0 <= X).
    { unfold X. pose proof (Rabs_pos (value p)). pose proof (Rabs_pos (value a)). lra. }
    replace ((1 + u32) * g * (Rabs (value p) + (Rabs (value a) + R)))
      with ((1 + u32) * g * (X + R)) in Hb by (unfold X; ring).
    assert (Q1 : X + R <= g * (X + R)) by nra.
    assert (Q2 : g * (X + R) <= (1 + u32) * (g * (X + R))) by nra.
    rewrite Rmult_assoc in Hb.
    assert (HXb : X < pow2 127) by lra.
    set (p' := if b then SFadd prec32 emax32 p a else SFsub prec32 emax32 p a).
    set (ex := value p + (if b then value a else - value a)).
    assert (Hstep : is_number32 p' = true /\ Rabs (value p' - ex) <= u32 * X).
    { apply walk_step; assumption. }
    destruct Hstep as [Hp' Herr].
    assert (Hex : Rabs ex <= X).
    { unfold ex, X. eapply Rle_trans; [apply Rabs_triang|].
      destruct b; [|rewrite Rabs_Ropp]; lra. }
    assert (Hp'b : Rabs (value p') <= (1 + u32) * X).
    { replace (value p') with ((value p' - ex) + ex) by ring.
      eapply Rle_trans; [apply Rabs_triang|]. nra. }
    change (walk (FO := binary32_ops) p ((b, a) :: ms))
      with (walk (FO := binary32_ops) p' ms).
    destruct (IH p' Hp' Hms') as [Hn Hw].
    { fold g R.
      assert (g * (Rabs (value p') + R) <= g * ((1 + u32) * X + R)).
      { apply Rmult_le_compat_l; lra. }
      assert (0 <= u32 * (g * R)).
      { apply Rmult_le_pos; [lra|]. apply Rmult_le_pos; lra. }
      lra. }
    split; [exact Hn|].
    fold g R in Hw.
    cbn [signed_sum fold_right fst snd List.length pow abs_sum].
    fold (signed_sum ms) (abs_sum ms). fold g R.
    replace (value (walk (FO := binary32_ops) p' ms)
             - (value p + ((if b then value a else - value a) + signed_sum ms)))
      with ((value (walk (FO := binary32_ops) p' ms) - (value p' + signed_sum ms))
            + (value p' - ex)) by (unfold ex; ring).
    eapply Rle_trans; [apply Rabs_triang|].
    replace (Rabs (value p) + (Rabs (value a) + R)) with (X + R) by (unfold X; ring).
    assert ((g - 1) * (Rabs (value p') + R) <= (g - 1) * ((1 + u32) * X + R)).
    { apply Rmult_le_compat_l; lra. }
    assert (0 <= u32 * (g * R)).
    { apply Rmult_le_pos; [lra|]. apply Rmult_le_pos; lra. }
    lra.
Qed.

Lemma four_pow2_100 : 4 * pow2 100 < pow2 127.
Proof.
  assert (E : pow2 2 = 4) by (unfold pow2; simpl; lra).
  rewrite <- E, <- pow2_add. apply pow2_lt. lia.
Qed.

(** The moves along one coordinate: each direction times the
    velocity, rounded. *)
Lemma scaled_moves (ds : list (bool * float)) (V : float) (L : R) :
  is_number32 V = true ->
  Forall (fun sd : bool * float =>
            is_number32 (snd sd) = true /\ Rabs (value (snd sd)) <= L) ds ->
  0 <= L -> L * Rabs (value V) < pow2 127 ->
  let ms := scaled (FO := binary32_ops) V ds in
  Forall (fun mv : bool * float => is_number32 (snd mv) = true) ms
  /\ abs_sum ms
     <= INR (List.length ds) * ((1 + u32) * (L * Rabs (value V)) + eta32)
  /\ Rabs (signed_sum ms - signed_sum ds * value V)
     <= INR (List.length ds) * (u32 * (L * Rabs (value V)) + eta32)
  /\ Rabs (signed_sum ds) <= INR (List.length ds) * L.
Proof.
  intros HV Hds HL Hb. cbv zeta.
  pose proof u32_pos as Hu. pose proof eta32_pos as He.
  pose proof (Rabs_pos (value V)) as HVp.
  induction Hds as [|[b d] ds [Hd Hdl] Hds IH].
  - cbn [scaled map signed_sum abs_sum fold_right List.length INR].
    split; [constructor|]. split; [lra|].
    replace (0 - 0 * value V) with 0 by ring. rewrite Rabs_R0. lra.
  - destruct IH as [IH1 [IH2 [IH3 IH4]]].
    cbn [snd] in Hd, Hdl.
    cbn [scaled map fst snd]. fold (scaled (FO := binary32_ops) V ds).
    change (f_mul d V) with (SFmul prec32 emax32 d V).
    assert (Hprod : Rabs (value d * value V) <= L * Rabs (value V)).
    { rewrite Rabs_mult. apply Rmult_le_compat_r; assumption. }
    destruct (@SFmul_spec d V Hd HV ltac:(lra)) as [Hn Herr].
    fold u32 eta32 in Herr.
    set (a := SFmul prec32 emax32 d V) in *.
    assert (Ha : Rabs (value a) <= (1 + u32) * (L * Rabs (value V)) + eta32).
    { replace (value a) with ((value a - value d * value V) + value d * value V)
        by ring.
      eapply Rle_trans; [apply Rabs_triang|]. nra. }
    change (List.length ((b, d) :: ds)) with (S (List.length ds)).
    rewrite S_INR.
    cbn [signed_sum abs_sum fold_right fst snd].
    fold (signed_sum (scaled (FO := binary32_ops) V ds))
         (abs_sum (scaled (FO := binary32_ops) V ds)) (signed_sum ds).
    split; [constructor; [exact Hn|exact IH1]|].
    split; [lra|].
    split.
    + assert (Ea : Rabs ((if b then value a else - value a)
                         - (if b then value d else - value d) * value V)
                   <= u32 * (L * Rabs (value V)) + eta32).
      { destruct b.
        - nra.
        - replace (- value a - - value d * value V)
            with (- (value a - value d * value V)) by ring.
          rewrite Rabs_Ropp. nra. }
      replace ((if b then value a else - value a)
               + signed_sum (scaled (FO := binary32_ops) V ds)
               - ((if b then value d else - value d) + signed_sum ds) * value V)
        with (((if b then value a else - value a)
               - (if b then value d else - value d) * value V)
              + (signed_sum (scaled (FO := binary32_ops) V ds)
                 - signed_sum ds * value V)) by ring.
      eapply Rle_trans; [apply Rabs_triang|]. lra.
    + eapply Rle_trans; [apply Rabs_triang|].
      assert (Rabs (if b then value d else - value d) <= L).
      { destruct b; [|rewrite Rabs_Ropp]; exact Hdl. }
      lra.
Qed.

(** The velocity of a poll of elapsed time [dt], [n] times, against
    the velocity of one poll of elapsed time [T]. *)
Lemma velocities (c dt T : float) (n : nat) :
  is_number32 c = true -> is_number32 dt = true -> is_number32 T = true ->
  (1 <= n)%nat ->
  Rabs (value T - INR n * value dt) <= u32 * Rabs (value T) ->
  Rabs (value c) * Rabs (value T) <= pow2 100 ->
  let Dist := Rabs (value c) * Rabs (value T) in
  let V := SFmul prec32 emax32 c dt in
  let W := SFmul prec32 emax32 c T in
  is_number32 V = true /\ is_number32 W = true
  /\ INR n * Rabs (value V) <= (1 + 3 * u32) * Dist + INR n * eta32
  /\ Rabs (value V) <= (1 + 3 * u32) * Dist + eta32
  /\ Rabs (value W) <= (1 + u32) * Dist + eta32
  /\ Rabs (INR n * value V - value W)
     <= (3 + u32) * u32 * Dist + (INR n + 1) * eta32.
Proof.
  intros Hc Hdt HT Hn HnT HD. cbv zeta.
  pose proof u32_pos as Hu. pose proof eta32_pos as He.
  pose proof u32_value as Uv.
  set (Dist := Rabs (value c) * Rabs (value T)) in *.
  set (N := INR n).
  assert (HN : 1 <= N).
  { unfold N. change 1 with (INR 1). apply le_INR. exact Hn. }
  pose proof (Rabs_pos (value c)) as Pc.
  pose proof (Rabs_pos (value T)) as PT.
  pose proof (Rabs_pos (value dt)) as Pdt.
  assert (HD0 : 0 <= Dist) by (unfold Dist; nra).
  (* n * |dt| is at most |T| inflated by one rounding *)
  assert (Hndt : N * Rabs (value dt) <= (1 + u32) * Rabs (value T)).
  { replace (N * Rabs (value dt)) with (Rabs (N * value dt)).
    2:{ rewrite Rabs_mult, (Rabs_pos_eq N) by lra. reflexivity. }
    replace (N * value dt) with (value T - (value T - N * value dt)) by ring.
    unfold Rminus at 1. eapply Rle_trans; [apply Rabs_triang|].
    rewrite Rabs_Ropp. fold N in HnT. lra. }
  set (x := value c * value dt).
  assert (Hx : N * Rabs x <= (1 + u32) * Dist).
  { unfold x, Dist. rewrite Rabs_mult.
    replace (N * (Rabs (value c) * Rabs (value dt)))
      with (Rabs (value c) * (N * Rabs (value dt))) by ring.
    replace ((1 + u32) * (Rabs (value c) * Rabs (value T)))
      with (Rabs (value c) * ((1 + u32) * Rabs (value T))) by ring.
    apply Rmult_le_compat_l; assumption. }
  assert (Hx1 : Rabs x <= (1 + u32) * Dist).
  { pose proof (Rabs_pos x). nra. }
  pose proof four_pow2_100 as P127.
  destruct (@SFmul_spec c dt Hc Hdt ltac:(fold x; nra)) as [HV EV].
  fold x u32 eta32 in EV.
  set (y := value c * value T).
  assert (Hy : Rabs y = Dist) by (unfold y, Dist; apply Rabs_mult).
  destruct (@SFmul_spec c T Hc HT ltac:(fold y; nra)) as [HW EW].
  fold y u32 eta32 in EW. rewrite Hy in EW.
  set (V := SFmul prec32 emax32 c dt) in *.
  set (W := SFmul prec32 emax32 c T) in *.
  assert (HVa : Rabs (value V) <= (1 + u32) * Rabs x + eta32).
  { replace (value V) with ((value V - x) + x) by ring.
    eapply Rle_trans; [apply Rabs_triang|]. lra. }
  assert (HWa : Rabs (value W) <= (1 + u32) * Dist + eta32).
  { replace (value W) with ((value W - y) + y) by ring.
    eapply Rle_trans; [apply Rabs_triang|]. lra. }
  assert (Hxy : Rabs (N * x - y) <= u32 * Dist).
  { unfold x, y.
    replace (N * (value c * value dt) - value c * value T)
      with (value c * - (value T - N * value dt)) by ring.
    rewrite Rabs_mult, Rabs_Ropp. fold N in HnT. unfold Dist. nra. }
  split; [exact HV|]. split; [exact HW|].
  assert (Ux : u32 * u32 <= u32) by nra.
  assert (NV : N * Rabs (value V) <= (1 + u32) * (N * Rabs x) + N * eta32) by nra.
  assert (Sq : (1 + u32) * ((1 + u32) * Dist) <= (1 + 3 * u32) * Dist) by nra.
  split; [nra|]. split; [nra|]. split; [exact HWa|].
  replace (N * value V - value W)
    with (N * (value V - x) + (N * x - y) + - (value W - y)) by ring.
  eapply Rle_trans; [apply Rabs_triang|].
  eapply Rle_trans;
    [apply Rplus_le_compat; [apply Rabs_triang|apply Rle_refl]|].
  rewrite Rabs_Ropp, Rabs_mult, (Rabs_pos_eq N) by lra.
  assert (N * Rabs (value V - x) <= u32 * (N * Rabs x) + N * eta32) by nra.
  nra.
Qed.

(** The arithmetic of the tolerance: the rounding errors of the two
    walks and the difference of their exact sums add up to at most
    [2 u (N J + J + 3) (P + J L D)], apart from the underflow term. *)
Lemma tolerance_arith
  (N J L D P eta pa NVa Wa dVW aVn eVn aW eW sd errs errb E Gs Gb : R) :
  0 <= eta -> 1 <= N <= 65536 -> 0 <= J <= 6 -> 0 <= L <= 2 -> 0 <= D ->
  0 <= pa <= P ->
  0 <= NVa <= (1 + 3 * u32) * D + N * eta ->
  0 <= Wa <= (1 + u32) * D + eta ->
  0 <= dVW <= (3 + u32) * u32 * D + (N + 1) * eta ->
  0 <= aVn <= J * ((1 + u32) * (L * NVa) + N * eta) ->
  0 <= eVn <= J * (u32 * (L * NVa) + N * eta) ->
  0 <= aW <= J * ((1 + u32) * (L * Wa) + eta) ->
  0 <= eW <= J * (u32 * (L * Wa) + eta) ->
  0 <= sd <= J * L ->
  0 <= Gs <= 2 * (N * J) * u32 ->
  0 <= Gb <= 2 * J * u32 ->
  errs <= Gs * (pa + aVn) ->
  errb <= Gb * (pa + aW) ->
  E <= sd * dVW + eVn + eW ->
  errs + E + errb
  <= 2 * u32 * (N * J + J + 3) * (P + J * (L * D)) + 2097152 * eta.
Proof.
  intros He HN HJ HL HD Hpa HNV HW HdVW HaV HeV HaW HeW Hsd HGs HGb Hes Heb HE.
  pose proof u32_pos as Hu. revert Hu. rewrite u32_value in *.
  set (u := / 16777216) in *. intro Hu.
  assert (Uv : u = / 16777216) by reflexivity. clearbody u.
  set (A := J * (L * D)).
  assert (HLD : 0 <= L * D) by (apply Rmult_le_pos; lra).
  assert (HA : 0 <= A) by (unfold A; apply Rmult_le_pos; lra).
  assert (HJL0 : 0 <= J * L) by (apply Rmult_le_pos; lra).
  assert (HJL : J * L <= 12).
  { assert (J * L <= 6 * L) by (apply Rmult_le_compat_r; lra). lra. }
  assert (HNe : 0 <= N * eta) by (apply Rmult_le_pos; lra).
  assert (HN1e : 0 <= (N + 1) * eta) by (apply Rmult_le_pos; lra).
  assert (UD : 0 <= u * D) by (apply Rmult_le_pos; lra).
  assert (UA0 : 0 <= u * A) by (apply Rmult_le_pos; lra).
  assert (UUA0 : 0 <= u * (u * A)) by (apply Rmult_le_pos; lra).
  assert (UUA1 : u * (u * A) <= / 1000000 * (u * A)).
  { apply Rmult_le_compat_r; lra. }
  assert (UNe0 : 0 <= u * (N * eta)) by (apply Rmult_le_pos; lra).
  assert (UNe1 : u * (N * eta) <= / 1000000 * (N * eta)).
  { apply Rmult_le_compat_r; lra. }
  assert (Ue0 : 0 <= u * eta) by (apply Rmult_le_pos; lra).
  assert (Ue1 : u * eta <= / 1000000 * eta).
  { apply Rmult_le_compat_r; lra. }
  assert (JNe : J * (N * eta) <= 6 * (N * eta)).
  { apply Rmult_le_compat_r; lra. }
  assert (Je : J * eta <= 6 * eta).
  { apply Rmult_le_compat_r; lra. }
  (* the magnitudes added by the two walks *)
  assert (B1 : J * (L * NVa) <= (1 + 3 * u) * A + 12 * (N * eta)).
  { assert (J * L * NVa <= J * L * ((1 + 3 * u) * D + N * eta)).
    { apply Rmult_le_compat_l; lra. }
    assert (J * L * (N * eta) <= 12 * (N * eta)).
    { apply Rmult_le_compat_r; lra. }
    unfold A. lra. }
  assert (B2 : J * (L * Wa) <= (1 + u) * A + 12 * eta).
  { assert (J * L * Wa <= J * L * ((1 + u) * D + eta)).
    { apply Rmult_le_compat_l; lra. }
    assert (J * L * eta <= 12 * eta).
    { apply Rmult_le_compat_r; lra. }
    unfold A. lra. }
  assert (S1 : aVn <= (1 + 5 * u) * A + 30 * (N * eta)).
  { assert ((1 + u) * (J * (L * NVa))
            <= (1 + u) * ((1 + 3 * u) * A + 12 * (N * eta))).
    { apply Rmult_le_compat_l; lra. }
    lra. }
  assert (S2 : aW <= (1 + 5 * u) * A + 30 * eta).
  { assert ((1 + u) * (J * (L * Wa))
            <= (1 + u) * ((1 + u) * A + 12 * eta)).
    { apply Rmult_le_compat_l; lra. }
    lra. }
  assert (E1 : eVn <= u * ((1 + 3 * u) * A + 12 * (N * eta)) + 6 * (N * eta)).
  { assert (u * (J * (L * NVa)) <= u * ((1 + 3 * u) * A + 12 * (N * eta))).
    { apply Rmult_le_compat_l; lra. }
    lra. }
  assert (E2 : eW <= u * ((1 + u) * A + 12 * eta) + 6 * eta).
  { assert (u * (J * (L * Wa)) <= u * ((1 + u) * A + 12 * eta)).
    { apply Rmult_le_compat_l; lra. }
    lra. }
  assert (E3 : sd * dVW <= (3 + u) * u * A + 12 * ((N + 1) * eta)).
  { assert (sd * dVW <= J * L * dVW).
    { apply Rmult_le_compat_r; lra. }
    assert (J * L * dVW <= J * L * ((3 + u) * u * D + (N + 1) * eta)).
    { apply Rmult_le_compat_l; lra. }
    assert (J * L * ((N + 1) * eta) <= 12 * ((N + 1) * eta)).
    { apply Rmult_le_compat_r; lra. }
    unfold A. lra. }
  (* the whole *)
  set (S := P + A).
  assert (HS : 0 <= S) by (unfold S; lra).
  assert (HAS : A <= S) by (unfold S; lra).
  assert (US : 0 <= u * S) by (apply Rmult_le_pos; lra).
  assert (UAS : u * A <= u * S) by (apply Rmult_le_compat_l; lra).
  assert (HNJ0 : 0 <= N * J) by (apply Rmult_le_pos; lra).
  assert (HNJ : N * J <= 65536 * 6).
  { assert (N * J <= 65536 * J) by (apply Rmult_le_compat_r; lra). lra. }
  assert (GsB : Gs <= 3 / 64).
  { assert (2 * (N * J) * u <= 2 * (65536 * 6) * u).
    { apply Rmult_le_compat_r; lra. }
    lra. }
  assert (GbB : Gb <= / 1000000).
  { assert (2 * J * u <= 2 * 6 * u).
    { apply Rmult_le_compat_r; lra. }
    lra. }
  assert (T1 : errs <= 2 * (N * J) * u * S + 3 / 64 * (5 * (u * S))
                       + 3 / 64 * (30 * (N * eta))).
  { assert (Gs * (pa + aVn) <= Gs * (S + 5 * (u * S) + 30 * (N * eta))).
    { apply Rmult_le_compat_l; [lra|]. unfold S in *. lra. }
    assert (Gs * S <= 2 * (N * J) * u * S).
    { apply Rmult_le_compat_r; lra. }
    assert (Gs * (5 * (u * S)) <= 3 / 64 * (5 * (u * S))).
    { apply Rmult_le_compat_r; lra. }
    assert (Gs * (30 * (N * eta)) <= 3 / 64 * (30 * (N * eta))).
    { apply Rmult_le_compat_r; lra. }
    lra. }
  assert (T2 : errb <= 2 * J * u * S + / 1000000 * (5 * (u * S))
                       + / 1000000 * (30 * eta)).
  { assert (Gb * (pa + aW) <= Gb * (S + 5 * (u * S) + 30 * eta)).
    { apply Rmult_le_compat_l; [lra|]. unfold S in *. lra. }
    assert (Gb * S <= 2 * J * u * S).
    { apply Rmult_le_compat_r; lra. }
    assert (Gb * (5 * (u * S)) <= / 1000000 * (5 * (u * S))).
    { apply Rmult_le_compat_r; lra. }
    assert (Gb * (30 * eta) <= / 1000000 * (30 * eta)).
    { apply Rmult_le_compat_r; lra. }
    lra. }
  assert (T3 : E <= (5 + / 100000) * (u * S) + 19 * ((N + 1) * eta)).
  { lra. }
  assert (NE : N * eta <= 65536 * eta).
  { apply Rmult_le_compat_r; lra. }
  fold A. fold S. lra.
Qed.

Lemma magnitude_arith (N J L D eta NVa aVn : R) :
  0 <= eta -> 0 <= N -> 0 <= J <= 6 -> 0 <= L <= 2 -> 0 <= D ->
  0 <= NVa <= (1 + 3 * u32) * D + N * eta ->
  aVn <= J * ((1 + u32) * (L * NVa) + N * eta) ->
  aVn <= (1 + 5 * u32) * (J * (L * D)) + 30 * (N * eta).
Proof.
  intros He HN HJ HL HD HNV HaV.
  pose proof u32_pos as Hu. revert Hu. rewrite u32_value in *.
  set (u := / 16777216) in *. intro Hu.
  assert (Uv : u = / 16777216) by reflexivity. clearbody u.
  set (A := J * (L * D)).
  assert (HA : 0 <= A).
  { unfold A. apply Rmult_le_pos; [lra|]. apply Rmult_le_pos; lra. }
  assert (HJL : 0 <= J * L <= 12) by nra.
  assert (HNe : 0 <= N * eta) by nra.
  assert (B1 : J * (L * NVa) <= (1 + 3 * u) * A + 12 * (N * eta)).
  { unfold A.
    assert (J * L * NVa <= J * L * ((1 + 3 * u) * D + N * eta)).
    { apply Rmult_le_compat_l; lra. }
    assert (J * L * (N * eta) <= 12 * (N * eta)).
    { apply Rmult_le_compat_r; lra. }
    nra. }
  assert (JNe : J * (N * eta) <= 6 * (N * eta)).
  { apply Rmult_le_compat_r; lra. }
  assert (aVn <= (1 + u) * (J * (L * NVa)) + J * (N * eta)) by lra.
  assert ((1 + u) * (J * (L * NVa))
          <= (1 + u) * ((1 + 3 * u) * A + 12 * (N * eta))).
  { apply Rmult_le_compat_l; lra. }
  nra.
Qed.

Lemma eta32_scaled : 2097152 * eta32 = pow2 (-129).
Proof.
  unfold eta32. replace (-129)%Z with (21 + -150)%Z by lia.
  rewrite pow2_add. f_equal. unfold pow2. simpl. lra.
Qed.

Lemma pow2_100_ge : 1 <= pow2 100.
Proof.
  replace 1 with (pow2 0) by (unfold pow2; simpl; lra).
  apply pow2_le. lia.
Qed.

Lemma eight_pow2_100 : 8 * pow2 100 < pow2 127.
Proof.
  assert (E : pow2 3 = 8) by (unfold pow2; simpl; lra).
  rewrite <- E, <- pow2_add. apply pow2_lt. lia.
Qed.

Lemma pow2_m129_le : pow2 (-129) <= 1.
Proof.
  replace 1 with (pow2 0) by (unfold pow2; simpl; lra).
  apply pow2_le. lia.
Qed.

Lemma pow2_m23 : pow2 (-23) = 2 * u32.
Proof.
  unfold u32. replace (-23)%Z with (-24 + 1)%Z by lia. apply pow2_succ.
Qed.

(** One coordinate of the position after [n] polls of [dt] seconds and
    after one poll of [T] seconds, where [T] is [n * dt] up to one
    rounding: both are numbers, and they differ by at most [2^-23] of
    the distances involved for every rounding made. *)
Lemma coordinate_tolerance (p : float) (ds : list (bool * float))
    (c dt T : float) (n : nat) (P L : R) :
  is_number32 p = true -> Rabs (value p) <= P ->
  Forall (fun sd : bool * float =>
            is_number32 (snd sd) = true /\ Rabs (value (snd sd)) <= L) ds ->
  0 <= L <= 2 -> (List.length ds <= 6)%nat ->
  is_number32 c = true -> is_number32 dt = true -> is_number32 T = true ->
  (1 <= n)%nat -> (Z.of_nat n <= 65536)%Z ->
  Rabs (value T - INR n * value dt) <= u32 * Rabs (value T) ->
  Rabs (value c) * Rabs (value T) <= pow2 100 ->
  P + INR (List.length ds) * (L * (Rabs (value c) * Rabs (value T)))
    <= pow2 100 ->
  let a := walk (FO := binary32_ops) p
             (List.concat (repeat (scaled (FO := binary32_ops)
                                     (SFmul prec32 emax32 c dt) ds) n)) in
  let b := walk (FO := binary32_ops) p
             (scaled (FO := binary32_ops) (SFmul prec32 emax32 c T) ds) in
  is_number32 a = true /\ is_number32 b = true
  /\ Rabs (value a - value b)
     <= pow2 (-23) * INR (List.length ds * n + List.length ds + 3)
        * (P + INR (List.length ds) * (L * (Rabs (value c) * Rabs (value T))))
        + pow2 (-129).
Proof.
  intros Hp HP Hds HL HJ Hc Hdt HT Hn1 Hn2 HnT HD HS. cbv zeta.
  pose proof u32_pos as Hu. pose proof eta32_pos as He.
  pose proof u32_value as Uv.
  pose proof pow2_100_ge as G100. pose proof eight_pow2_100 as G127.
  pose proof eta32_scaled as Es. pose proof pow2_m129_le as E129.
  destruct (@velocities c dt T n Hc Hdt HT Hn1 HnT HD)
    as (HV & HW & HNV & _ & HWb & HdVW).
  rewrite pow2_m23, plus_INR, plus_INR, mult_INR, <- Es.
  replace (INR 3) with 3 by (simpl; lra).
  set (Dist := Rabs (value c) * Rabs (value T)) in *.
  set (V := SFmul prec32 emax32 c dt) in *.
  set (W := SFmul prec32 emax32 c T) in *.
  set (J := INR (List.length ds)) in *.
  set (N := INR n) in *.
  assert (HJR : 0 <= J <= 6).
  { unfold J. split; [apply pos_INR|].
    replace 6 with (INR 6) by (simpl; lra). apply le_INR. exact HJ. }
  assert (HNR : 1 <= N <= 65536).
  { unfold N. split.
    - replace 1 with (INR 1) by (simpl; lra). apply le_INR. exact Hn1.
    - rewrite INR_IZR_INZ. apply IZR_le. exact Hn2. }
  pose proof (Rabs_pos (value p)) as Pp.
  pose proof (Rabs_pos (value V)) as PV.
  pose proof (Rabs_pos (value W)) as PW.
  assert (HD0 : 0 <= Dist).
  { unfold Dist. apply Rmult_le_pos; apply Rabs_pos. }
  set (A := J * (L * Dist)) in *.
  assert (HA0 : 0 <= A).
  { unfold A. apply Rmult_le_pos; [lra|]. apply Rmult_le_pos; lra. }
  assert (HNV0 : 0 <= N * Rabs (value V)) by (apply Rmult_le_pos; lra).
  assert (HVb : Rabs (value V) <= N * Rabs (value V)).
  { rewrite <- (Rmult_1_l (Rabs (value V))) at 1.
    apply Rmult_le_compat_r; lra. }
  assert (UD0 : 0 <= u32 * Dist) by (apply Rmult_le_pos; lra).
  assert (UD : u32 * Dist <= / 1000000 * Dist).
  { apply Rmult_le_compat_r; lra. }
  assert (NE : N * eta32 <= 65536 * eta32).
  { apply Rmult_le_compat_r; lra. }
  assert (LV : L * Rabs (value V) < pow2 127).
  { assert (L * Rabs (value V) <= 2 * Rabs (value V)).
    { apply Rmult_le_compat_r; lra. }
    lra. }
  assert (LW : L * Rabs (value W) < pow2 127).
  { assert (L * Rabs (value W) <= 2 * Rabs (value W)).
    { apply Rmult_le_compat_r; lra. }
    lra. }
  destruct (@scaled_moves ds V L HV Hds (proj1 HL) LV) as (FV & AV & EV & SD).
  destruct (@scaled_moves ds W L HW Hds (proj1 HL) LW) as (FW & AW & EW & _).
  cbv zeta in FV, AV, EV, FW, AW, EW.
  set (msV := scaled (FO := binary32_ops) V ds) in *.
  set (msW := scaled (FO := binary32_ops) W ds) in *.
  fold J in AV, EV, SD, AW, EW.
  assert (LenV : List.length msV = List.length ds).
  { unfold msV, scaled. apply length_map. }
  assert (LenW : List.length msW = List.length ds).
  { unfold msW, scaled. apply length_map. }
  pose proof (abs_sum_nonneg msV) as AV0.
  pose proof (abs_sum_nonneg msW) as AW0.
  (* the quantities of the two runs *)
  assert (HaVn : 0 <= N * abs_sum msV
                 <= J * ((1 + u32) * (L * (N * Rabs (value V))) + N * eta32)).
  { split; [apply Rmult_le_pos; lra|].
    replace (J * ((1 + u32) * (L * (N * Rabs (value V))) + N * eta32))
      with (N * (J * ((1 + u32) * (L * Rabs (value V)) + eta32))) by ring.
    apply Rmult_le_compat_l; lra. }
  assert (HeVn : 0 <= N * Rabs (signed_sum msV - signed_sum ds * value V)
                 <= J * (u32 * (L * (N * Rabs (value V))) + N * eta32)).
  { split; [apply Rmult_le_pos; [lra|apply Rabs_pos]|].
    replace (J * (u32 * (L * (N * Rabs (value V))) + N * eta32))
      with (N * (J * (u32 * (L * Rabs (value V)) + eta32))) by ring.
    apply Rmult_le_compat_l; lra. }
  assert (M1 : N * abs_sum msV <= (1 + 5 * u32) * A + 30 * (N * eta32)).
  { apply (@magnitude_arith N J L Dist eta32 (N * Rabs (value V)));
      try lra. }
  assert (M2 : abs_sum msW <= (1 + 5 * u32) * A + 30 * (1 * eta32)).
  { apply (@magnitude_arith 1 J L Dist eta32 (Rabs (value W))); lra. }
  assert (UA : u32 * A <= / 1000000 * A).
  { apply Rmult_le_compat_r; lra. }
  (* the run of [n] polls *)
  set (runs := List.concat (repeat msV n)) in *.
  assert (LenS : INR (List.length runs) = N * J).
  { unfold runs. rewrite length_concat_repeat, LenV, mult_INR. reflexivity. }
  assert (HNJ : 0 <= N * J <= 393216).
  { split; [apply Rmult_le_pos; lra|].
    assert (N * J <= 65536 * J) by (apply Rmult_le_compat_r; lra). lra. }
  assert (GS : (1 + u32) ^ List.length runs <= 1 + 2 * (N * J) * u32).
  { rewrite <- LenS. apply compound_bound; [lra|]. rewrite LenS.
    assert (2 * (N * J) * u32 <= 2 * 393216 * u32).
    { apply Rmult_le_compat_r; lra. }
    lra. }
  assert (GS1 : 1 <= (1 + u32) ^ List.length runs).
  { apply pow_R1_Rle. lra. }
  assert (GS2 : (1 + u32) ^ List.length runs <= 2).
  { assert (2 * (N * J) * u32 <= 2 * 393216 * u32).
    { apply Rmult_le_compat_r; lra. }
    lra. }
  assert (AS : abs_sum runs = N * abs_sum msV).
  { unfold runs. apply abs_sum_repeat. }
  assert (SS : signed_sum runs = N * signed_sum msV).
  { unfold runs. apply signed_sum_repeat. }
  assert (PS : (1 + u32) ^ List.length runs * (Rabs (value p) + abs_sum runs)
               < pow2 127).
  { rewrite AS.
    assert ((1 + u32) ^ List.length runs * (Rabs (value p) + N * abs_sum msV)
            <= 2 * (Rabs (value p) + N * abs_sum msV)).
    { apply Rmult_le_compat_r; lra. }
    lra. }
  destruct (@walk_error runs p Hp
              (@Forall_concat_repeat _ _ _ n FV) PS) as (Ha & Ea).
  rewrite AS, SS in Ea.
  (* the single poll *)
  assert (GB : (1 + u32) ^ List.length msW <= 1 + 2 * J * u32).
  { rewrite LenW. apply compound_bound; [lra|]. fold J.
    assert (2 * J * u32 <= 2 * 6 * u32).
    { apply Rmult_le_compat_r; lra. }
    lra. }
  assert (GB1 : 1 <= (1 + u32) ^ List.length msW).
  { apply pow_R1_Rle. lra. }
  assert (GB2 : (1 + u32) ^ List.length msW <= 2).
  { assert (2 * J * u32 <= 2 * 6 * u32).
    { apply Rmult_le_compat_r; lra. }
    lra. }
  assert (PB : (1 + u32) ^ List.length msW * (Rabs (value p) + abs_sum msW)
               < pow2 127).
  { assert ((1 + u32) ^ List.length msW * (Rabs (value p) + abs_sum msW)
            <= 2 * (Rabs (value p) + abs_sum msW)).
    { apply Rmult_le_compat_r; lra. }
    lra. }
  destruct (@walk_error msW p Hp FW PB) as (Hb & Eb).
  split; [exact Ha|]. split; [exact Hb|].
  set (va := value (walk (FO := binary32_ops) p runs)) in *.
  set (vb := value (walk (FO := binary32_ops) p msW)) in *.
  (* the exact sums of the two runs *)
  assert (HE : Rabs (N * signed_sum msV - signed_sum msW)
               <= Rabs (signed_sum ds) * Rabs (N * value V - value W)
                  + N * Rabs (signed_sum msV - signed_sum ds * value V)
                  + Rabs (signed_sum msW - signed_sum ds * value W)).
  { replace (N * signed_sum msV - signed_sum msW)
      with (N * (signed_sum msV - signed_sum ds * value V)
            + signed_sum ds * (N * value V - value W)
            + - (signed_sum msW - signed_sum ds * value W)) by ring.
    eapply Rle_trans; [apply Rabs_triang|].
    eapply Rle_trans;
      [apply Rplus_le_compat; [apply Rabs_triang|apply Rle_refl]|].
    rewrite Rabs_Ropp, !Rabs_mult, (Rabs_pos_eq N) by lra. lra. }
  assert (Hab : Rabs (va - vb)
                <= Rabs (va - (value p + N * signed_sum msV))
                   + Rabs (N * signed_sum msV - signed_sum msW)
                   + Rabs (vb - (value p + signed_sum msW))).
  { replace (va - vb)
      with ((va - (value p + N * signed_sum msV))
            + (N * signed_sum msV - signed_sum msW)
            + - (vb - (value p + signed_sum msW))) by ring.
    eapply Rle_trans; [apply Rabs_triang|].
    eapply Rle_trans;
      [apply Rplus_le_compat; [apply Rabs_triang|apply Rle_refl]|].
    rewrite Rabs_Ropp. lra. }
  eapply Rle_trans; [exact Hab|].
  replace (J * N + J + 3) with (N * J + J + 3) by ring.
  apply (@tolerance_arith N J L Dist P eta32 (Rabs (value p))
           (N * Rabs (value V)) (Rabs (value W))
           (Rabs (N * value V - value W))
           (N * abs_sum msV)
           (N * Rabs (signed_sum msV - signed_sum ds * value V))
           (abs_sum msW)
           (Rabs (signed_sum msW - signed_sum ds * value W))
           (Rabs (signed_sum ds))
           _ _ _
           ((1 + u32) ^ List.length runs - 1)
           ((1 + u32) ^ List.length msW - 1));
    try assumption; try lra;
    try (split; [apply Rabs_pos|lra]).
Qed.

End Walk32.

(** ** Frame-rate independence of the movement in binary32 *)

Section FrameRate32.
Context {lm : Libm}.
Local Open Scope R_scope.

Lemma concat_repeat_nil (A : Type) (n : nat) :
  List.concat (repeat (@nil A) n) = [].
Proof. induction n as [|n IH]; [reflexivity|exact IH]. Qed.

Lemma tolerance_nonneg (h m : nat) (P reach : R) :
  0 <= P -> 0 <= reach ->
  0 <= pow2 (-23) * INR m * (P + INR h * (2 * reach)) + pow2 (-129).
Proof.
  intros HP Hr.
  pose proof (pow2_pos (-23)) as P23. pose proof (pow2_pos (-129)) as P129.
  pose proof (pos_INR m) as Pm. pose proof (pos_INR h) as Ph.
  assert (0 <= INR h * (2 * reach)) by (apply Rmult_le_pos; lra).
  assert (0 <= pow2 (-23) * INR m) by (apply Rmult_le_pos; lra).
  assert (0 <= pow2 (-23) * INR m * (P + INR h * (2 * reach))).
  { apply Rmult_le_pos; lra. }
  lra.
Qed.

(** One coordinate [co] of the position, after [n] polls of [dt]
    seconds and after one poll of [T] seconds. *)
Lemma position_coordinate (co : vec3 float -> float)
  (Hwalk : forall (ms : list (bool * vec3 float)) (p : vec3 float),
      co (fold_left (apply_move (FO := binary32_ops)) ms p)
      = walk (FO := binary32_ops) (co p) (coordinate_moves co ms))
  (Hkm : forall (k : Keys) (c : Camera float) (v : float),
      coordinate_moves co (key_moves (FO := binary32_ops) k c v)
      = scaled (FO := binary32_ops) v
          (coordinate_moves co (key_directions (FO := binary32_ops) k c)))
  (s : State float) (k : Keys) (dt T : float) (n : nat) (P : R) :
  is_number32 (co (Position (g_pCamera s))) = true ->
  Rabs (value (co (Position (g_pCamera s)))) <= P ->
  Forall (fun sd : bool * vec3 float =>
            is_number32 (co (snd sd)) = true
            /\ Rabs (value (co (snd sd))) <= 2)
    (key_directions (FO := binary32_ops) k (g_pCamera s)) ->
  is_number32 (move_speed (FO := binary32_ops) s) = true ->
  is_number32 dt = true -> is_number32 T = true ->
  (1 <= n)%nat -> (Z.of_nat n <= 65536)%Z ->
  Rabs (value T - INR n * value dt) <= u32 * Rabs (value T) ->
  P + INR (held_count k)
      * (2 * (Rabs (value (move_speed (FO := binary32_ops) s))
              * Rabs (value T))) <= pow2 100 ->
  is_number32
    (co (Position (g_pCamera (poll_frames (FO := binary32_ops) n dt k s))))
  = true
  /\ is_number32
       (co (Position (g_pCamera (poll_frame (FO := binary32_ops) T k s))))
     = true
  /\ Rabs
       (value (co (Position
                     (g_pCamera (poll_frames (FO := binary32_ops) n dt k s))))
        - value (co (Position
                       (g_pCamera (poll_frame (FO := binary32_ops) T k s)))))
     <= pow2 (-23) * INR (held_count k * n + held_count k + 3)
        * (P + INR (held_count k)
               * (2 * (Rabs (value (move_speed (FO := binary32_ops) s))
                       * Rabs (value T))))
        + pow2 (-129).
Proof.
  intros Hp HP Hds Hc Hdt HT Hn1 Hn2 HnT HS.
  pose proof (Rabs_pos (value (co (Position (g_pCamera s))))) as Pp.
  set (reach := Rabs (value (move_speed (FO := binary32_ops) s))
                * Rabs (value T)) in *.
  assert (Hr : 0 <= reach).
  { unfold reach. apply Rmult_le_pos; apply Rabs_pos. }
  assert (Triv :
    is_number32 (co (Position (g_pCamera s))) = true
    /\ is_number32 (co (Position (g_pCamera s))) = true
    /\ Rabs (value (co (Position (g_pCamera s)))
             - value (co (Position (g_pCamera s))))
       <= pow2 (-23) * INR (held_count k * n + held_count k + 3)
          * (P + INR (held_count k) * (2 * reach)) + pow2 (-129)).
  { split; [exact Hp|]. split; [exact Hp|].
    unfold Rminus. rewrite Rplus_opp_r, Rabs_R0.
    apply tolerance_nonneg; lra. }
  destruct (@frames_against_one _ _ binary32_ops n dt T k s Hn1) as [Ea Eb].
  cbv zeta in Ea, Eb. rewrite Ea, Eb. clear Ea Eb.
  destruct (bOrthographicProjection (poll_frame (FO := binary32_ops) T k s));
    [exact Triv|].
  rewrite !Hwalk, coordinate_moves_concat, !Hkm.
  pose proof (key_directions_length (FO := binary32_ops) k (g_pCamera s))
    as Hlen.
  remember (coordinate_moves co
              (key_directions (FO := binary32_ops) k (g_pCamera s)))
    as ds eqn:Eds.
  assert (Lds : List.length ds = held_count k).
  { rewrite Eds. unfold coordinate_moves. rewrite length_map. exact Hlen. }
  assert (Fds : Forall (fun sd : bool * float =>
                          is_number32 (snd sd) = true
                          /\ Rabs (value (snd sd)) <= 2) ds).
  { rewrite Eds. unfold coordinate_moves. apply Forall_map.
    eapply Forall_impl; [|exact Hds]. intros sd H. exact H. }
  assert (L6 : (List.length ds <= 6)%nat).
  { rewrite Lds, <- Hlen. unfold key_directions.
    destruct (KEY_W k), (KEY_S k), (KEY_A k), (KEY_D k), (KEY_Q k),
      (KEY_E k); simpl; lia. }
  clear Eds Hlen Hds. rewrite <- Lds in *.
  destruct ds as [|d ds'].
  - cbn [scaled map]. rewrite concat_repeat_nil. exact Triv.
  - assert (J1 : 1 <= INR (List.length (d :: ds'))).
    { replace 1 with (INR 1) by (simpl; lra). apply le_INR. simpl. lia. }
    apply coordinate_tolerance; try assumption.
    + lra.
    + fold reach.
      assert (2 * reach <= INR (List.length (d :: ds')) * (2 * reach)).
      { rewrite <- (Rmult_1_l (2 * reach)) at 1.
        apply Rmult_le_compat_r; lra. }
      lra.
Qed.

(** C7.  Movement in binary32, the arithmetic of the program.  A poll
    in Perspective mode (the mode after its toggles) moves the camera
    along the direction of every movement key held, scaled by
    [gBaseMoveSpeed * gSpeedScale * dt]; a poll in Orthographic mode
    does not move it.  [n] polls of [dt] seconds, for [n] from 1 to
    65536, and one poll of [T] seconds, where [T] is [n * dt] up to
    one rounding, leave the camera at positions made of numbers that
    agree in every coordinate up to
    [2^-23 * (h n + h + 3) * (P + 2 h reach) + 2^-129], where [h] is
    the number of movement keys held, [P] bounds the coordinates of
    the position before, [reach] is the magnitude of
    [gBaseMoveSpeed * gSpeedScale * T], and the directions of the keys
    held have coordinates of magnitude at most 2. *)
Theorem movement_frame_rate_independent :
  (forall (s : State float) (k : Keys) (dt : float),
     Position (g_pCamera (poll_frame (FO := binary32_ops) dt k s)) =
     if bOrthographicProjection (poll_frame (FO := binary32_ops) dt k s)
     then Position (g_pCamera s)
     else fold_left (apply_move (FO := binary32_ops))
            (key_moves (FO := binary32_ops) k (g_pCamera s)
               (SFmul prec32 emax32
                  (SFmul prec32 emax32 (float_of_Q 6.0) (gSpeedScale s)) dt))
            (Position (g_pCamera s)))
  /\ (forall (s : State float) (k : Keys) (dt T : float) (n : nat) (P : R),
        vec_numbers (Position (g_pCamera s)) = true ->
        vec_within P (Position (g_pCamera s)) ->
        Forall (fun sd : bool * vec3 float =>
                  vec_numbers (snd sd) = true /\ vec_within 2 (snd sd))
          (key_directions (FO := binary32_ops) k (g_pCamera s)) ->
        is_number32 (move_speed (FO := binary32_ops) s) = true ->
        is_number32 dt = true -> is_number32 T = true ->
        (1 <= n)%nat -> (Z.of_nat n <= 65536)%Z ->
        Rabs (value T - INR n * value dt) <= u32 * Rabs (value T) ->
        P + INR (held_count k)
            * (2 * (Rabs (value (move_speed (FO := binary32_ops) s))
                    * Rabs (value T))) <= pow2 100 ->
        vec_numbers
          (Position (g_pCamera (poll_frames (FO := binary32_ops) n dt k s)))
        = true
        /\ vec_numbers
             (Position (g_pCamera (poll_frame (FO := binary32_ops) T k s)))
           = true
        /\ vec_close
             (frame_tolerance (held_count k) n P
                (Rabs (value (move_speed (FO := binary32_ops) s))
                 * Rabs (value T)))
             (Position (g_pCamera (poll_frames (FO := binary32_ops) n dt k s)))
             (Position (g_pCamera (poll_frame (FO := binary32_ops) T k s)))).
Proof.
  split.
  - intros s k dt. apply (poll_frame_moves (FO := binary32_ops) dt k s).
  - intros s k dt T n P Hp HP Hds Hc Hdt HT Hn1 Hn2 HnT HS.
    unfold vec_numbers in Hp. apply andb_prop in Hp. destruct Hp as [Hp Hpz].
    apply andb_prop in Hp. destruct Hp as [Hpx Hpy].
    destruct HP as (HPx & HPy & HPz).
    assert (Dx : Forall (fun sd : bool * vec3 float =>
                           is_number32 (vx (snd sd)) = true
                           /\ Rabs (value (vx (snd sd))) <= 2)
                   (key_directions (FO := binary32_ops) k (g_pCamera s))).
    { eapply Forall_impl; [|exact Hds]. intros sd [Hn (Hx & _ & _)].
      unfold vec_numbers in Hn. apply andb_prop in Hn. destruct Hn as [Hn _].
      apply andb_prop in Hn. destruct Hn as [Hn _]. split; assumption. }
    assert (Dy : Forall (fun sd : bool * vec3 float =>
                           is_number32 (vy (snd sd)) = true
                           /\ Rabs (value (vy (snd sd))) <= 2)
                   (key_directions (FO := binary32_ops) k (g_pCamera s))).
    { eapply Forall_impl; [|exact Hds]. intros sd [Hn (_ & Hy & _)].
      unfold vec_numbers in Hn. apply andb_prop in Hn. destruct Hn as [Hn _].
      apply andb_prop in Hn. destruct Hn as [_ Hn]. split; assumption. }
    assert (Dz : Forall (fun sd : bool * vec3 float =>
                           is_number32 (vz (snd sd)) = true
                           /\ Rabs (value (vz (snd sd))) <= 2)
                   (key_directions (FO := binary32_ops) k (g_pCamera s))).
    { eapply Forall_impl; [|exact Hds]. intros sd [Hn (_ & _ & Hz)].
      unfold vec_numbers in Hn. apply andb_prop in Hn. destruct Hn as [_ Hn].
      split; assumption. }
    destruct (@position_coordinate (@vx float)
                (walk_vx (FO := binary32_ops))
                (coordinate_key_moves_vx (FO := binary32_ops))
                s k dt T n P Hpx HPx Dx Hc Hdt HT Hn1 Hn2 HnT HS)
      as (Xa & Xb & Xc).
    destruct (@position_coordinate (@vy float)
                (walk_vy (FO := binary32_ops))
                (coordinate_key_moves_vy (FO := binary32_ops))
                s k dt T n P Hpy HPy Dy Hc Hdt HT Hn1 Hn2 HnT HS)
      as (Ya & Yb & Yc).
    destruct (@position_coordinate (@vz float)
                (walk_vz (FO := binary32_ops))
                (coordinate_key_moves_vz (FO := binary32_ops))
                s k dt T n P Hpz HPz Dz Hc Hdt HT Hn1 Hn2 HnT HS)
      as (Za & Zb & Zc).
    unfold vec_numbers, vec_close, frame_tolerance.
    rewrite Xa, Ya, Za, Xb, Yb, Zb. repeat split; assumption.
Qed.

End FrameRate32.

Lemma movement_frame_rate_independent_witness :
  vec_close
    (frame_tolerance (held_count key_W) 600 12
       (Rabs (value (move_speed (FO := binary32_ops (lm := series_libm))
                       (started NULL)))
        * Rabs (value whole_run)))
    (Position (g_pCamera
       (poll_frames (FO := binary32_ops (lm := series_libm)) 600 sixtieth
          key_W (started NULL))))
    (Position (g_pCamera
       (poll_frame (FO := binary32_ops (lm := series_libm)) whole_run
          key_W (started NULL))))
  /\ (frame_tolerance (held_count key_W) 600 12
        (Rabs (value (move_speed (FO := binary32_ops (lm := series_libm))
                        (started NULL)))
         * Rabs (value whole_run))
      < 1 / 100)%R.
Proof.
  split.
  - apply (proj2 (@movement_frame_rate_independent series_libm)).
    + vm_compute. reflexivity.
    + unfold vec_within. eval_values.
      repeat split; apply Rabs_le; lra.
    + eval_float (key_directions (FO := binary32_ops (lm := series_libm))
                    key_W (g_pCamera (started NULL))).
      constructor; [|constructor]. split; [vm_compute; reflexivity|].
      unfold vec_within. cbn [snd vx vy vz]. eval_values.
      repeat split; apply Rabs_le; lra.
    + vm_compute. reflexivity.
    + vm_compute. reflexivity.
    + vm_compute. reflexivity.
    + lia.
    + vm_compute. discriminate.
    + rewrite u32_value, INR_IZR_INZ. simpl Z.of_nat. eval_values.
      rewrite (Rabs_pos_eq (IZR _ * _)) by lra. apply Rabs_le. lra.
    + replace (INR (held_count key_W)) with 1%R by (vm_compute; lra).
      assert (G : (256 <= pow2 100)%R).
      { apply Rle_trans with (pow2 8); [unfold pow2; simpl; lra|].
        apply pow2_le. lia. }
      revert G. generalize (pow2 100). intros big G.
      eval_values. rewrite !Rabs_pos_eq by lra. lra.
  - unfold frame_tolerance.
    replace (INR (held_count key_W * 600 + held_count key_W + 3))
      with 604%R.
    2:{ rewrite INR_IZR_INZ. vm_compute Z.of_nat. reflexivity. }
    replace (INR (held_count key_W)) with 1%R by (vm_compute; lra).
    assert (E : (pow2 (-129) <= / 8388608)%R).
    { apply Rle_trans with (pow2 (-23)); [apply pow2_le; lia|].
      unfold pow2. simpl. lra. }
    revert E. generalize (pow2 (-129)). intros tiny E.
    eval_values. rewrite !Rabs_pos_eq by lra. lra.
Defined.

(** C7, counterexample to a fixed tolerance.  From the state of the
    constructor with W held, 600 polls of a sixtieth of a second end
    at z = -14155709 / 2^17 (-107.99949) and one poll of 600 times a
    sixtieth, the product computed in binary32, at z = -14155778 / 2^17
    (-108.00002): the two differ by more than 1e-5.  With the camera
    at z = 2^24 the 600 polls do not move it along z at all, each step
    being less than half the spacing of the floats there, while the
    one poll moves it by 120. *)
Lemma small_polls_drift_from_one_poll :
  whole_run = S754_finite false 10485761 (-20)
  /\ vz (Position (g_pCamera
           (poll_frames (FO := binary32_ops (lm := series_libm)) 600 sixtieth
              key_W (started NULL))))
     = S754_finite true 14155709 (-17)
  /\ vz (Position (g_pCamera
           (poll_frame (FO := binary32_ops (lm := series_libm)) whole_run
              key_W (started NULL))))
     = S754_finite true 14155778 (-17)
  /\ (1 / 100000
      < Rabs
          (value (vz (Position (g_pCamera
                    (poll_frames (FO := binary32_ops (lm := series_libm)) 600
                       sixtieth key_W (started NULL)))))
           - value (vz (Position (g_pCamera
                      (poll_frame (FO := binary32_ops (lm := series_libm))
                         whole_run key_W (started NULL)))))))%R
  /\ vz (Position (g_pCamera
           (poll_frames (FO := binary32_ops (lm := series_libm)) 600 sixtieth
              key_W far_out)))
     = vz (Position (g_pCamera far_out))
  /\ (value (vz (Position (g_pCamera far_out)))
      - value (vz (Position (g_pCamera
                     (poll_frame (FO := binary32_ops (lm := series_libm))
                        whole_run key_W far_out))))
      = 120)%R.
Proof.
  split; [vm_compute; reflexivity|].
  split; [vm_compute; reflexivity|].
  split; [vm_compute; reflexivity|].
  split.
  - eval_values.
    match goal with
    | |- (_ < Rabs ?x)%R => rewrite (Rabs_pos_eq x) by lra
    end.
    lra.
  - split; [vm_compute; reflexivity|].
    eval_values. lra.
Qed.

(** A short run stays within 1e-5: ten polls of 0.016 s
    with W and D held, against one poll of 10 * 0.016 s, from the
    state of the constructor.  The two positions agree to 1e-5 in
    every component. *)
Example movement_frames_agree_binary32 :
  let k := mkKeys false false false true false false true false false in
  let dt := float_of_Q 0.016 in
  let a := Position (g_pCamera
             (poll_frames (FO := binary32_ops (lm := series_libm)) 10 dt k
                (started NULL))) in
  let b := Position (g_pCamera
             (poll_frame (FO := binary32_ops (lm := series_libm))
                (SFmul prec32 emax32 (float_of_Q 10) dt) k (started NULL))) in
  let close x y :=
    SFltb (SFabs (SFsub prec32 emax32 x y)) (float_of_Q 0.00001) in
  close (vx a) (vx b) = true /\ close (vy a) (vy b) = true
  /\ close (vz a) (vz b) = true
  /\ SFltb (vz a) (vz (Position (g_pCamera (started NULL)))) = true.
Proof. cbv zeta. repeat split; vm_compute; reflexivity. Qed.

(** ** Exact arithmetic: the angles derived by the constructor *)

Section ExactAngles.
Local Open Scope R_scope.

Lemma vec3_eq (a b : vec3 R) :
  vx a = vx b -> vy a = vy b -> vz a = vz b -> a = b.
Proof. destruct a, b; simpl; intros; subst; reflexivity. Qed.

Lemma literals_exact :
  Q2R 0.0 = 0 /\ Q2R 0.5 = 1 / 2 /\ Q2R 2.0 = 2 /\ Q2R 1 = 1 /\ Q2R 90.0 = 90.
Proof. unfold Q2R. simpl. repeat split; lra. Qed.

(** [q] is the length of the front vector (0, -0.5, -2). *)
Lemma front_length :
  let q := sqrt (17 / 4) in 1 < q /\ q < 20 / 9 /\ q * q = 17 / 4.
Proof.
  cbv zeta.
  assert (H : sqrt (17 / 4) * sqrt (17 / 4) = 17 / 4) by (apply sqrt_sqrt; lra).
  assert (P : 0 <= sqrt (17 / 4)) by apply sqrt_pos.
  repeat split; trivial; nra.
Qed.

Lemma look_direction (p : ptr) :
  normalize (FO := exact_ops) (Front (g_pCamera (started_exact p)))
  = mkvec3 0 (- (1 / 2) / sqrt (17 / 4)) (- 2 / sqrt (17 / 4)).
Proof.
  destruct literals_exact as (L0 & L5 & L2 & L1 & _).
  destruct front_length as (Q1 & Q2 & Q3). cbv zeta in *.
  cbv [started_exact ViewManager_new g_pCamera Front normalize v_scale dot
       inversesqrt vx vy vz f_add f_sub f_mul f_div f_opp f_lit f_sqrt exact_ops].
  rewrite L0, L5, L2, L1.
  match goal with
  | |- context [sqrt ?e] => replace e with (17 / 4) by lra
  end.
  apply vec3_eq; cbn [vx vy vz]; field; lra.
Qed.

Lemma Ratan2_negative_axis (y : R) : y < 0 -> Ratan2 y 0 = - (PI / 2).
Proof.
  intros H. unfold Ratan2.
  destruct (Rlt_dec 0 0); [lra|].
  destruct (Rlt_dec 0 y); [lra|].
  destruct (Rlt_dec y 0); [reflexivity|lra].
Qed.

Lemma constructor_yaw (p : ptr) : gYaw (started_exact p) = - 180.
Proof.
  pose proof (look_direction p) as L.
  destruct literals_exact as (_ & _ & _ & _ & L90).
  destruct front_length as (Q1 & Q2 & Q3). cbv zeta in *.
  unfold started_exact, ViewManager_new in *. cbv zeta.
  cbn [gYaw g_pCamera Front] in *. rewrite L.
  cbn [vx vz f_atan2 f_degrees f_sub f_lit exact_ops].
  rewrite Ratan2_negative_axis, L90.
  - field. apply PI_neq0.
  - apply Rdiv_neg_pos; lra.
Qed.

Lemma constructor_pitch (p : ptr) :
  gPitch (started_exact p) = asin (- (1 / 2) / sqrt (17 / 4)) * (180 / PI).
Proof.
  pose proof (look_direction p) as L.
  unfold started_exact, ViewManager_new in *. cbv zeta.
  cbn [gPitch g_pCamera Front] in *. rewrite L.
  reflexivity.
Qed.

Lemma front_y_bounds :
  let y := - (1 / 2) / sqrt (17 / 4) in
  -1 <= y <= 1 /\ y * y = 1 / 17 /\ 2 / sqrt (17 / 4) * (2 / sqrt (17 / 4)) = 16 / 17.
Proof.
  cbv zeta. destruct front_length as (Q1 & Q2 & Q3). cbv zeta in *.
  assert (I : 0 < / sqrt (17 / 4) < 1).
  { split; [apply Rinv_0_lt_compat; lra|].
    rewrite <- Rinv_1. apply Rinv_lt_contravar; lra. }
  assert (S : / sqrt (17 / 4) * / sqrt (17 / 4) = 4 / 17).
  { rewrite <- Rinv_mult, Q3. field. }
  unfold Rdiv. repeat split; nra.
Qed.

Lemma cos_of_pitch :
  cos (asin (- (1 / 2) / sqrt (17 / 4))) = 2 / sqrt (17 / 4).
Proof.
  destruct front_y_bounds as (B & Y & Z). cbv zeta in *.
  destruct front_length as (Q1 & Q2 & Q3). cbv zeta in *.
  rewrite cos_asin by exact B.
  apply sqrt_lem_1.
  - unfold Rsqr. rewrite Y. lra.
  - apply Rlt_le, Rdiv_lt_0_compat; lra.
  - unfold Rsqr. rewrite Y, Z. lra.
Qed.

Lemma reconstructed_direction (p : ptr) :
  front_of_angles (FO := exact_ops)
    (gYaw (started_exact p)) (gPitch (started_exact p))
  = mkvec3 (- 2 / sqrt (17 / 4)) (- (1 / 2) / sqrt (17 / 4)) 0.
Proof.
  rewrite constructor_yaw, constructor_pitch.
  destruct front_y_bounds as (B & Y & Z). cbv zeta in *.
  destruct front_length as (Q1 & Q2 & Q3). cbv zeta in *.
  destruct literals_exact as (_ & _ & _ & L1 & _).
  cbv [front_of_angles normalize v_scale dot inversesqrt vx vy vz
       f_add f_mul f_div f_lit f_sqrt f_cos f_sin f_radians exact_ops].
  replace (-180 * (PI / 180)) with (- PI) by (field; apply PI_neq0).
  replace (asin (- (1 / 2) / sqrt (17 / 4)) * (180 / PI) * (PI / 180))
    with (asin (- (1 / 2) / sqrt (17 / 4))) by (field; apply PI_neq0).
  rewrite cos_neg, sin_neg, cos_PI, sin_PI, cos_of_pitch, L1.
  rewrite (sin_asin _ B).
  match goal with
  | |- context [sqrt ?e] =>
      lazymatch e with
      | 17 / 4 => fail
      | _ => replace e with 1
      end
  end.
  - rewrite sqrt_1. apply vec3_eq; cbn [vx vy vz]; field; lra.
  - unfold Rdiv in *. nra.
Qed.

(** C1 fails on the code.  In exact arithmetic the constructor derives
    yaw = -180 degrees for the look direction
    normalize (0, -0.5, -2) = (0, y, z), z < -0.9; the spherical
    formula applied to the derived angles gives (z, y, 0), the look
    direction turned a quarter turn about the vertical axis: the x and
    the z components are each off by more than 0.9. *)
Theorem constructor_angles_miss_front (p : ptr) :
  let s0 := started_exact p in
  let look := normalize (FO := exact_ops) (Front (g_pCamera s0)) in
  let back := front_of_angles (FO := exact_ops) (gYaw s0) (gPitch s0) in
  gYaw s0 = - 180
  /\ vx look = 0 /\ vz look < - (9 / 10)
  /\ vx back = vz look /\ vy back = vy look /\ vz back = 0
  /\ vx look - vx back > 9 / 10 /\ vz back - vz look > 9 / 10.
Proof.
  cbv zeta. rewrite look_direction, reconstructed_direction, constructor_yaw.
  destruct front_length as (Q1 & Q2 & Q3). cbv zeta in *.
  assert (Z : - 2 / sqrt (17 / 4) < - (9 / 10)).
  { apply (Rmult_lt_reg_r (sqrt (17 / 4))); [lra|].
    unfold Rdiv. rewrite Rmult_assoc, Rinv_l by lra. lra. }
  cbn [vx vy vz]. repeat split; lra.
Qed.

(** The slip is the subtraction of 90: the angle of the arctangent
    itself, with the same pitch, reconstructs the look direction. *)
Lemma angles_without_offset_reconstruct_front (p : ptr) :
  let s0 := started_exact p in
  front_of_angles (FO := exact_ops) (gYaw s0 + 90) (gPitch s0)
  = normalize (FO := exact_ops) (Front (g_pCamera s0)).
Proof.
  cbv zeta. rewrite look_direction, constructor_yaw, constructor_pitch.
  destruct front_y_bounds as (B & Y & Z). cbv zeta in *.
  destruct front_length as (Q1 & Q2 & Q3). cbv zeta in *.
  destruct literals_exact as (_ & _ & _ & L1 & _).
  cbv [front_of_angles normalize v_scale dot inversesqrt vx vy vz
       f_add f_mul f_div f_lit f_sqrt f_cos f_sin f_radians exact_ops].
  replace ((-180 + 90) * (PI / 180)) with (- (PI / 2)) by (field; apply PI_neq0).
  replace (asin (- (1 / 2) / sqrt (17 / 4)) * (180 / PI) * (PI / 180))
    with (asin (- (1 / 2) / sqrt (17 / 4))) by (field; apply PI_neq0).
  rewrite cos_neg, sin_neg, cos_PI2, sin_PI2, cos_of_pitch, L1.
  rewrite (sin_asin _ B).
  match goal with
  | |- context [sqrt ?e] =>
      lazymatch e with
      | 17 / 4 => fail
      | _ => replace e with 1
      end
  end.
  - rewrite sqrt_1. apply vec3_eq; cbn [vx vy vz]; field; lra.
  - unfold Rdiv in *. nra.
Qed.

End ExactAngles.

(** The same run in binary32, with [series_libm]: the constructor
    derives yaw = -180, and the first cursor sample, whose offsets are
    zero, turns the camera from (0, -0.5, -2) to about
    (-0.970, -0.243, 0). *)
Example constructor_angles_miss_front_binary32 :
  let s0 := started NULL in
  let s1 := Mouse_Position_Callback (FO := binary32_ops (lm := series_libm))
              (d_of_Q 500) (d_of_Q 400) s0 in
  gYaw s0 = SFopp (float_of_Q 180)
  /\ gYaw s1 = gYaw s0 /\ gPitch s1 = gPitch s0
  /\ vx (Front (g_pCamera s0)) = S754_zero false
  /\ SFltb (vx (Front (g_pCamera s1))) (SFopp (float_of_Q 0.97)) = true
  /\ SFltb (SFabs (vz (Front (g_pCamera s1)))) (float_of_Q 0.000001) = true.
Proof. cbv zeta. repeat split; vm_compute; reflexivity. Qed.


(** ** More on the view manager: what each event can touch *)

Section Channels.
Context {F D M : Type} {FO : FloatOps F D} {GO : GfxOps F M}.

Lemma keyboard_flags_of_window (k : Keys) (s : State F) :
  windowShouldClose (ProcessKeyboardEvents k s) = windowShouldClose s || KEY_ESCAPE k
  /\ gFirstMouse (ProcessKeyboardEvents k s) = gFirstMouse s.
Proof.
  unfold ProcessKeyboardEvents.
  destruct (poll_movement_moves k (poll_P k (poll_O k (poll_escape k s)))) as [p E].
  rewrite E. unfold poll_P, poll_O, poll_escape.
  destruct s as [sm wc cam lx ly fm dt lf ortho sp yaw pitch fo fp]. simpl.
  destruct (KEY_ESCAPE k), (KEY_O k), (KEY_P k), fo, fp, wc; split; reflexivity.
Qed.

Lemma scroll_keeps_flags (xo yo : D) (s : State F) :
  windowShouldClose (Mouse_Scroll_Callback xo yo s) = windowShouldClose s
  /\ gFirstMouse (Mouse_Scroll_Callback xo yo s) = gFirstMouse s.
Proof.
  unfold Mouse_Scroll_Callback.
  destruct s as [sm wc cam lx ly fm dt lf ortho sp yaw pitch fo fp]. simpl.
  repeat break_inner_if; split; reflexivity.
Qed.

Lemma cursor_keeps_close_flag (x y : D) (s : State F) :
  windowShouldClose (Mouse_Position_Callback x y s) = windowShouldClose s.
Proof.
  unfold Mouse_Position_Callback.
  destruct s as [sm wc cam lx ly fm dt lf ortho sp yaw pitch fo fp].
  destruct fm, ortho; simpl; repeat break_inner_if; reflexivity.
Qed.

Lemma cursor_keeps_up_zoom_position (x y : D) (s : State F) :
  Up (g_pCamera (Mouse_Position_Callback x y s)) = Up (g_pCamera s)
  /\ Zoom (g_pCamera (Mouse_Position_Callback x y s)) = Zoom (g_pCamera s)
  /\ Position (g_pCamera (Mouse_Position_Callback x y s)) = Position (g_pCamera s).
Proof.
  pose proof (cursor_effect x y s) as H. cbv zeta in H.
  destruct H as (_ & Ho & Hp).
  destruct (bOrthographicProjection s).
  - destruct (Ho eq_refl) as (E & _). rewrite E. auto.
  - destruct (Hp eq_refl) as (_ & _ & _ & E1 & E2 & E3). auto.
Qed.

(** What one event does to each group of variables. *)
Lemma step_channels (e : Event D) (s : State F) :
  let s' := step (GO := GO) s e in
  (Up (g_pCamera s') = Up (g_pCamera s) /\ Zoom (g_pCamera s') = Zoom (g_pCamera s))
  /\ windowShouldClose s' = windowShouldClose s || escape_pressed e
  /\ gFirstMouse s' = gFirstMouse s && negb (is_cursor e)
  /\ (is_frame e = false ->
      Position (g_pCamera s') = Position (g_pCamera s)
      /\ bOrthographicProjection s' = bOrthographicProjection s
      /\ gDeltaTime s' = gDeltaTime s /\ gLastFrame s' = gLastFrame s)
  /\ (is_cursor e = false ->
      Front (g_pCamera s') = Front (g_pCamera s)
      /\ gYaw s' = gYaw s /\ gPitch s' = gPitch s
      /\ gLastX s' = gLastX s /\ gLastY s' = gLastY s)
  /\ (is_scroll e = false -> gSpeedScale s' = gSpeedScale s).
Proof.
  cbv zeta. destruct e as [x y|xo yo|t k]; simpl.
  - pose proof (cursor_effect x y s) as H. cbv zeta in H.
    destruct H as ((_ & _ & E3 & E4 & E5) & _).
    destruct (cursor_keeps_up_zoom_position x y s) as (U & Z & P).
    rewrite cursor_keeps_close_flag, orb_false_r, andb_false_r.
    repeat split; try assumption; try discriminate;
      unfold Mouse_Position_Callback;
      destruct s as [sm wc cam lx ly fm dt lf ortho sp yaw pitch fo fp];
      destruct fm, ortho; simpl; repeat break_inner_if; reflexivity.
  - pose proof (scroll_only_speed xo yo s) as H. cbv zeta in H.
    destruct H as (C & Y & P & LX & LY & Mo).
    destruct (scroll_keeps_flags xo yo s) as (W & Fm).
    rewrite W, Fm, C, orb_false_r, andb_true_r.
    repeat split; try assumption; try discriminate;
      unfold Mouse_Scroll_Callback;
      destruct s as [sm wc cam lx ly fm dt lf ortho sp yaw pitch fo fp]; simpl;
      repeat break_inner_if; reflexivity.
  - rewrite PrepareSceneView_state.
    set (s1 := set_gLastFrame (f_cast t)
                 (set_gDeltaTime (f_sub (f_cast t) (gLastFrame s)) s)).
    pose proof (keyboard_frame k s1) as H. cbv zeta in H.
    destruct H as (Y & P & LX & LY & Sp & _ & _ & _ & Fr & U & Z).
    destruct (keyboard_flags_of_window k s1) as (W & Fm).
    rewrite W, Fm, andb_true_r.
    repeat split; intros; try assumption; try discriminate.
Qed.

Lemma forallb_cons_inv (A : Type) (f : A -> bool) (a : A) (l : list A) :
  forallb f (a :: l) = true -> f a = true /\ forallb f l = true.
Proof. simpl. intros H. apply andb_prop in H. exact H. Qed.

(** X1.  The close flag of the window is set by a frame that sees the
    escape key pressed and by nothing else, and nothing clears it:
    after a run it is set exactly when it was set before or some frame
    of the run saw the key. *)
Theorem close_flag_set_by_escape_only (es : list (Event D)) (s : State F) :
  windowShouldClose (run (GO := GO) es s)
  = windowShouldClose s || existsb (@escape_pressed D) es.
Proof.
  revert s. induction es as [|e es IH]; intros s.
  - simpl. rewrite orb_false_r. reflexivity.
  - simpl. rewrite IH.
    pose proof (step_channels e s) as H. cbv zeta in H.
    destruct H as (_ & W & _). rewrite W, orb_assoc. reflexivity.
Qed.

(** X2.  The first-sample flag is cleared by the first cursor sample
    and never set again: after a run it is set exactly when it was set
    before and the run has no cursor sample. *)
Theorem first_sample_flag_cleared_once (es : list (Event D)) (s : State F) :
  gFirstMouse (run (GO := GO) es s)
  = gFirstMouse s && negb (existsb (@is_cursor D) es).
Proof.
  revert s. induction es as [|e es IH]; intros s.
  - simpl. rewrite andb_true_r. reflexivity.
  - simpl. rewrite IH.
    pose proof (step_channels e s) as H. cbv zeta in H.
    destruct H as (_ & _ & Fm & _). rewrite Fm, negb_orb, andb_assoc. reflexivity.
Qed.

(** X3.  No event changes the zoom or the up vector of the camera:
    through the whole life of the program they are the 80 degrees and
    the (0, 1, 0) the constructor sets, so the scroll wheel never
    zooms, and in Perspective mode the projection matrix is always
    perspective (radians 80, 1000/800, 0.1, 100.0). *)
Theorem zoom_and_up_are_constant (es : list (Event D)) (p : ptr) :
  let s := run (GO := GO) es (ViewManager_new p) in
  Zoom (g_pCamera s) = f_lit 80.0
  /\ Up (g_pCamera s) = mkvec3 (f_lit 0.0) (f_lit 1.0) (f_lit 0.0)
  /\ (bOrthographicProjection s = false ->
      snd (scene_matrices (GO := GO) s)
      = perspective (f_radians (f_lit 80.0)) (f_div (f_lit 1000) (f_lit 800))
          (f_lit 0.1) (f_lit 100.0)).
Proof.
  cbv zeta.
  assert (G : forall s0 : State F,
             Zoom (g_pCamera (run (GO := GO) es s0)) = Zoom (g_pCamera s0)
             /\ Up (g_pCamera (run (GO := GO) es s0)) = Up (g_pCamera s0)).
  { induction es as [|e es' IH]; intros s0; [split; reflexivity|].
    simpl. destruct (IH (step s0 e)) as [Z U]. rewrite Z, U.
    pose proof (step_channels e s0) as H. cbv zeta in H.
    destruct H as ((U' & Z') & _). auto. }
  destruct (G (ViewManager_new p)) as [Z U].
  split; [exact Z|]. split; [exact U|].
  intros Hm. unfold scene_matrices. rewrite Hm, Z. reflexivity.
Qed.

(** X4.  Each kind of input reaches only its own variables.  Over a
    run without frames the camera position, the projection mode and
    the frame clock do not change; over a run without cursor samples
    the front vector, yaw, pitch and the last cursor position do not
    change; over a run without scroll samples the speed scale does not
    change. *)
Theorem input_channels_are_separate (es : list (Event D)) (s : State F) :
  (forallb (fun e => negb (is_frame e)) es = true ->
   Position (g_pCamera (run (GO := GO) es s)) = Position (g_pCamera s)
   /\ bOrthographicProjection (run (GO := GO) es s) = bOrthographicProjection s
   /\ gDeltaTime (run (GO := GO) es s) = gDeltaTime s
   /\ gLastFrame (run (GO := GO) es s) = gLastFrame s)
  /\ (forallb (fun e => negb (is_cursor e)) es = true ->
      Front (g_pCamera (run (GO := GO) es s)) = Front (g_pCamera s)
      /\ gYaw (run (GO := GO) es s) = gYaw s
      /\ gPitch (run (GO := GO) es s) = gPitch s
      /\ gLastX (run (GO := GO) es s) = gLastX s
      /\ gLastY (run (GO := GO) es s) = gLastY s)
  /\ (forallb (fun e => negb (is_scroll e)) es = true ->
      gSpeedScale (run (GO := GO) es s) = gSpeedScale s).
Proof.
  revert s. induction es as [|e es IH]; intros s.
  - simpl. repeat split; reflexivity.
  - destruct (IH (step s e)) as (I1 & I2 & I3).
    pose proof (step_channels e s) as H. cbv zeta in H.
    destruct H as (_ & _ & _ & H1 & H2 & H3).
    split; [|split]; intros Hall; apply forallb_cons_inv in Hall;
      destruct Hall as [He Hes]; apply negb_true_iff in He; simpl.
    + destruct (I1 Hes) as (a & b & c & d). destruct (H1 He) as (a' & b' & c' & d').
      rewrite a, b, c, d. auto.
    + destruct (I2 Hes) as (a & b & c & d & e0).
      destruct (H2 He) as (a' & b' & c' & d' & e').
      rewrite a, b, c, d, e0. auto.
    + rewrite (I3 Hes). exact (H3 He).
Qed.

End Channels.

Lemma zoom_and_up_are_constant_witness :
  let s := run (FO := binary32_ops (lm := series_libm)) (GO := call_gfx float)
             [Scroll (d_of_Q 0) (d_of_Q 3); Frame (d_of_Q 1) key_W;
              CursorPos (d_of_Q 10) (d_of_Q 20)] (started (Addr 1)) in
  bOrthographicProjection s = false
  /\ snd (scene_matrices (FO := binary32_ops (lm := series_libm))
            (GO := call_gfx float) s)
     = glm_perspective (glm_radians (float_of_Q 80.0))
         (SFdiv prec32 emax32 (float_of_Q 1000) (float_of_Q 800))
         (float_of_Q 0.1) (float_of_Q 100.0).
Proof.
  cbv zeta. split; [vm_compute; reflexivity|].
  apply (zoom_and_up_are_constant
           (FO := binary32_ops (lm := series_libm)) (GO := call_gfx float)
           [Scroll (d_of_Q 0) (d_of_Q 3); Frame (d_of_Q 1) key_W;
            CursorPos (d_of_Q 10) (d_of_Q 20)] (Addr 1)).
  vm_compute; reflexivity.
Defined.

Lemma input_channels_are_separate_witness :
  let es := [Scroll (d_of_Q 0) (d_of_Q 3); CursorPos (d_of_Q 10) (d_of_Q 20);
             Scroll (d_of_Q 0) (d_of_Q (-1))] in
  forallb (fun e : Event double => negb (is_frame e)) es = true
  /\ Position (g_pCamera (run (FO := binary32_ops (lm := series_libm))
                            (GO := call_gfx float) es (started NULL)))
     = Position (g_pCamera (started NULL)).
Proof.
  cbv zeta. split; [reflexivity|].
  apply (proj1 (input_channels_are_separate
                  (FO := binary32_ops (lm := series_libm)) (GO := call_gfx float)
                  [Scroll (d_of_Q 0) (d_of_Q 3); CursorPos (d_of_Q 10) (d_of_Q 20);
                   Scroll (d_of_Q 0) (d_of_Q (-1))] (started NULL))).
  reflexivity.
Defined.

(** ** The texture table of the scene manager *)

Import Scene.

Section TextureTable.
Context {F : Type}.
Local Open Scope Z_scope.

Lemma store_nat_length (i : nat) (x : TEXTURE_INFO) (a : list TEXTURE_INFO) :
  List.length (store_nat i x a) = List.length a.
Proof.
  revert i. induction a as [|h t IH]; intros [|i]; simpl; auto.
Qed.

Lemma store_length (a : list TEXTURE_INFO) (i : Z) (x : TEXTURE_INFO) :
  List.length (store a i x) = List.length a.
Proof. unfold store. destruct (i <? 0); auto using store_nat_length. Qed.

Lemma store_nat_nth (i j : nat) (x d : TEXTURE_INFO) (a : list TEXTURE_INFO) :
  (i < List.length a)%nat ->
  nth j (store_nat i x a) d = if Nat.eqb j i then x else nth j a d.
Proof.
  revert i j. induction a as [|h t IH]; intros i j Hi; simpl in Hi; [lia|].
  destruct i as [|i], j as [|j]; simpl; auto.
  apply IH. lia.
Qed.

Lemma entry_store (a : list TEXTURE_INFO) (i j : Z) (x : TEXTURE_INFO) :
  0 <= i < Z.of_nat (List.length a) -> 0 <= j ->
  entry (store a i x) j = if j =? i then x else entry a j.
Proof.
  intros Hi Hj. unfold entry, store.
  destruct (Z.ltb_spec i 0); [lia|].
  rewrite store_nat_nth by lia.
  destruct (Z.eqb_spec j i) as [->|Hne].
  - rewrite Nat.eqb_refl. reflexivity.
  - destruct (Nat.eqb_spec (Z.to_nat j) (Z.to_nat i)); [lia|reflexivity].
Qed.

Lemma firstn_store_nat (n i : nat) (x : TEXTURE_INFO) (a : list TEXTURE_INFO) :
  (n <= i)%nat -> firstn n (store_nat i x a) = firstn n a.
Proof.
  revert n i. induction a as [|h t IH]; intros n i Hn.
  - destruct i; reflexivity.
  - destruct i as [|i].
    + assert (n = 0%nat) by lia. subst. reflexivity.
    + destruct n as [|n]; [reflexivity|]. simpl. f_equal. apply IH. lia.
Qed.

(** The loops look only at the entries they visit. *)
Lemma FindTextureSlot_loop_ext (n : nat) (i : Z) (a a' : list TEXTURE_INFO) (t : string) :
  (forall j, i <= j < i + Z.of_nat n -> entry a' j = entry a j) ->
  FindTextureSlot_loop n i a' t = FindTextureSlot_loop n i a t.
Proof.
  revert i. induction n as [|n IH]; intros i H; [reflexivity|].
  simpl. rewrite (H i) by lia.
  destruct (String.eqb _ _); [reflexivity|].
  apply IH. intros j Hj. apply H. lia.
Qed.

Lemma FindTextureSlot_loop_spec (n : nat) (i : Z) (a : list TEXTURE_INFO) (t : string) :
  0 <= i ->
  let r := FindTextureSlot_loop n i a t in
  (r = -1 /\ forall j, i <= j < i + Z.of_nat n -> tag (entry a j) <> t)
  \/ (i <= r < i + Z.of_nat n /\ tag (entry a r) = t
      /\ forall j, i <= j < r -> tag (entry a j) <> t).
Proof.
  revert i. induction n as [|n IH]; intros i Hi; cbv zeta.
  - left. split; [reflexivity|]. intros j Hj. lia.
  - simpl FindTextureSlot_loop.
    destruct (String.eqb_spec (tag (entry a i)) t) as [E|E].
    + right. split; [lia|]. split; [exact E|]. intros j Hj. lia.
    + destruct (IH (i + 1) ltac:(lia)) as [[R N]|[R [T N]]]; cbv zeta in *.
      * left. split; [exact R|]. intros j Hj.
        destruct (Z.eq_dec j i) as [->|]; [exact E|]. apply N. lia.
      * right. split; [lia|]. split; [exact T|]. intros j Hj.
        destruct (Z.eq_dec j i) as [->|]; [exact E|]. apply N. lia.
Qed.

Lemma FindTextureSlot_loop_snoc (n : nat) (i : Z) (a : list TEXTURE_INFO) (t : string) :
  0 <= i ->
  FindTextureSlot_loop (S n) i a t =
  if FindTextureSlot_loop n i a t <? 0
  then (if String.eqb (tag (entry a (i + Z.of_nat n))) t then i + Z.of_nat n else -1)
  else FindTextureSlot_loop n i a t.
Proof.
  revert i. induction n as [|n IH]; intros i Hi.
  - simpl. rewrite Z.add_0_r. destruct (String.eqb _ _); reflexivity.
  - change (FindTextureSlot_loop (S (S n)) i a t)
      with (if String.eqb (tag (entry a i)) t then i
            else FindTextureSlot_loop (S n) (i + 1) a t).
    change (FindTextureSlot_loop (S n) i a t)
      with (if String.eqb (tag (entry a i)) t then i
            else FindTextureSlot_loop n (i + 1) a t).
    destruct (String.eqb (tag (entry a i)) t).
    + destruct (Z.ltb_spec i 0); [lia|reflexivity].
    + rewrite (IH (i + 1)) by lia.
      replace (i + 1 + Z.of_nat n) with (i + Z.of_nat (S n)) by lia.
      reflexivity.
Qed.

Lemma FindTextureID_loop_by_slot (n : nat) (i : Z) (a : list TEXTURE_INFO) (t : string) :
  0 <= i ->
  FindTextureID_loop n i a t =
  if FindTextureSlot_loop n i a t <? 0 then -1
  else int_of_uint32 (ID (entry a (FindTextureSlot_loop n i a t))).
Proof.
  revert i. induction n as [|n IH]; intros i Hi; [reflexivity|].
  simpl. destruct (String.eqb (tag (entry a i)) t).
  - destruct (Z.ltb_spec i 0); [lia|reflexivity].
  - apply IH. lia.
Qed.

Lemma entry_app_len (pre rest : list TEXTURE_INFO) (e : TEXTURE_INFO) :
  entry (pre ++ e :: rest) (Z.of_nat (List.length pre)) = e.
Proof. unfold entry. rewrite Nat2Z.id. apply nth_middle. Qed.

Lemma store_nat_app_len (pre rest : list TEXTURE_INFO) (e y : TEXTURE_INFO) :
  store_nat (List.length pre) y (pre ++ e :: rest) = pre ++ y :: rest.
Proof. induction pre as [|h t IH]; simpl; [reflexivity|]. f_equal. exact IH. Qed.

Lemma store_app_len (pre rest : list TEXTURE_INFO) (e y : TEXTURE_INFO) :
  store (pre ++ e :: rest) (Z.of_nat (List.length pre)) y = pre ++ y :: rest.
Proof.
  unfold store. destruct (Z.ltb_spec (Z.of_nat (List.length pre)) 0); [lia|].
  rewrite Nat2Z.id. apply store_nat_app_len.
Qed.

Lemma split_at (n : nat) (a : list TEXTURE_INFO) :
  (n < List.length a)%nat ->
  exists pre e rest, a = pre ++ e :: rest /\ List.length pre = n.
Proof.
  intros H. destruct (nth_split a (mkTEXTURE_INFO EmptyString 0) H) as [l1 [l2 [E L]]].
  eauto.
Qed.

Lemma cleared_zero (e : TEXTURE_INFO) : ID e = 0 -> cleared e = e.
Proof. destruct e as [t i]. unfold cleared. simpl. intros ->. reflexivity. Qed.

(** The loop of DestroyGLTextures in closed form: the entries it
    visits are cleared, and the names deleted are the visited ones
    that are not 0, in table order. *)
Lemma DestroyGLTextures_loop_closed (n : nat) :
  forall (pre rest : list TEXTURE_INFO),
  (n <= List.length rest)%nat ->
  DestroyGLTextures_loop n (Z.of_nat (List.length pre)) (pre ++ rest) =
  (pre ++ map cleared (firstn n rest) ++ skipn n rest,
   map glDeleteTextures
     (filter (fun id => negb (id =? 0)) (map ID (firstn n rest)))).
Proof.
  induction n as [|n IH]; intros pre rest Hn.
  - reflexivity.
  - destruct rest as [|e rest]; [simpl in Hn; lia|].
    simpl in Hn.
    cbn [DestroyGLTextures_loop firstn skipn map filter].
    rewrite entry_app_len, store_app_len.
    replace (Z.of_nat (List.length pre) + 1)
      with (Z.of_nat (List.length (pre ++ [e]))) at 2
      by (rewrite length_app; simpl; lia).
    replace (Z.of_nat (List.length pre) + 1)
      with (Z.of_nat (List.length (pre ++ [cleared e])))
      by (rewrite length_app; simpl; lia).
    destruct (Z.eqb_spec (ID e) 0) as [E0|E0]; cbn [negb].
    + replace (pre ++ e :: rest) with ((pre ++ [e]) ++ rest)
        by (rewrite <- app_assoc; reflexivity).
      rewrite IH by lia. rewrite <- app_assoc. simpl.
      rewrite (cleared_zero e E0). reflexivity.
    + change (mkTEXTURE_INFO (tag e) 0) with (cleared e).
      replace (pre ++ cleared e :: rest) with ((pre ++ [cleared e]) ++ rest)
        by (rewrite <- app_assoc; reflexivity).
      rewrite IH by lia. rewrite <- app_assoc. reflexivity.
Qed.

Lemma generated_app (l1 l2 : list GLCall) :
  generated (l1 ++ l2) = (generated l1 ++ generated l2)%list.
Proof. apply flat_map_app. Qed.

Lemma deleted_app (l1 l2 : list GLCall) :
  deleted (l1 ++ l2) = (deleted l1 ++ deleted l2)%list.
Proof. apply flat_map_app. Qed.

Lemma deleted_map (ids : list Z) : deleted (map glDeleteTextures ids) = ids.
Proof. induction ids as [|h t IH]; simpl; [reflexivity|]. f_equal. exact IH. Qed.

Lemma generated_map (ids : list Z) : generated (map glDeleteTextures ids) = [].
Proof. induction ids as [|h t IH]; simpl; auto. Qed.

(** What DestroyGLTextures does, when the count is inside the array. *)
Lemma DestroyGLTextures_closed (s : SceneManager F) :
  0 <= m_loadedTextures s <= Z.of_nat (List.length (m_textureIDs s)) ->
  DestroyGLTextures s =
  (set_textures 0
     (map cleared (firstn (Z.to_nat (m_loadedTextures s)) (m_textureIDs s))
      ++ skipn (Z.to_nat (m_loadedTextures s)) (m_textureIDs s)) s,
   map glDeleteTextures
     (filter (fun id => negb (id =? 0)) (loaded_ids s))).
Proof.
  intros H. unfold DestroyGLTextures, loaded_ids.
  pose proof (@DestroyGLTextures_loop_closed (Z.to_nat (m_loadedTextures s)) []
                (m_textureIDs s) ltac:(lia)) as E.
  simpl in E. rewrite E. reflexivity.
Qed.

(** The outcomes of CreateGLTexture. *)
Lemma CreateGLTexture_cases (filename tag0 : string) (image : option Image)
  (textureID : Z) (s : SceneManager F) :
  let r := CreateGLTexture filename tag0 image textureID s in
  (fst (fst r) = true
   /\ m_loadedTextures s < 16
   /\ (exists img, image = Some img /\ (channels img = 3 \/ channels img = 4))
   /\ snd (fst r) =
      set_textures (m_loadedTextures s + 1)
        (store (m_textureIDs s) (m_loadedTextures s)
           (mkTEXTURE_INFO tag0 textureID)) s
   /\ generated (snd r) = [textureID] /\ deleted (snd r) = [])
  \/ (fst (fst r) = false
      /\ (16 <= m_loadedTextures s \/ image = None
          \/ exists img, image = Some img /\ channels img <> 3 /\ channels img <> 4)
      /\ snd (fst r) = s
      /\ generated (snd r) = deleted (snd r)).
Proof.
  cbv zeta. unfold CreateGLTexture.
  destruct (Z.geb_spec (m_loadedTextures s) 16) as [G|G].
  - right. simpl. repeat split; auto.
  - destruct image as [img|].
    + destruct (Z.eqb_spec (channels img) 3) as [C3|C3].
      * left. simpl. repeat split; eauto.
      * destruct (Z.eqb_spec (channels img) 4) as [C4|C4].
        -- left. simpl. repeat split; eauto.
        -- right. simpl. split; [reflexivity|]. split; [|split; reflexivity].
           right. right. exists img. auto.
    + right. simpl. repeat split; auto.
Qed.

Lemma set_textures_fields (n : Z) (a : list TEXTURE_INFO) (s : SceneManager F) :
  m_loadedTextures (set_textures n a s) = n
  /\ m_textureIDs (set_textures n a s) = a
  /\ m_pShaderManager (set_textures n a s) = m_pShaderManager s
  /\ m_objectMaterials (set_textures n a s) = m_objectMaterials s.
Proof. repeat split. Qed.

(** A property of the manager and of the calls made so far that every
    operation keeps holds after every sequence of operations. *)
Lemma run_ops_invariant (P : SceneManager F * list GLCall -> Prop)
  (ops : list TextureOp) (s : SceneManager F) :
  P (s, []) ->
  (forall acc op, names_nonzero op = true -> P acc -> P (apply_op acc op)) ->
  forallb names_nonzero ops = true ->
  P (run_ops ops s).
Proof.
  intros H0 Hstep. unfold run_ops. generalize (s, @nil GLCall) H0.
  induction ops as [|op ops IH]; intros acc Hacc Hall; simpl in *.
  - exact Hacc.
  - apply andb_prop in Hall. destruct Hall as [H1 H2].
    apply IH; [apply Hstep; assumption|exact H2].
Qed.

Lemma run_ops_invariant_all (P : SceneManager F * list GLCall -> Prop)
  (ops : list TextureOp) (s : SceneManager F) :
  P (s, []) ->
  (forall acc op, P acc -> P (apply_op acc op)) ->
  P (run_ops ops s).
Proof.
  intros H0 Hstep. unfold run_ops. generalize (s, @nil GLCall) H0.
  induction ops as [|op ops IH]; intros acc Hacc; simpl.
  - exact Hacc.
  - apply IH. apply Hstep. exact Hacc.
Qed.

Lemma apply_op_bounds (acc : SceneManager F * list GLCall) (op : TextureOp) :
  0 <= m_loadedTextures (fst acc) <= 16
  /\ List.length (m_textureIDs (fst acc)) = 16%nat ->
  0 <= m_loadedTextures (fst (apply_op acc op)) <= 16
  /\ List.length (m_textureIDs (fst (apply_op acc op))) = 16%nat.
Proof.
  intros [Hc Hl]. destruct acc as [s calls]. simpl in Hc, Hl.
  destruct op as [f t image id|].
  - unfold apply_op. cbn [fst snd].
    pose proof (CreateGLTexture_cases f t image id s) as C. cbv zeta in C.
    destruct (CreateGLTexture f t image id s) as [[r s'] cs]. cbn [fst snd] in *.
    destruct C as [[_ [L [_ [E _]]]]|[_ [_ [E _]]]]; subst s'.
    + cbn [set_textures m_loadedTextures m_textureIDs].
      rewrite store_length. lia.
    + auto.
  - unfold apply_op. cbn [fst snd].
    rewrite DestroyGLTextures_closed by lia.
    cbn [fst set_textures m_loadedTextures m_textureIDs].
    split; [lia|].
    rewrite length_app, length_map, <- length_app, firstn_skipn. exact Hl.
Qed.

(** X9.  Starting from a new scene manager, whatever textures are
    loaded and however often the table is destroyed, the count stays
    between 0 and 16 and the table keeps its 16 entries: CreateGLTexture
    never stores outside the array. *)
Theorem texture_count_stays_in_table (p : ptr) (slots : list TEXTURE_INFO)
  (ops : list TextureOp) :
  List.length slots = 16%nat ->
  let s := fst (run_ops ops (SceneManager_new (F := F) p slots)) in
  0 <= m_loadedTextures s <= 16
  /\ List.length (m_textureIDs s) = 16%nat.
Proof.
  intros Hl. cbv zeta.
  apply (run_ops_invariant_all
           (fun acc => 0 <= m_loadedTextures (fst acc) <= 16
                       /\ List.length (m_textureIDs (fst acc)) = 16%nat)).
  - simpl. split; [lia|exact Hl].
  - intros acc op. apply apply_op_bounds.
Qed.

Lemma FindTextureSlot_is_first_match_aux (s : SceneManager F) (t : string) :
  (FindTextureSlot s t = -1
   /\ forall j, 0 <= j < m_loadedTextures s -> tag (entry (m_textureIDs s) j) <> t)
  \/ (0 <= FindTextureSlot s t < m_loadedTextures s
      /\ tag (entry (m_textureIDs s) (FindTextureSlot s t)) = t
      /\ forall j, 0 <= j < FindTextureSlot s t ->
                   tag (entry (m_textureIDs s) j) <> t).
Proof.
  unfold FindTextureSlot.
  pose proof (@FindTextureSlot_loop_spec (Z.to_nat (m_loadedTextures s)) 0
                (m_textureIDs s) t ltac:(lia)) as H.
  cbv zeta in H. destruct H as [[R N]|[R [T N]]].
  - left. split; [exact R|]. intros j Hj. apply N. lia.
  - right. split; [lia|]. split; [exact T|exact N].
Qed.

(** X10.  FindTextureSlot returns the first loaded slot whose tag is
    the one asked for, and -1 exactly when no loaded slot has it. *)
Theorem FindTextureSlot_is_first_match (s : SceneManager F) (t : string) :
  let r := FindTextureSlot s t in
  (r = -1
   /\ forall j, 0 <= j < m_loadedTextures s -> tag (entry (m_textureIDs s) j) <> t)
  \/ (0 <= r < m_loadedTextures s
      /\ tag (entry (m_textureIDs s) r) = t
      /\ forall j, 0 <= j < r -> tag (entry (m_textureIDs s) j) <> t).
Proof.
  cbv zeta. apply FindTextureSlot_is_first_match_aux.
Qed.

(** X11.  FindTextureID is the ID stored in the slot FindTextureSlot
    finds, read as an int, and -1 when the tag is not found. *)
Theorem FindTextureID_reads_found_slot (s : SceneManager F) (t : string) :
  FindTextureID s t =
  if FindTextureSlot s t <? 0 then -1
  else int_of_uint32 (ID (entry (m_textureIDs s) (FindTextureSlot s t))).
Proof.
  unfold FindTextureID, FindTextureSlot.
  apply FindTextureID_loop_by_slot. lia.
Qed.

Lemma FindTextureSlot_after_store (s : SceneManager F) (t t' : string) (id : Z) :
  0 <= m_loadedTextures s < Z.of_nat (List.length (m_textureIDs s)) ->
  FindTextureSlot
    (set_textures (m_loadedTextures s + 1)
       (store (m_textureIDs s) (m_loadedTextures s) (mkTEXTURE_INFO t id)) s) t' =
  if (FindTextureSlot s t' <? 0) && String.eqb t t'
  then m_loadedTextures s else FindTextureSlot s t'.
Proof.
  intros Hc. unfold FindTextureSlot.
  cbn [set_textures m_loadedTextures m_textureIDs].
  replace (Z.to_nat (m_loadedTextures s + 1))
    with (S (Z.to_nat (m_loadedTextures s))) by lia.
  rewrite FindTextureSlot_loop_snoc by lia.
  rewrite (@FindTextureSlot_loop_ext (Z.to_nat (m_loadedTextures s)) 0
             (m_textureIDs s)
             (store (m_textureIDs s) (m_loadedTextures s) (mkTEXTURE_INFO t id)) t').
  2:{ intros j Hj. rewrite entry_store by lia.
      destruct (Z.eqb_spec j (m_loadedTextures s)); [lia|reflexivity]. }
  rewrite entry_store by lia.
  replace (0 + Z.of_nat (Z.to_nat (m_loadedTextures s)))
    with (m_loadedTextures s) by lia.
  rewrite Z.eqb_refl. cbn [tag].
  pose proof (@FindTextureSlot_loop_spec (Z.to_nat (m_loadedTextures s)) 0
                (m_textureIDs s) t' ltac:(lia)) as H.
  cbv zeta in H. destruct H as [[R _]|[R _]].
  - rewrite R. simpl. reflexivity.
  - destruct (Z.ltb_spec (FindTextureSlot_loop (Z.to_nat (m_loadedTextures s)) 0
                            (m_textureIDs s) t') 0); [lia|reflexivity].
Qed.

(** X12.  After CreateGLTexture succeeds, a tag that was found before
    is found in the same slot, and a tag that was not found is found
    only if it is the new tag, in the slot just filled: a second
    texture under a tag already loaded is never seen by a look-up. *)
Theorem created_texture_is_found (filename t t' : string) (image : option Image)
  (textureID : Z) (s : SceneManager F) :
  0 <= m_loadedTextures s ->
  List.length (m_textureIDs s) = 16%nat ->
  fst (fst (CreateGLTexture filename t image textureID s)) = true ->
  let s' := snd (fst (CreateGLTexture filename t image textureID s)) in
  m_loadedTextures s' = m_loadedTextures s + 1
  /\ FindTextureSlot s' t' =
     (if (FindTextureSlot s t' <? 0) && String.eqb t t'
      then m_loadedTextures s else FindTextureSlot s t').
Proof.
  intros Hc Hl Hr. cbv zeta.
  pose proof (CreateGLTexture_cases filename t image textureID s) as C.
  cbv zeta in C.
  destruct C as [[_ [L [_ [E _]]]]|[Hf _]]; [|congruence].
  rewrite E. split; [reflexivity|].
  apply FindTextureSlot_after_store. lia.
Qed.

(** X13.  CreateGLTexture succeeds exactly when the table is not full
    and the image was decoded with 3 or 4 channels.  When it fails the
    scene manager is unchanged and every texture name it generated has
    been deleted again. *)
Theorem failed_load_changes_nothing (filename t : string) (image : option Image)
  (textureID : Z) (s : SceneManager F) :
  let r := CreateGLTexture filename t image textureID s in
  (fst (fst r) = true <->
   m_loadedTextures s < 16
   /\ exists img, image = Some img /\ (channels img = 3 \/ channels img = 4))
  /\ (fst (fst r) = false ->
      snd (fst r) = s /\ generated (snd r) = deleted (snd r)).
Proof.
  cbv zeta.
  pose proof (CreateGLTexture_cases filename t image textureID s) as C.
  cbv zeta in C.
  destruct C as [[R [L [I _]]]|[R [W [E G]]]].
  - split; [|congruence]. split; auto.
  - split; [|auto]. split; [congruence|].
    intros [L [img [I C]]].
    destruct W as [W|[W|[img' [W [N3 N4]]]]]; [lia|congruence|].
    rewrite I in W. injection W as ->. lia.
Qed.

Lemma loaded_ids_after_store (s : SceneManager F) (x : TEXTURE_INFO) :
  0 <= m_loadedTextures s < Z.of_nat (List.length (m_textureIDs s)) ->
  loaded_ids
    (set_textures (m_loadedTextures s + 1)
       (store (m_textureIDs s) (m_loadedTextures s) x) s) =
  (loaded_ids s ++ [ID x])%list.
Proof.
  intros Hc. unfold loaded_ids.
  cbn [set_textures m_loadedTextures m_textureIDs].
  destruct (@split_at (Z.to_nat (m_loadedTextures s)) (m_textureIDs s) ltac:(lia))
    as [pre [e [rest [Ea Lp]]]].
  rewrite Ea.
  replace (m_loadedTextures s) with (Z.of_nat (List.length pre)) by lia.
  rewrite store_app_len.
  replace (Z.to_nat (Z.of_nat (List.length pre) + 1))
    with (List.length pre + 1)%nat by lia.
  rewrite Nat2Z.id.
  rewrite !firstn_app.
  rewrite (firstn_all2 (n := List.length pre + 1) pre) by lia.
  rewrite firstn_all.
  replace (List.length pre + 1 - List.length pre)%nat with 1%nat by lia.
  rewrite Nat.sub_diag. simpl firstn.
  rewrite app_nil_r, map_app. reflexivity.
Qed.

Lemma loaded_ids_empty (a : list TEXTURE_INFO) (s : SceneManager F) :
  loaded_ids (set_textures 0 a s) = [].
Proof. reflexivity. Qed.

Lemma filter_nonzero_all (l : list Z) :
  Forall (fun id => id <> 0) l ->
  filter (fun id => negb (id =? 0)) l = l.
Proof.
  induction 1 as [|h t Hh Ht IH]; simpl; [reflexivity|].
  destruct (Z.eqb_spec h 0); [contradiction|]. simpl. f_equal. exact IH.
Qed.

Lemma apply_op_balanced (acc : SceneManager F * list GLCall) (op : TextureOp) :
  names_nonzero op = true -> balanced acc -> balanced (apply_op acc op).
Proof.
  intros Hnz B.
  pose proof (apply_op_bounds acc op) as Bd.
  destruct B as [Hc [Hl [Hz Hb]]].
  specialize (Bd (conj Hc Hl)). destruct Bd as [Hc' Hl'].
  split; [exact Hc'|]. split; [exact Hl'|]. clear Hc' Hl'.
  destruct acc as [s calls]. cbn [fst snd] in *.
  destruct op as [f t image id|].
  - unfold apply_op. cbn [fst snd].
    pose proof (CreateGLTexture_cases f t image id s) as C. cbv zeta in C.
    destruct (CreateGLTexture f t image id s) as [[r s'] cs]. cbn [fst snd] in *.
    destruct C as [[_ [L [_ [E [G Dl]]]]]|[_ [_ [E G]]]]; subst s'.
    + rewrite loaded_ids_after_store by lia. cbn [ID].
      split.
      * apply Forall_app. split; [exact Hz|].
        constructor; [|constructor].
        simpl in Hnz. destruct (Z.eqb_spec id 0); [discriminate|assumption].
      * intros i. rewrite generated_app, deleted_app, G, Dl, app_nil_r.
        rewrite !count_occ_app, Hb. lia.
    + split; [exact Hz|].
      intros i. rewrite generated_app, deleted_app, G.
      rewrite !count_occ_app, Hb. lia.
  - unfold apply_op. cbn [fst snd].
    rewrite DestroyGLTextures_closed by lia. cbn [fst snd].
    rewrite filter_nonzero_all by exact Hz.
    rewrite !loaded_ids_empty.
    split; [constructor|].
    intros i. rewrite generated_app, deleted_app, generated_map, deleted_map.
    rewrite app_nil_r, !count_occ_app, Hb. simpl. lia.
Qed.

(** X14.  No texture is leaked.  As long as glGenTextures hands out
    names other than 0, after any sequence of loads and destroys every
    generated name has been deleted or is still in the table, counted
    with repetitions; after a final DestroyGLTextures every generated
    name has been deleted. *)
Theorem no_texture_is_leaked (p : ptr) (slots : list TEXTURE_INFO)
  (ops : list TextureOp) :
  List.length slots = 16%nat ->
  forallb names_nonzero ops = true ->
  let r := run_ops ops (SceneManager_new (F := F) p slots) in
  (forall id,
     count_occ Z.eq_dec (generated (snd r)) id =
     (count_occ Z.eq_dec (deleted (snd r)) id
      + count_occ Z.eq_dec (loaded_ids (fst r)) id)%nat)
  /\ (forall id,
        count_occ Z.eq_dec (generated (snd (apply_op r OpDestroy))) id =
        count_occ Z.eq_dec (deleted (snd (apply_op r OpDestroy))) id).
Proof.
  intros Hl Hnz. cbv zeta.
  assert (B : balanced (run_ops ops (SceneManager_new (F := F) p slots))).
  { apply run_ops_invariant; [|apply apply_op_balanced|exact Hnz].
    split; [simpl; lia|]. split; [exact Hl|].
    split; [constructor|]. intros i. reflexivity. }
  split.
  - apply B.
  - pose proof (@apply_op_balanced _ OpDestroy eq_refl B) as B'.
    destruct B as [Hc [Hl' _]].
    destruct B' as [_ [_ [_ Hb]]].
    assert (E : loaded_ids
                  (fst (apply_op (run_ops ops (SceneManager_new (F := F) p slots))
                          OpDestroy)) = []).
    { unfold apply_op. rewrite DestroyGLTextures_closed by lia. reflexivity. }
    intros i. rewrite Hb, E. simpl. lia.
Qed.

Lemma BindGLTextures_loop_nth (n : nat) :
  forall (i : Z) (a : list TEXTURE_INFO) (k : nat),
  (k < n)%nat ->
  nth_error (BindGLTextures_loop n i a) (2 * k) =
    Some (glActiveTexture (GL_TEXTURE0 + (i + Z.of_nat k)))
  /\ nth_error (BindGLTextures_loop n i a) (2 * k + 1) =
       Some (glBindTexture (ID (entry a (i + Z.of_nat k)))).
Proof.
  induction n as [|n IH]; intros i a k Hk; [lia|].
  destruct k as [|k].
  - change (2 * 0)%nat with 0%nat. change (0 + 1)%nat with 1%nat.
    change (Z.of_nat 0) with 0. rewrite Z.add_0_r.
    cbn [BindGLTextures_loop nth_error]. split; reflexivity.
  - replace (2 * S k)%nat with (S (S (2 * k))) by lia.
    replace (S (S (2 * k)) + 1)%nat with (S (S (2 * k + 1))) by lia.
    cbn [BindGLTextures_loop nth_error].
    destruct (IH (i + 1) a k ltac:(lia)) as [H1 H2].
    rewrite H1, H2.
    replace (i + 1 + Z.of_nat k) with (i + Z.of_nat (S k)) by lia.
    split; reflexivity.
Qed.

Lemma BindGLTextures_loop_length (n : nat) (i : Z) (a : list TEXTURE_INFO) :
  List.length (BindGLTextures_loop n i a) = (2 * n)%nat.
Proof.
  revert i. induction n as [|n IH]; intros i; [reflexivity|].
  cbn [BindGLTextures_loop List.length]. rewrite IH. lia.
Qed.

(** X15.  The slot FindTextureSlot returns for a tag is a texture unit
    BindGLTextures activates, and the texture it binds there is the
    one stored under that tag; BindGLTextures makes two calls for each
    loaded texture. *)
Theorem found_slot_is_a_bound_unit (s : SceneManager F) (t : string) :
  0 <= FindTextureSlot s t ->
  let r := FindTextureSlot s t in
  nth_error (BindGLTextures s) (2 * Z.to_nat r) =
    Some (glActiveTexture (GL_TEXTURE0 + r))
  /\ nth_error (BindGLTextures s) (2 * Z.to_nat r + 1) =
       Some (glBindTexture (ID (entry (m_textureIDs s) r)))
  /\ tag (entry (m_textureIDs s) r) = t
  /\ List.length (BindGLTextures s) = (2 * Z.to_nat (m_loadedTextures s))%nat.
Proof.
  intros Hr. cbv zeta.
  destruct (FindTextureSlot_is_first_match_aux s t) as [[R _]|[R [T _]]]; [lia|].
  unfold BindGLTextures.
  destruct (@BindGLTextures_loop_nth (Z.to_nat (m_loadedTextures s)) 0
              (m_textureIDs s) (Z.to_nat (FindTextureSlot s t)) ltac:(lia))
    as [H1 H2].
  rewrite H1, H2, BindGLTextures_loop_length.
  replace (0 + Z.of_nat (Z.to_nat (FindTextureSlot s t)))
    with (FindTextureSlot s t) by lia.
  repeat split. exact T.
Qed.

(** X16.  DestroyGLTextures deletes the loaded texture names that are
    not 0, once each and in table order, clears the ID of every loaded
    entry and keeps its tag; afterwards no tag is found, nothing is
    bound, and a second call deletes nothing. *)
Theorem destroy_clears_table (s : SceneManager F) :
  0 <= m_loadedTextures s <= Z.of_nat (List.length (m_textureIDs s)) ->
  let s' := fst (DestroyGLTextures s) in
  deleted (snd (DestroyGLTextures s)) =
    filter (fun id => negb (id =? 0)) (loaded_ids s)
  /\ generated (snd (DestroyGLTextures s)) = []
  /\ m_textureIDs s' =
     (map cleared (firstn (Z.to_nat (m_loadedTextures s)) (m_textureIDs s))
      ++ skipn (Z.to_nat (m_loadedTextures s)) (m_textureIDs s))%list
  /\ m_loadedTextures s' = 0
  /\ (forall t, FindTextureSlot s' t = -1 /\ FindTextureID s' t = -1)
  /\ BindGLTextures s' = []
  /\ DestroyGLTextures s' = (s', []).
Proof.
  intros Hc. cbv zeta.
  rewrite DestroyGLTextures_closed by exact Hc. cbn [fst snd].
  rewrite deleted_map, generated_map.
  repeat split.
Qed.

End TextureTable.

Lemma texture_count_stays_in_table_witness :
  let s := fst (run_ops sample_loads (SceneManager_new (F := R) NULL blank_table)) in
  (0 <= m_loadedTextures s <= 16)%Z
  /\ List.length (m_textureIDs s) = 16%nat.
Proof.
  apply (texture_count_stays_in_table (F := R) NULL blank_table sample_loads).
  reflexivity.
Defined.

Lemma created_texture_is_found_witness :
  let s := fst (run_ops sample_loads (SceneManager_new (F := R) NULL blank_table)) in
  let s' := snd (fst (CreateGLTexture "Textures/rubber2.jpg" "rubber"
                        (Some (mkImage 8 8 4)) 12 s)) in
  m_loadedTextures s' = (m_loadedTextures s + 1)%Z
  /\ FindTextureSlot s' "rubber" =
     (if (FindTextureSlot s "rubber" <? 0)%Z && String.eqb "rubber" "rubber"
      then m_loadedTextures s else FindTextureSlot s "rubber").
Proof.
  apply (created_texture_is_found (F := R) "Textures/rubber2.jpg" "rubber" "rubber"
           (Some (mkImage 8 8 4)) 12
           (fst (run_ops sample_loads (SceneManager_new (F := R) NULL blank_table)))).
  - vm_compute. discriminate.
  - reflexivity.
  - reflexivity.
Defined.

Lemma failed_load_changes_nothing_witness :
  let s := SceneManager_new (F := R) NULL blank_table in
  let r := CreateGLTexture "Textures/grey.png" "grey" (Some (mkImage 4 4 1)) 9 s in
  fst (fst r) = false
  /\ snd (fst r) = s /\ generated (snd r) = deleted (snd r).
Proof.
  cbv zeta. split; [reflexivity|].
  apply (failed_load_changes_nothing (F := R) "Textures/grey.png" "grey"
           (Some (mkImage 4 4 1)) 9 (SceneManager_new (F := R) NULL blank_table)).
  reflexivity.
Defined.

Lemma no_texture_is_leaked_witness :
  let r := run_ops sample_loads (SceneManager_new (F := R) NULL blank_table) in
  (forall id,
     count_occ Z.eq_dec (generated (snd r)) id =
     (count_occ Z.eq_dec (deleted (snd r)) id
      + count_occ Z.eq_dec (loaded_ids (fst r)) id)%nat)
  /\ (forall id,
        count_occ Z.eq_dec (generated (snd (apply_op r OpDestroy))) id =
        count_occ Z.eq_dec (deleted (snd (apply_op r OpDestroy))) id).
Proof.
  apply (no_texture_is_leaked (F := R) NULL blank_table sample_loads).
  - reflexivity.
  - reflexivity.
Defined.

Lemma found_slot_is_a_bound_unit_witness :
  let s := fst (run_ops sample_loads (SceneManager_new (F := R) NULL blank_table)) in
  let r := FindTextureSlot s "rubber" in
  nth_error (BindGLTextures s) (2 * Z.to_nat r) =
    Some (glActiveTexture (GL_TEXTURE0 + r)%Z)
  /\ nth_error (BindGLTextures s) (2 * Z.to_nat r + 1) =
       Some (glBindTexture (ID (entry (m_textureIDs s) r)))
  /\ tag (entry (m_textureIDs s) r) = "rubber"%string
  /\ List.length (BindGLTextures s) = (2 * Z.to_nat (m_loadedTextures s))%nat.
Proof.
  apply (found_slot_is_a_bound_unit (F := R)
           (fst (run_ops sample_loads (SceneManager_new (F := R) NULL blank_table)))
           "rubber").
  vm_compute. discriminate.
Defined.

Lemma destroy_clears_table_witness :
  let s := fst (run_ops sample_loads (SceneManager_new (F := R) NULL blank_table)) in
  deleted (snd (DestroyGLTextures s)) = [11%Z]
  /\ FindTextureSlot s "rubber" = 0%Z
  /\ FindTextureSlot (fst (DestroyGLTextures s)) "rubber" = (-1)%Z.
Proof.
  cbv zeta.
  pose proof (destroy_clears_table (F := R)
                (fst (run_ops sample_loads (SceneManager_new (F := R) NULL blank_table))))
    as H.
  cbv zeta in H.
  assert (Hc : (0 <= m_loadedTextures
                       (fst (run_ops sample_loads
                               (SceneManager_new (F := R) NULL blank_table)))
                <= Z.of_nat (List.length
                     (m_textureIDs
                        (fst (run_ops sample_loads
                                (SceneManager_new (F := R) NULL blank_table))))))%Z).
  { vm_compute. split; discriminate. }
  destruct (H Hc) as [D [_ [_ [_ [L _]]]]].
  split; [rewrite D; reflexivity|].
  split; [reflexivity|].
  apply L.
Defined.

(** X25.  On every path through CreateGLTexture a decoded image is
    freed exactly once and nothing is freed when no image was decoded;
    whenever the function binds a texture it leaves GL_TEXTURE_2D
    unbound when it returns. *)
Theorem decoded_image_is_freed_once (F : Type) (filename t : string)
  (image : option Image) (textureID : Z) (s : SceneManager F) :
  let calls := snd (CreateGLTexture filename t image textureID s) in
  List.length (filter is_image_free calls) =
    (if (m_loadedTextures s <? 16)%Z
     then match image with Some _ => 1%nat | None => 0%nat end
     else 0%nat)
  /\ last (bound_textures calls) 0%Z = 0%Z.
Proof.
  cbv zeta. unfold CreateGLTexture.
  rewrite Z.geb_leb.
  destruct (Z.leb_spec 16 (m_loadedTextures s)) as [G|G];
    destruct (Z.ltb_spec (m_loadedTextures s) 16) as [L|L]; try lia.
  - split; reflexivity.
  - destruct image as [img|]; [|split; reflexivity].
    destruct (channels img =? 3)%Z; [split; reflexivity|].
    destruct (channels img =? 4)%Z; split; reflexivity.
Qed.

(** ** What the scene manager sends to the shader *)

Section SceneCalls.
Context {F D M : Type} {FO : FloatOps F D} {TO : TransformOps F M}.
Local Open Scope Z_scope.

Lemma drawn_app (l1 l2 : list (ShaderCall F M)) :
  drawn (l1 ++ l2) = (drawn l1 ++ drawn l2)%list.
Proof. apply flat_map_app. Qed.

Lemma SetShaderTexture_cases (s : SceneManager F) (t : string) :
  is_null (m_pShaderManager s) = false ->
  (FindTextureSlot s t < 0
   /\ SetShaderTexture (FO := FO) (M := M) s t =
      [std_cout ("Texture tag not found: " ++ t)%string;
       setIntValue kUniformUseTexture 0;
       setVec4Value kUniformObjectColor
         (mkvec4 (f_lit 0.6) (f_lit 0.6) (f_lit 0.6) (f_lit 1.0))])
  \/ (0 <= FindTextureSlot s t
      /\ SetShaderTexture (FO := FO) (M := M) s t =
         [setIntValue kUniformUseTexture 1;
          setVec4Value kUniformObjectColor (vec4_all (f_lit 1.0));
          setSampler2DValue kUniformTexture (FindTextureSlot s t)]).
Proof.
  intros Hn. unfold SetShaderTexture. rewrite Hn.
  destruct (Z.ltb_spec (FindTextureSlot s t) 0); [left|right]; split; auto.
Qed.

Lemma SetShaderTexture_null (s : SceneManager F) (t : string) :
  is_null (m_pShaderManager s) = true ->
  SetShaderTexture (FO := FO) (M := M) s t = [].
Proof. intros Hn. unfold SetShaderTexture. rewrite Hn. reflexivity. Qed.

(** *** Draw calls *)

Lemma drawn_SetShaderTexture (s : SceneManager F) (t : string) :
  drawn (SetShaderTexture (FO := FO) (M := M) s t) = [].
Proof.
  unfold SetShaderTexture. destruct (is_null _); [reflexivity|].
  destruct (_ <? _); reflexivity.
Qed.

Lemma drawn_SetTextureUVScale (s : SceneManager F) (u v : F) :
  drawn (SetTextureUVScale (M := M) s u v) = [].
Proof. unfold SetTextureUVScale. destruct (is_null _); reflexivity. Qed.

Lemma drawn_material_preset (s : SceneManager F) (a d sp sh : F) :
  drawn (material_preset (FO := FO) (M := M) s a d sp sh) = [].
Proof. unfold material_preset. destruct (is_null _); reflexivity. Qed.

Lemma drawn_SetTransformations (s : SceneManager F) (sc : vec3 F) (x y z : F)
  (p : vec3 F) :
  drawn (SetTransformations (FO := FO) (TO := TO) s sc x y z p) = [].
Proof. unfold SetTransformations. destruct (is_null _); reflexivity. Qed.

Lemma drawn_SetSceneLights_loop (i : Z) (ls : list (LightSourceCPU (F := F))) :
  drawn (SetSceneLights_loop (M := M) i ls) = [].
Proof. revert i. induction ls as [|l ls IH]; intros i; simpl; auto. Qed.

Lemma drawn_SetSceneLights (s : SceneManager F) :
  drawn (SetSceneLights (FO := FO) (M := M) s) = [].
Proof.
  unfold SetSceneLights. destruct (is_null _); [reflexivity|].
  apply drawn_SetSceneLights_loop.
Qed.

(** X17.  RenderScene draws the same ten meshes in the same order
    whatever the state of the scene manager: the floor and the
    backdrop planes, the coaster, the three parts of the mug, the two
    of the can, the wood block and the sphere.  Without a shader
    manager the draw calls are all it does. *)
Theorem render_draws_ten_meshes (s : SceneManager F) :
  drawn (RenderScene (FO := FO) (TO := TO) s) = render_meshes
  /\ (is_null (m_pShaderManager s) = true ->
      RenderScene (FO := FO) (TO := TO) s = map Draw render_meshes).
Proof.
  split.
  - flatten_scene.
    change (setIntValue (F := F) (M := M) kUniformUseLighting 1
              :: SetSceneLights s)
      with ([setIntValue (F := F) (M := M) kUniformUseLighting 1]
              ++ SetSceneLights s)%list.
    destruct (negb (is_null (m_pShaderManager s)));
      rewrite !drawn_app, ?drawn_SetShaderTexture, ?drawn_SetTextureUVScale,
        ?drawn_material_preset, ?drawn_SetTransformations,
        ?drawn_SetSceneLights;
      reflexivity.
  - intros Hn. flatten_scene.
    rewrite !SetShaderTexture_null by exact Hn.
    unfold material_preset, SetTransformations, SetTextureUVScale.
    rewrite Hn. reflexivity.
Qed.

(** *** Uniforms set before each draw call *)

Lemma prepared_skip (required : list string) (l1 : list (ShaderCall F M)) :
  forall (seen l2 : list (ShaderCall F M)),
  forallb (fun c => negb (is_draw c)) l1 = true ->
  prepared_draws required seen (l1 ++ l2) =
  prepared_draws required (rev l1 ++ seen) l2.
Proof.
  induction l1 as [|c l1 IH]; intros seen l2 H; [reflexivity|].
  simpl in H. apply andb_prop in H. destruct H as [Hc Hl].
  cbn [app prepared_draws]. destruct (is_draw c); [discriminate|].
  rewrite IH by exact Hl. cbn [rev]. rewrite <- app_assoc. reflexivity.
Qed.

Lemma SetSceneLights_loop_uploads (i : Z) (ls : list (LightSourceCPU (F := F))) :
  forallb (fun c => negb (is_draw c)) (SetSceneLights_loop (M := M) i ls) = true.
Proof. revert i. induction ls as [|l ls IH]; intros i; simpl; auto. Qed.

(** An object whose texture is chosen first and whose transform is
    set last. *)
Lemma object_prepared (s : SceneManager F) (t : string) (u v a d sp sh : F)
  (sc : vec3 F) (x y z : F) (p : vec3 F) (m : Mesh)
  (seen rest : list (ShaderCall F M)) :
  is_null (m_pShaderManager s) = false ->
  prepared_draws per_object_uniforms seen
    (SetShaderTexture (FO := FO) s t
     ++ SetTextureUVScale s u v
     ++ material_preset (FO := FO) s a d sp sh
     ++ SetTransformations (FO := FO) (TO := TO) s sc x y z p
     ++ Draw m :: rest) =
  prepared_draws per_object_uniforms [] rest.
Proof.
  intros Hn.
  destruct (SetShaderTexture_cases s t Hn) as [[_ E]|[_ E]]; rewrite E;
    unfold material_preset, SetTransformations, SetTextureUVScale;
    rewrite Hn; reflexivity.
Qed.

(** The floor, whose transform is set first. *)
Lemma floor_prepared (s : SceneManager F) (t : string) (u v a d sp sh : F)
  (sc : vec3 F) (x y z : F) (p : vec3 F) (m : Mesh)
  (seen rest : list (ShaderCall F M)) :
  is_null (m_pShaderManager s) = false ->
  prepared_draws per_object_uniforms seen
    (SetTransformations (FO := FO) (TO := TO) s sc x y z p
     ++ SetShaderTexture (FO := FO) s t
     ++ SetTextureUVScale s u v
     ++ material_preset (FO := FO) s a d sp sh
     ++ Draw m :: rest) =
  prepared_draws per_object_uniforms [] rest.
Proof.
  intros Hn.
  destruct (SetShaderTexture_cases s t Hn) as [[_ E]|[_ E]]; rewrite E;
    unfold material_preset, SetTransformations, SetTextureUVScale;
    rewrite Hn; reflexivity.
Qed.

(** X18.  With a shader manager, every draw call of RenderScene comes
    after the model matrix, the texture switch, the object colour, the
    UV scale and the five material uniforms have been written since
    the draw call before it: no object is drawn with a uniform left
    over from the object before, whether its texture is found or not. *)
Theorem every_draw_is_prepared (s : SceneManager F) :
  is_null (m_pShaderManager s) = false ->
  prepared_draws per_object_uniforms []
    (RenderScene (FO := FO) (TO := TO) s) = true.
Proof.
  intros Hn. flatten_scene. rewrite Hn. cbn [negb].
  rewrite <- !app_assoc.
  change (setIntValue (F := F) (M := M) kUniformUseLighting 1
            :: SetSceneLights s)
    with ([setIntValue (F := F) (M := M) kUniformUseLighting 1]
            ++ SetSceneLights s)%list.
  rewrite <- !app_assoc.
  rewrite (prepared_skip per_object_uniforms [setIntValue kUniformUseLighting 1])
    by reflexivity.
  rewrite (prepared_skip per_object_uniforms (SetSceneLights s))
    by (unfold SetSceneLights; rewrite Hn; apply SetSceneLights_loop_uploads).
  cbn [app].
  rewrite floor_prepared by exact Hn.
  rewrite !object_prepared by exact Hn.
  reflexivity.
Qed.

(** The requirement is not an empty one: a draw call with nothing
    before it is not prepared. *)
Remark bare_draw_is_not_prepared :
  prepared_draws (F := F) (M := M) per_object_uniforms [] [Draw Plane] = false.
Proof. reflexivity. Qed.

(** *** Texture samplers *)

Lemma sampler_of_SetShaderTexture (s : SceneManager F) (t name : string) (slot : Z) :
  In (setSampler2DValue name slot) (SetShaderTexture (FO := FO) (M := M) s t) ->
  name = kUniformTexture
  /\ 0 <= slot < m_loadedTextures s
  /\ slot = FindTextureSlot s t
  /\ tag (entry (m_textureIDs s) slot) = t.
Proof.
  unfold SetShaderTexture. destruct (is_null _); [intros []|].
  destruct (FindTextureSlot_is_first_match_aux s t) as [[R _]|[R [T _]]].
  - rewrite R. simpl. intuition discriminate.
  - destruct (Z.ltb_spec (FindTextureSlot s t) 0); [lia|].
    simpl. intros [H1|[H1|[H1|[]]]]; try discriminate.
    injection H1 as <- <-. auto.
Qed.

Lemma no_sampler_in_lights (name : string) (slot i : Z)
  (ls : list (LightSourceCPU (F := F))) :
  ~ In (setSampler2DValue name slot) (SetSceneLights_loop (M := M) i ls).
Proof.
  revert i. induction ls as [|l ls IH]; intros i; simpl; [tauto|].
  specialize (IH (i + 1)). intuition discriminate.
Qed.

(** X19.  Every sampler RenderScene uploads is the objectTexture
    uniform, and its slot is a loaded one, below the texture count,
    that holds one of the tags RenderScene asks for: the scene never
    samples a texture unit nothing was bound to. *)
Theorem sampler_slots_are_loaded (s : SceneManager F) (name : string) (slot : Z) :
  In (setSampler2DValue name slot) (RenderScene (FO := FO) (TO := TO) s) ->
  name = kUniformTexture
  /\ 0 <= slot < m_loadedTextures s
  /\ In (tag (entry (m_textureIDs s) slot)) render_tags.
Proof.
  intros H. flatten_scene_in H.
  split_in H;
    try (apply sampler_of_SetShaderTexture in H;
         destruct H as [Hn [Hs [_ Ht]]];
         split; [exact Hn|]; split; [exact Hs|];
         rewrite Ht; simpl; tauto);
    exfalso; revert H;
    unfold material_preset, SetTransformations, SetTextureUVScale, SetSceneLights;
    destruct (is_null (m_pShaderManager s)); simpl;
    try (intros [H|H]; [discriminate|revert H; apply no_sampler_in_lights]);
    intuition discriminate.
Qed.

(** *** Lights *)

(** X20.  With a shader manager, SetSceneLights writes six uniforms for
    each of the kTotalLights lights, the two switched off included,
    all under different names, and none of them is a uniform an object
    sets before it is drawn. *)
Theorem lights_write_distinct_uniforms (s : SceneManager F) :
  is_null (m_pShaderManager s) = false ->
  List.length (SetSceneLights (FO := FO) (M := M) s) = Z.to_nat (6 * kTotalLights)
  /\ List.length (written (SetSceneLights (FO := FO) (M := M) s))
     = Z.to_nat (6 * kTotalLights)
  /\ distinct (written (SetSceneLights (FO := FO) (M := M) s)) = true
  /\ forallb (fun n => negb (existsb (String.eqb n) per_object_uniforms))
       (written (SetSceneLights (FO := FO) (M := M) s)) = true.
Proof.
  intros Hn. unfold SetSceneLights. rewrite Hn.
  repeat split; vm_compute; reflexivity.
Qed.

(** *** Materials *)

Lemma apply_op_keeps_rest (acc : SceneManager F * list GLCall) (op : TextureOp) :
  m_pShaderManager (fst (apply_op acc op)) = m_pShaderManager (fst acc)
  /\ m_objectMaterials (fst (apply_op acc op)) = m_objectMaterials (fst acc).
Proof.
  destruct acc as [s calls]. destruct op as [f t image id|]; unfold apply_op;
    cbn [fst snd].
  - pose proof (CreateGLTexture_cases f t image id s) as C. cbv zeta in C.
    destruct (CreateGLTexture f t image id s) as [[r s'] cs]. cbn [fst snd] in *.
    destruct C as [[_ [_ [_ [E _]]]]|[_ [_ [E _]]]]; subst s'; split; reflexivity.
  - unfold DestroyGLTextures.
    destruct (DestroyGLTextures_loop _ _ _) as [a cs]. split; reflexivity.
Qed.

(** X21.  FindMaterial returns the first material with the tag asked
    for; when no material has it, it returns false and leaves the
    material passed in as it was. *)
Theorem FindMaterial_is_first_match (s : SceneManager F) (t : string)
  (m : OBJECT_MATERIAL F) :
  let r := FindMaterial s t m in
  (fst r = false /\ snd r = m
   /\ forall x, In x (m_objectMaterials s) -> material_tag x <> t)
  \/ (fst r = true /\ material_tag (snd r) = t
      /\ exists pre post,
           m_objectMaterials s = (pre ++ snd r :: post)%list
           /\ forall x, In x pre -> material_tag x <> t).
Proof.
  cbv zeta. unfold FindMaterial.
  induction (m_objectMaterials s) as [|x ms IH].
  - left. simpl. repeat split; auto.
  - simpl. destruct (String.eqb_spec (material_tag x) t) as [E|E].
    + right. simpl. split; [reflexivity|]. split; [exact E|].
      exists [], ms. split; [reflexivity|]. intros y [].
    + destruct IH as [[R [S N]]|[R [T [pre [post [Ems N]]]]]].
      * left. split; [exact R|]. split; [exact S|].
        intros y [<-|Hy]; auto.
      * right. split; [exact R|]. split; [exact T|].
        exists (x :: pre), post. split; [simpl; f_equal; exact Ems|].
        intros y [<-|Hy]; auto.
Qed.

(** X22.  Nothing ever defines a material: after any sequence of
    texture loads and destroys on a new scene manager the material
    list is still empty, so SetShaderMaterial uploads no uniform; with
    a shader manager it only reports that the tag was not found. *)
Theorem materials_are_never_found (p : ptr) (slots : list TEXTURE_INFO)
  (ops : list TextureOp) (t : string) :
  let s := fst (run_ops ops (SceneManager_new (F := F) p slots)) in
  m_objectMaterials s = []
  /\ SetShaderMaterial (FO := FO) (M := M) s t =
     if is_null p then []
     else [std_cout ("Material tag not found: " ++ t)%string].
Proof.
  cbv zeta.
  assert (I : m_pShaderManager (fst (run_ops ops (SceneManager_new (F := F) p slots))) = p
              /\ m_objectMaterials (fst (run_ops ops (SceneManager_new (F := F) p slots))) = []).
  { apply (run_ops_invariant_all
             (fun acc => m_pShaderManager (fst acc) = p
                         /\ m_objectMaterials (fst acc) = [])).
    - split; reflexivity.
    - intros acc op [Hp Hm].
      destruct (apply_op_keeps_rest acc op) as [E1 E2].
      rewrite E1, E2. auto. }
  destruct I as [Hp Hm]. split; [exact Hm|].
  unfold SetShaderMaterial, FindMaterial. rewrite Hp, Hm.
  destruct (is_null p); reflexivity.
Qed.

(** *** Missing textures *)

Lemma cout_of_SetShaderTexture (s : SceneManager F) (t : string) :
  is_null (m_pShaderManager s) = false ->
  existsb is_cout (SetShaderTexture (FO := FO) (M := M) s t)
  = (FindTextureSlot s t <? 0).
Proof.
  intros Hn. unfold SetShaderTexture. rewrite Hn.
  destruct (FindTextureSlot s t <? 0); reflexivity.
Qed.

Lemma cout_of_lights (i : Z) (ls : list (LightSourceCPU (F := F))) :
  existsb is_cout (SetSceneLights_loop (M := M) i ls) = false.
Proof. revert i. induction ls as [|l ls IH]; intros i; simpl; auto. Qed.

Lemma render_reports_missing (s : SceneManager F) :
  is_null (m_pShaderManager s) = false ->
  existsb is_cout (RenderScene (FO := FO) (TO := TO) s)
  = existsb (fun t => FindTextureSlot s t <? 0) render_tags.
Proof.
  intros Hn. flatten_scene. rewrite Hn. cbn [negb].
  rewrite !existsb_app.
  rewrite !cout_of_SetShaderTexture by exact Hn.
  unfold material_preset, SetTransformations, SetTextureUVScale, SetSceneLights.
  rewrite Hn. cbn [negb existsb is_cout orb].
  rewrite cout_of_lights.
  unfold render_tags. cbn [existsb].
  rewrite ?orb_false_r. cbn [orb].
  rewrite <- ?orb_assoc. reflexivity.
Qed.

(** X23.  With a shader manager, RenderScene reports a missing texture
    exactly when one of the tags it asks for is not loaded; an object
    whose tag is missing is still drawn, in the grey fallback colour. *)
Theorem missing_texture_is_reported (s : SceneManager F) :
  is_null (m_pShaderManager s) = false ->
  existsb is_cout (RenderScene (FO := FO) (TO := TO) s)
  = existsb (fun t => FindTextureSlot s t <? 0) render_tags
  /\ forall t,
       FindTextureSlot s t < 0 ->
       SetShaderTexture (FO := FO) (M := M) s t =
       [std_cout ("Texture tag not found: " ++ t)%string;
        setIntValue kUniformUseTexture 0;
        setVec4Value kUniformObjectColor
          (mkvec4 (f_lit 0.6) (f_lit 0.6) (f_lit 0.6) (f_lit 1.0))].
Proof.
  intros Hn. split; [apply render_reports_missing; exact Hn|].
  intros t Ht.
  destruct (SetShaderTexture_cases s t Hn) as [[_ E]|[R _]]; [exact E|lia].
Qed.

(** *** PrepareScene *)

Lemma load_texture_ok (filename t : string) (answer : option Image * Z)
  (s : SceneManager F) (calls : list GLCall) :
  m_loadedTextures s < 16 ->
  (exists img, fst answer = Some img /\ (channels img = 3 \/ channels img = 4)) ->
  exists calls',
    load_texture filename t answer (s, calls) =
    (set_textures (m_loadedTextures s + 1)
       (store (m_textureIDs s) (m_loadedTextures s)
          (mkTEXTURE_INFO t (snd answer))) s, calls').
Proof.
  intros Hc [img [Hi Hch]]. unfold load_texture. cbn [fst snd].
  pose proof (CreateGLTexture_cases filename t (fst answer) (snd answer) s) as C.
  cbv zeta in C.
  destruct (CreateGLTexture filename t (fst answer) (snd answer) s) as [[r s'] cs].
  cbn [fst snd] in C.
  destruct C as [[_ [_ [_ [E _]]]]|[_ [W _]]].
  - subst s'. eexists. reflexivity.
  - exfalso. destruct W as [W|[W|[img' [W [N3 N4]]]]]; [lia|congruence|].
    rewrite Hi in W. injection W as ->. lia.
Qed.

(** X24.  When the table is empty and all eight images are decoded
    with 3 or 4 channels, PrepareScene leaves eight textures loaded:
    each tag is found in the slot of its turn, slot k holds the k-th
    name OpenGL generated and BindGLTextures binds it to texture unit
    k, and RenderScene then finds every texture it asks for. *)
Theorem prepared_scene_has_its_textures (env : nat -> option Image * Z)
  (s : SceneManager F) :
  m_loadedTextures s = 0 ->
  List.length (m_textureIDs s) = 16%nat ->
  (forall k, (k < 8)%nat ->
     exists img, fst (env k) = Some img /\ (channels img = 3 \/ channels img = 4)) ->
  let s' := fst (PrepareScene env s) in
  m_loadedTextures s' = 8
  /\ map (FindTextureSlot s') scene_tags = [0; 1; 2; 3; 4; 5; 6; 7]
  /\ loaded_ids s' = map (fun k => snd (env k)) (seq 0 8)
  /\ BindGLTextures s' =
     flat_map (fun k => [glActiveTexture (GL_TEXTURE0 + Z.of_nat k);
                         glBindTexture (snd (env k))]) (seq 0 8)
  /\ (is_null (m_pShaderManager s) = false ->
      existsb is_cout (RenderScene (FO := FO) (TO := TO) s') = false).
Proof.
  intros Hc Hl Henv. cbv zeta.
  destruct s as [p c a mats]. cbn [m_loadedTextures m_textureIDs] in Hc, Hl.
  subst c.
  do 16 (destruct a as [|? a]; [discriminate Hl|]).
  destruct a; [|discriminate Hl]. clear Hl.
  assert (E : exists calls,
             PrepareScene env (mkSceneManager p 0
               [t; t0; t1; t2; t3; t4; t5; t6; t7; t8; t9; t10; t11; t12; t13; t14]
               mats) =
             (mkSceneManager p 8
                [mkTEXTURE_INFO "wood" (snd (env 0%nat));
                 mkTEXTURE_INFO "stainedglass" (snd (env 1%nat));
                 mkTEXTURE_INFO "rubber" (snd (env 2%nat));
                 mkTEXTURE_INFO "stainless" (snd (env 3%nat));
                 mkTEXTURE_INFO "stainless_end" (snd (env 4%nat));
                 mkTEXTURE_INFO "rusticwood" (snd (env 5%nat));
                 mkTEXTURE_INFO "gold" (snd (env 6%nat));
                 mkTEXTURE_INFO "backdrop" (snd (env 7%nat));
                 t7; t8; t9; t10; t11; t12; t13; t14] mats, calls)).
  { unfold PrepareScene. cbv zeta.
    repeat match goal with
    | |- context [load_texture ?f ?tg (env ?k) (?s0, ?cs)] =>
        let Hk := fresh in
        destruct (@load_texture_ok f tg (env k) s0 cs
                    ltac:(cbn [m_loadedTextures]; lia)
                    (Henv k ltac:(lia))) as [? Hk];
        rewrite Hk; clear Hk;
        cbv [set_textures m_loadedTextures m_textureIDs m_pShaderManager
             m_objectMaterials store store_nat Z.ltb Z.compare Z.to_nat
             Pos.to_nat Pos.iter_op Nat.add Z.add Pos.add Pos.add_carry
             Pos.succ Pos.compare Pos.compare_cont]
    end.
    cbn [fst snd]. eexists. reflexivity. }
  destruct E as [calls E]. rewrite E. cbn [fst].
  split; [reflexivity|]. split; [reflexivity|]. split; [reflexivity|].
  split; [reflexivity|].
  cbn [m_pShaderManager]. intros Hn.
  rewrite render_reports_missing by exact Hn. reflexivity.
Qed.

End SceneCalls.

Lemma render_draws_ten_meshes_witness :
  RenderScene (FO := binary32_ops (lm := series_libm)) (TO := call_transforms float)
    (SceneManager_new NULL blank_table)
  = map Draw render_meshes.
Proof.
  apply (render_draws_ten_meshes (FO := binary32_ops (lm := series_libm))
           (TO := call_transforms float) (SceneManager_new NULL blank_table)).
  reflexivity.
Defined.

Lemma every_draw_is_prepared_witness :
  prepared_draws per_object_uniforms []
    (RenderScene (FO := binary32_ops (lm := series_libm))
       (TO := call_transforms float)
       (SceneManager_new (Addr 1) blank_table)) = true.
Proof.
  apply (every_draw_is_prepared (FO := binary32_ops (lm := series_libm))
           (TO := call_transforms float)
           (SceneManager_new (Addr 1) blank_table)).
  reflexivity.
Defined.

Lemma sampler_slots_are_loaded_witness :
  let s := fst (PrepareScene sample_env (SceneManager_new (F := float) (Addr 1) blank_table)) in
  "objectTexture"%string = kUniformTexture
  /\ (0 <= 7 < m_loadedTextures s)%Z
  /\ In (tag (entry (m_textureIDs s) 7)) render_tags.
Proof.
  apply (sampler_slots_are_loaded (FO := binary32_ops (lm := series_libm))
           (TO := call_transforms float)
           (fst (PrepareScene sample_env
                   (SceneManager_new (F := float) (Addr 1) blank_table)))
           "objectTexture" 7).
  vm_compute.
  repeat (first [left; reflexivity | right]).
Defined.

Lemma lights_write_distinct_uniforms_witness :
  distinct
    (written
       (SetSceneLights (FO := binary32_ops (lm := series_libm))
          (M := model_matrix float)
          (SceneManager_new (Addr 1) blank_table))) = true.
Proof.
  apply (lights_write_distinct_uniforms (FO := binary32_ops (lm := series_libm))
           (M := model_matrix float) (SceneManager_new (Addr 1) blank_table)).
  reflexivity.
Defined.

Lemma missing_texture_is_reported_witness :
  existsb is_cout
    (RenderScene (FO := binary32_ops (lm := series_libm))
       (TO := call_transforms float)
       (SceneManager_new (Addr 1) blank_table))
  = existsb
      (fun t => (FindTextureSlot (SceneManager_new (F := float) (Addr 1) blank_table) t
                 <? 0)%Z)
      render_tags.
Proof.
  apply (missing_texture_is_reported (FO := binary32_ops (lm := series_libm))
           (TO := call_transforms float)
           (SceneManager_new (Addr 1) blank_table)).
  reflexivity.
Defined.

Lemma prepared_scene_has_its_textures_witness :
  let s' := fst (PrepareScene sample_env
                   (SceneManager_new (F := float) (Addr 1) blank_table)) in
  m_loadedTextures s' = 8%Z
  /\ map (FindTextureSlot s') scene_tags = [0; 1; 2; 3; 4; 5; 6; 7]%Z
  /\ loaded_ids s' = map (fun k => snd (sample_env k)) (seq 0 8)
  /\ BindGLTextures s' =
     flat_map (fun k => [glActiveTexture (GL_TEXTURE0 + Z.of_nat k)%Z;
                         glBindTexture (snd (sample_env k))]) (seq 0 8)
  /\ (is_null (m_pShaderManager (SceneManager_new (F := float) (Addr 1) blank_table))
      = false ->
      existsb is_cout
        (RenderScene (FO := binary32_ops (lm := series_libm))
           (TO := call_transforms float) s') = false).
Proof.
  apply (prepared_scene_has_its_textures
           (FO := binary32_ops (lm := series_libm))
           (TO := call_transforms float) sample_env
           (SceneManager_new (F := float) (Addr 1) blank_table)).
  - reflexivity.
  - reflexivity.
  - intros k Hk. exists (mkImage 4 4 3). split; [reflexivity|left; reflexivity].
Defined.
